(** * OCI save / load of the tarexport engine, and the [docker load] command

    A shallow embedding of
      - [cli/command/image/load.go]        ([runLoad]),
      - [image/tarexport/save_oci.go]      ([getRefs], [parseOCINames], [save], [saveImage]),
      - the OCI load path of tarexport     ([loadOCI]),
    together with the properties the specification states about them.

    Conventions.  A Go [string] or [[]byte] is a [string]; a Go [map] is a
    [gmap], and a [for ... range] over a map takes the order in which the Go
    runtime enumerates it as an explicit argument (a function from the map to a
    permutation of its entries).  A Go function returning [(T, error)] returns
    a [result T].  Functions that mutate a session or a store thread the state
    explicitly and return it also when they fail. *)

From stdpp Require Import base option list gmap strings fin_maps sorting.
From Stdlib Require Import ZArith Ascii String Lia.

#[local] Set Warnings "-clear-no-such-hyp".

Open Scope nat_scope.

(** ** Bytes, digests and errors *)

Abbreviation bytes := string (only parsing).

(** [digest.Digest], [image.ID], [layer.DiffID] and [layer.ChainID] are all
    Go string types holding "<algo>:<hex>". *)
Abbreviation Digest := string (only parsing).
Abbreviation ID := string (only parsing).
Abbreviation DiffID := string (only parsing).
Abbreviation ChainID := string (only parsing).

Definition dquote : string := String (ascii_of_nat 34) EmptyString.
Definition newline : string := String (ascii_of_nat 10) EmptyString.

(** Go's [%q] on a string without characters that need escaping. *)
Definition quoted (s : string) : string := dquote +:+ s +:+ dquote.

(** The errors the modelled functions return.  The ones built with
    [fmt.Errorf] in the sources carry the arguments of their format string;
    [ErrExternal] stands for an error handed up from a collaborator. *)
Inductive Error : Type :=
  | ErrConflictingInput
  | ErrInvalidOCIRef (image ref : string)
  | ErrDuplicateRef (tag : string)
  | ErrEmptyExport
  | ErrLayersLength (expected actual : nat)
  | ErrInvalidDiffID (i : nat) (expected actual : DiffID)
  | ErrPanic (what : string)
  | ErrExternal (what : string).

Inductive result (A : Type) : Type :=
  | Ok (a : A)
  | Err (e : Error).
Arguments Ok {A} a.
Arguments Err {A} e.

Definition rbind {A B} (r : result A) (k : A -> result B) : result B :=
  match r with
  | Ok a => k a
  | Err e => Err e
  end.

Definition is_ok {A} (r : result A) : bool :=
  match r with Ok _ => true | Err _ => false end.

#[global] Instance result_ret : MRet result := fun A a => Ok a.
#[global] Instance result_bind : MBind result := fun A B k r => rbind r k.

(** Go's [for _, x := range xs] over a slice with an early [return err]. *)
Fixpoint foldR {A S} (f : S -> A -> result S) (xs : list A) (s : S) : result S :=
  match xs with
  | [] => Ok s
  | x :: rest => s' ← f s x; foldR f rest s'
  end.

(** The order in which the runtime enumerates a map: some permutation of its
    entries, not fixed by the language. *)
Definition RangeOrder {K} `{Countable K} {V} (rng : gmap K V -> list (K * V)) : Prop :=
  forall m, rng m ≡ₚ map_to_list m.

Definition oci_ref_class : string :=
  quoted "A" +:+ " to " +:+ quoted "Z" +:+ ", " +:+ quoted "a" +:+ " to " +:+ quoted "z" +:+ ", "
  +:+ quoted "0" +:+ " to " +:+ quoted "9" +:+ ", the hyphen " +:+ quoted "-" +:+ ", the dot "
  +:+ quoted "." +:+ ", and the underscore " +:+ quoted "_".

(** The text of the errors whose format string is in the sources. *)
Definition error_message (e : Error) : string :=
  match e with
  | ErrConflictingInput => "-input and -direct cannot be used at the same time"
  | ErrInvalidOCIRef image ref =>
      "invalid reference " +:+ quoted (image +:+ "=" +:+ ref)
      +:+ ", reference must not include characters outside of the set of " +:+ oci_ref_class
  | ErrDuplicateRef tag =>
      "unable to include unique references " +:+ quoted tag +:+ " in OCI image"
  | ErrEmptyExport => "empty export - not implemented"
  | ErrLayersLength _ _ => "invalid manifest, layers length mismatch"
  | ErrInvalidDiffID _ _ _ => "invalid diffID for layer"
  | ErrPanic what => what
  | ErrExternal what => what
  end.

(** ** The [docker load] command: [cli/command/image/load.go] *)

Module LoadCLI.

Record loadOptions := {
  input : string;
  quiet : bool;
  oci : bool;
  name : string;
  refs : list string;
  direct : string
}.

(** [types.ImageLoadOptions], the options of the request to the daemon. *)
Record ImageLoadOptions := {
  Quiet : bool;
  Name : string;
  Refs : gmap string string;
  Direct : string
}.

(** What the request body is read from: [nil], the command's standard input,
    or the file opened for [--input]. *)
Inductive Reader :=
  | NoReader
  | Stdin
  | File (path : string).

(** The part of [*command.DockerCli] and of the file system [runLoad] reads. *)
Record DockerCli := {
  OutIsTerminal : bool;
  os_Open : string -> result unit
}.

(** [strings.SplitN(s, "=", 2)]: the text before the first "=" and, when there
    is one, the text after it. *)
Fixpoint splitN2 (s : string) : string * option string :=
  match s with
  | EmptyString => (EmptyString, None)
  | String c rest =>
      if Ascii.eqb c "="%char then (EmptyString, Some rest)
      else let '(k, v) := splitN2 rest in (String c k, v)
  end.

(** [runconfigopts.ConvertKVStringsToMap]: a key with no "=" maps to the
    empty string, and a later entry overwrites an earlier one. *)
Fixpoint ConvertKVStringsToMap (values : list string) (acc : gmap string string)
  : gmap string string :=
  match values with
  | [] => acc
  | value :: rest =>
      let '(k, v) := splitN2 value in
      ConvertKVStringsToMap rest (<[k := default EmptyString v]> acc)
  end.

Definition nonempty (s : string) : bool := negb (String.eqb s EmptyString).

(** [runLoad] up to the call of [ImageLoad]: the reader and the options the
    request is sent with, or the error returned before anything is sent. *)
Definition loadRequest (cli : DockerCli) (opts : loadOptions)
  : result (Reader * ImageLoadOptions) :=
  if nonempty (direct opts) && nonempty (input opts) then Err ErrConflictingInput
  else
    let input0 := if nonempty (direct opts) then NoReader else Stdin in
    input1 ← (if nonempty (input opts)
              then (_ ← os_Open cli (input opts); Ok (File (input opts)))
              else Ok input0);
    let quiet' := if negb (OutIsTerminal cli) then true else quiet opts in
    Ok (input1,
        {| Quiet := quiet';
           Name := name opts;
           Refs := ConvertKVStringsToMap (refs opts) ∅;
           Direct := direct opts |}).


End LoadCLI.

(** ** References: the part of the [reference] package the engine uses *)

(** A [reference.NamedTagged]: [Name()] and [Tag()]. *)
Record NamedTagged := mkTagged {
  nt_name : string;
  nt_tag : string
}.

(** A [reference.Named] is a bare name, a [NamedTagged], or a
    [reference.Canonical] (name and digest); a Go type switch tells them
    apart. *)
Inductive Named :=
  | NameOnly (n : string)
  | Tagged (t : NamedTagged)
  | Canonical (n : string) (d : Digest).

#[global] Instance NamedTagged_eq_dec : EqDecision NamedTagged.
Proof. solve_decision. Defined.
#[global] Instance Named_eq_dec : EqDecision Named.
Proof. solve_decision. Defined.
#[global] Instance Error_eq_dec : EqDecision Error.
Proof. solve_decision. Defined.

Definition Name (r : Named) : string :=
  match r with
  | NameOnly n => n
  | Tagged t => nt_name t
  | Canonical n _ => n
  end.

Definition tagged_String (t : NamedTagged) : string := nt_name t +:+ ":" +:+ nt_tag t.

Definition ref_String (r : Named) : string :=
  match r with
  | NameOnly n => n
  | Tagged t => tagged_String t
  | Canonical n d => n +:+ "@" +:+ d
  end.

Definition IsNameOnly (r : Named) : bool :=
  match r with NameOnly _ => true | _ => false end.

Definition DefaultTag : string := "latest".

(** [digest.Canonical], the name of the default digest algorithm. *)
Definition digest_Canonical : string := "sha256".

(** An entry of the reference store: [reference.Association]. *)
Record Association := mkAssoc {
  assoc_Ref : Named;
  assoc_ID : Digest
}.

(** ** Images, layers and the stores *)

Record RootFS := mkRootFS {
  rootfs_Type : string;
  DiffIDs : list DiffID
}.

(** An [image.Image], as far as the engine reads it: its root file system and
    the configuration JSON it was parsed from ([RawJSON()]). *)
Record Image := mkImage {
  img_RootFS : RootFS;
  RawJSON : bytes
}.

(** A layer held by the layer store: its [DiffID()] and the uncompressed tar
    its [TarStream()] yields. *)
Record Layer := mkLayer {
  layer_DiffID : DiffID;
  layer_tar : bytes
}.

(** [imgspec.Descriptor] and [imgspecv1.Manifest] *)
Record Descriptor := mkDescriptor {
  desc_MediaType : string;
  desc_Digest : Digest;
  desc_Size : Z
}.

Record Manifest := mkManifest {
  SchemaVersion : Z;
  MediaType : string;
  Config : Descriptor;
  Layers : list Descriptor
}.

Definition MediaTypeImageManifest : string := "application/vnd.oci.image.manifest.v1+json".
Definition MediaTypeImageConfig : string := "application/vnd.oci.image.config.v1+json".
Definition MediaTypeImageLayer : string := "application/vnd.oci.image.layer.v1.tar+gzip".

(** The image store maps an image ID to its configuration JSON, the layer
    store a chain ID to a layer, the reference store lists associations. *)
Abbreviation ImageStore := (gmap ID bytes) (only parsing).
Abbreviation LayerStore := (gmap ChainID Layer) (only parsing).
Abbreviation RefStore := (list Association) (only parsing).

(** The collaborators of the engine whose code is outside the modelled
    files: hashing, compression, JSON, and the parsers of the [reference]
    package.  Every definition below is parametric in them. *)
Record Env := {
  (** [digest.FromBytes] *)
  digestFromBytes : bytes -> Digest;
  (** [archive.CompressStream(_, archive.Gzip)] and [archive.DecompressStream] *)
  gzip : bytes -> bytes;
  decompress : bytes -> result bytes;
  (** decoding of an image configuration, as [image.NewFromJSON] does it *)
  parseConfig : bytes -> option RootFS;
  (** [json.Marshal] and [json.Decoder.Decode] at the two types the engine
      writes and reads *)
  marshalManifest : Manifest -> bytes;
  unmarshalManifest : bytes -> option Manifest;
  marshalDescriptor : Descriptor -> bytes;
  unmarshalDescriptor : bytes -> option Descriptor;
  (** [reference.ParseNamed], [reference.ParseIDOrReference], and the tag
      grammar [reference.WithTag] checks *)
  ParseNamed : string -> result Named;
  ParseIDOrReference : string -> result (ID + Named);
  validTag : string -> bool;
  (** [image.Store.Search]: an image by a prefix of its ID *)
  is_Search : ImageStore -> string -> result ID
}.

Section Stores.
Context (E : Env).

(** [reference.WithTag]: the name of [r] with the tag [tag], when [tag] is
    one. *)
Definition WithTag (r : Named) (tag : string) : result NamedTagged :=
  if validTag E tag then Ok (mkTagged (Name r) tag)
  else Err (ErrExternal "invalid tag").

(** [image.NewFromJSON] *)
Definition NewFromJSON (src : bytes) : result Image :=
  match parseConfig E src with
  | Some rootfs => Ok (mkImage rootfs src)
  | None => Err (ErrExternal "invalid image JSON")
  end.

(** [image.Store.Get] *)
Definition is_Get (istore : ImageStore) (id : ID) : result Image :=
  match istore !! id with
  | Some raw => NewFromJSON raw
  | None => Err (ErrExternal "no such image")
  end.

(** Modelled from the spec: [image.Store.Create].  The ID of an image is the
    digest of its configuration JSON, and creating an image whose
    configuration is already stored returns the existing ID. *)
Definition is_Create (istore : ImageStore) (config : bytes) : result ID * ImageStore :=
  match NewFromJSON config with
  | Err e => (Err e, istore)
  | Ok _ =>
      let id := digestFromBytes E config in
      (Ok id, <[id := config]> istore)
  end.

(** [reference.Store.Get] *)
Definition rs_Get (rs : RefStore) (ref : Named) : result Digest :=
  match List.find (fun a => bool_decide (assoc_Ref a = ref)) rs with
  | Some a => Ok (assoc_ID a)
  | None => Err (ErrExternal "reference does not exist")
  end.

(** [reference.Store.ReferencesByName] *)
Definition rs_ReferencesByName (rs : RefStore) (ref : Named) : list Association :=
  List.filter (fun a => String.eqb (Name (assoc_Ref a)) (Name ref)) rs.

(** Modelled from the spec: [layer.CreateChainID], which is
    [chain(0) = diffID(0)], [chain(i) = H(chain(i-1) + " " + diffID(i))];
    the chain ID of no layer is the empty string. *)
Fixpoint createChainIDFromParent (parent : ChainID) (dgsts : list DiffID) : ChainID :=
  match dgsts with
  | [] => parent
  | d :: rest =>
      if String.eqb parent EmptyString then createChainIDFromParent d rest
      else createChainIDFromParent (digestFromBytes E (parent +:+ " " +:+ d)) rest
  end.

Definition CreateChainID (dgsts : list DiffID) : ChainID :=
  createChainIDFromParent EmptyString dgsts.

(** [RootFS.ChainID] and [RootFS.Append] *)
Definition rootfs_ChainID (r : RootFS) : ChainID := CreateChainID (DiffIDs r).
Definition rootfs_Append (r : RootFS) (d : DiffID) : RootFS :=
  mkRootFS (rootfs_Type r) (DiffIDs r ++ [d]).

(** [layer.Store.Get] *)
Definition ls_Get (ls : LayerStore) (chain : ChainID) : result Layer :=
  match ls !! chain with
  | Some l => Ok l
  | None => Err (ErrExternal "layer does not exist")
  end.

(** Modelled from the spec: [layer.Store.Register], which streams a tar into
    the store as a new layer on top of [parent]: the DiffID is the digest of
    the uncompressed stream, the layer is stored under the chain ID of the
    parent extended by it, and a chain already present is reused. *)
Definition ls_Register (ls : LayerStore) (tar : bytes) (parent : ChainID)
  : result Layer * LayerStore :=
  if negb (String.eqb parent EmptyString) && negb (bool_decide (is_Some (ls !! parent)))
  then (Err (ErrExternal "layer does not exist"), ls)
  else
    let diffID := digestFromBytes E tar in
    let chain := createChainIDFromParent parent [diffID] in
    match ls !! chain with
    | Some l => (Ok l, ls)
    | None => let l := mkLayer diffID tar in (Ok l, <[chain := l]> ls)
    end.

End Stores.

(** ** Name resolution for an OCI save: [getRefs] and [parseOCINames] *)

(** [ociRefRegexp], which is [^([A-Za-z0-9._-]+)+$]: one or more characters
    of the class, and nothing else. *)
Definition oci_ref_char (c : ascii) : bool :=
  let n := nat_of_ascii c in
  ((65 <=? n) && (n <=? 90)) || ((97 <=? n) && (n <=? 122)) || ((48 <=? n) && (n <=? 57))
  || (n =? 46) || (n =? 95) || (n =? 45).

Definition ociRefRegexp_MatchString (s : string) : bool :=
  negb (String.eqb s EmptyString) && forallb oci_ref_char (list_ascii_of_string s).

(** The [imageDescriptor] of a save session; [parseOCINames] and [save] read
    its [refs]. *)
Record imageDescriptor := mkDescr {
  refs : list NamedTagged
}.

(** The fields of [tarexporter] the OCI paths read: the three stores and the
    [--ref] overrides. *)
Record tarexporter := {
  l_is : ImageStore;
  l_ls : LayerStore;
  l_rs : RefStore;
  l_refs : gmap string string
}.

(** The two maps [parseOCINames] builds: [imgDescr] and [tags]
    (a [map[string]bool] that only ever holds [true]). *)
Record names_state := mkNames {
  imgDescr : gmap ID imageDescriptor;
  tags : gset string
}.

Section Resolve.
Context (E : Env).

(** The reference as a [NamedTagged]: itself, or the name with the default
    tag. *)
Definition tagged_or_default (r : Named) : result NamedTagged :=
  match r with
  | Tagged t => Ok t
  | _ => WithTag E r DefaultTag
  end.

(** The body of the loop of [getRefs] over the entries of [l.refs]. *)
Definition getRefs_step (overrides : gmap string string) (entry : string * string)
  : result (gmap string string) :=
  let '(image, ref) := entry in
  r ← ParseNamed E image;
  match r with
  | Canonical _ _ => Ok overrides
  | _ =>
      tagged ← tagged_or_default r;
      if negb (ociRefRegexp_MatchString ref) then Err (ErrInvalidOCIRef image ref)
      else Ok (<[tagged_String tagged := ref]> overrides)
  end.

Definition getRefs (rng : gmap string string -> list (string * string)) (l : tarexporter)
  : result (gmap string string) :=
  foldR getRefs_step (rng (l_refs l)) ∅.

(** The closure [addAssoc] of [parseOCINames]; [overrides] is the map
    [getRefs] returned (the local [refs] of the source). *)
Definition addAssoc (overrides : gmap string string) (st : names_state)
    (id : ID) (ref : option Named) : result names_state :=
  let st :=
    match imgDescr st !! id with
    | Some _ => st
    | None => mkNames (<[id := mkDescr []]> (imgDescr st)) (tags st)
    end in
  match ref with
  | None => Ok st
  | Some (Canonical _ _) => Ok st
  | Some ref =>
      match tagged_or_default ref with
      | Err _ => Ok st
      | Ok tagged =>
          tagged ← match overrides !! tagged_String tagged with
                   | Some r => WithTag E (Tagged tagged) r
                   | None => Ok tagged
                   end;
          let present := refs (default (mkDescr []) (imgDescr st !! id)) in
          if existsb (fun t => String.eqb (tagged_String tagged) (tagged_String t)) present
          then Ok st
          else if bool_decide (nt_tag tagged ∈ tags st)
          then Err (ErrDuplicateRef (nt_tag tagged))
          else Ok (mkNames (<[id := mkDescr (present ++ [tagged])]> (imgDescr st))
                           ({[nt_tag tagged]} ∪ tags st))
      end
  end.

(** The body of the loop of [parseOCINames] over the names. *)
Definition parseOCINames_step (l : tarexporter) (overrides : gmap string string)
    (st : names_state) (name : string) : result names_state :=
  idref ← ParseIDOrReference E name;
  match idref with
  | inl id =>
      _ ← is_Get E (l_is l) id;
      addAssoc overrides st id None
  | inr ref =>
      if String.eqb (Name ref) digest_Canonical then
        imgID ← is_Search E (l_is l) name;
        addAssoc overrides st imgID None
      else if IsNameOnly ref then
        let assocs := rs_ReferencesByName (l_rs l) ref in
        st ← foldR (fun st assoc => addAssoc overrides st (assoc_ID assoc) (Some (assoc_Ref assoc)))
                   assocs st;
        if List.length assocs =? 0 then
          imgID ← is_Search E (l_is l) name;
          addAssoc overrides st imgID None
        else Ok st
      else
        id ← rs_Get (l_rs l) ref;
        addAssoc overrides st id (Some ref)
  end.

Definition parseOCINames (rng : gmap string string -> list (string * string))
    (l : tarexporter) (names : list string) : result (gmap ID imageDescriptor) :=
  overrides ← getRefs rng l;
  st ← foldR (parseOCINames_step l overrides) names (mkNames ∅ ∅);
  Ok (imgDescr st).

End Resolve.

(** ** The OCI save session: [save] and [saveImage] *)

(** A directory laid out as an OCI image: the [oci-layout] marker, the files
    under [refs/] by name, and the files under [blobs/<algo>/<hex>] by the
    digest "<algo>:<hex>" that names their path.  The archive a save writes is
    the tar of such a directory, and a load reads the directory the tar was
    unpacked into. *)
Record OciDir := mkDir {
  dir_layout : option bytes;
  dir_refs : gmap string bytes;
  dir_blobs : gmap Digest bytes
}.

Definition emptyDir : OciDir := mkDir None ∅ ∅.

(** A call on a [ctypes.ImageDestination]; [dest] is the reference (the file
    name under [refs/]) the destination was opened for. *)
Inductive DestCall :=
  | CallPutBlob (dest : string) (content : bytes)
  | CallPutManifest (dest : string) (m : bytes).

Record layerInfo := mkLayerInfo {
  li_digest : Digest;
  li_size : Z
}.

(** The state of an [ociSaveSession]: its two caches and the staging
    directory, with the calls made on image destinations so far (oldest
    first).  The stores and the resolved [images] are read only. *)
Record ociSaveSession := mkSession {
  savedImages : gmap ID bytes;
  diffIDsCache : gmap DiffID layerInfo;
  tempDir : OciDir;
  calls : list DestCall
}.

(** A loop with an early [return err] over a state that is kept on failure. *)
Fixpoint foldS {A S} (f : A -> S -> result unit * S) (xs : list A) (s : S)
  : result unit * S :=
  match xs with
  | [] => (Ok tt, s)
  | x :: rest =>
      match f x s with
      | (Ok _, s') => foldS f rest s'
      | (Err e, s') => (Err e, s')
      end
  end.

(** [Digest.Hex()]: the text after the first colon; Go panics when there is
    none. *)
Fixpoint after_colon (s : string) : option string :=
  match s with
  | EmptyString => None
  | String c rest => if Ascii.eqb c ":"%char then Some rest else after_colon rest
  end.

Definition digest_Hex (d : Digest) : result string :=
  match after_colon d with
  | Some hex => Ok hex
  | None => Err (ErrPanic "no digest algorithm separator")
  end.

Definition size_of (content : bytes) : Z := Z.of_nat (String.length content).

Section Save.
Context (E : Env).

(** [oci.NewReference(tempDir, tag)] followed by [NewImageDestination]: the
    OCI layout transport takes a reference name of the class of
    [ociRefRegexp] only.  The destination is named by its reference. *)
Definition oci_NewReference (tag : string) : result string :=
  if ociRefRegexp_MatchString tag then Ok tag
  else Err (ErrExternal "invalid OCI reference").

(** [ociDest.PutBlob(stream, "", -1)]: the stream is stored under the digest
    of its bytes, and the digest and size are returned.  The staging
    directory is taken to be writable: the error the call returns when a
    write fails is left out, here and in [PutManifest]. *)
Definition PutBlob (dest : string) (content : bytes) (s : ociSaveSession)
  : (Digest * Z) * ociSaveSession :=
  let d := digestFromBytes E content in
  let dir := tempDir s in
  ((d, size_of content),
   mkSession (savedImages s) (diffIDsCache s)
     (mkDir (dir_layout dir) (dir_refs dir) (<[d := content]> (dir_blobs dir)))
     (calls s ++ [CallPutBlob dest content])).

Definition oci_layout_marker : bytes :=
  "{" +:+ quoted "imageLayoutVersion" +:+ ": " +:+ quoted "1.0.0" +:+ "}".

(** [ociDest.PutManifest(m)]: the manifest is stored as a blob, the marker
    [oci-layout] is written, and [refs/<dest>] receives the descriptor of the
    manifest blob. *)
Definition PutManifest (dest : string) (m : bytes) (s : ociSaveSession) : ociSaveSession :=
  let d := digestFromBytes E m in
  let dir := tempDir s in
  let desc := mkDescriptor MediaTypeImageManifest d (size_of m) in
  mkSession (savedImages s) (diffIDsCache s)
    (mkDir (Some oci_layout_marker)
           (<[dest := marshalDescriptor E desc]> (dir_refs dir))
           (<[d := m]> (dir_blobs dir)))
    (calls s ++ [CallPutManifest dest m]).

(** [s.diffIDsCache[k] = v], [s.savedImages[k] = v] and
    [m.Layers = append(m.Layers, d)]. *)
Definition cache_layer (s : ociSaveSession) (k : DiffID) (v : layerInfo) : ociSaveSession :=
  mkSession (savedImages s) (<[k := v]> (diffIDsCache s)) (tempDir s) (calls s).

Definition cache_manifest (s : ociSaveSession) (k : ID) (v : bytes) : ociSaveSession :=
  mkSession (<[k := v]> (savedImages s)) (diffIDsCache s) (tempDir s) (calls s).

Definition append_layer (m : Manifest) (d : Descriptor) : Manifest :=
  mkManifest (SchemaVersion m) (MediaType m) (Config m) (Layers m ++ [d]).

(** One turn of the loop of [saveImage] over the layers: the layer of the
    first [i+1] diff IDs is taken from the layer store, and its descriptor is
    the cached one when its DiffID was emitted before in the session, the one
    of the gzip blob put now otherwise.  The state of the loop is the manifest
    under construction and the session.  [TarStream] and [CompressStream] are
    taken to deliver the layer: of the error returns of a turn, only the one
    of [s.ls.Get] is kept. *)
Definition saveLayer (l : tarexporter) (dest : string) (diffIDs : list DiffID) (i : nat)
    (ms : Manifest * ociSaveSession) : result unit * (Manifest * ociSaveSession) :=
  match ls_Get (l_ls l) (CreateChainID E (take (S i) diffIDs)) with
  | Err e => (Err e, ms)
  | Ok ly =>
      match diffIDsCache ms.2 !! layer_DiffID ly with
      | Some info =>
          (Ok tt,
           (append_layer ms.1 (mkDescriptor MediaTypeImageLayer (li_digest info) (li_size info)),
            ms.2))
      | None =>
          let put := PutBlob dest (gzip E (layer_tar ly)) ms.2 in
          (Ok tt,
           (append_layer ms.1 (mkDescriptor MediaTypeImageLayer put.1.1 put.1.2),
            cache_layer put.2 (layer_DiffID ly) (mkLayerInfo put.1.1 put.1.2)))
      end
  end.

(** The manifest [saveImage] starts from: version, media type, and the
    descriptor of the configuration blob. *)
Definition manifest_of_config (configDigest : Digest) (configSize : Z) : Manifest :=
  mkManifest 2 MediaTypeImageManifest
    (mkDescriptor MediaTypeImageConfig configDigest configSize) [].

(** [saveImage]: with the destination and the layer streams taken not to
    fail, and [json.Marshal] of a manifest likewise, it returns an error when
    the image is not in the image store, when it has no layer, and when a
    layer of it is not in the layer store. *)
Definition saveImage (l : tarexporter) (id : ID) (dest : string) (s : ociSaveSession)
  : result unit * ociSaveSession :=
  match savedImages s !! id with
  | Some m => (Ok tt, PutManifest dest m s)
  | None =>
      match is_Get E (l_is l) id with
      | Err e => (Err e, s)
      | Ok img =>
          let diffIDs := DiffIDs (img_RootFS img) in
          if List.length diffIDs =? 0 then (Err ErrEmptyExport, s)
          else
            let configJSON := RawJSON img in
            let put := PutBlob dest configJSON s in
            let m := manifest_of_config put.1.1 put.1.2 in
            match foldS (saveLayer l dest diffIDs) (seq 0 (List.length diffIDs)) (m, put.2) with
            | (Err e, ms) => (Err e, ms.2)
            | (Ok _, ms) =>
                let mJSON := marshalManifest E ms.1 in
                (Ok tt, cache_manifest (PutManifest dest mJSON ms.2) id mJSON)
            end
      end
  end.

(** The reference names an image is stored under: the tag of each of its
    references, or the hex of its ID when it has none. *)
Definition save_ref (l : tarexporter) (id : ID) (tag : string) (s : ociSaveSession)
  : result unit * ociSaveSession :=
  match oci_NewReference tag with
  | Err e => (Err e, s)
  | Ok dest => saveImage l id dest s
  end.

(** The body of the loop of [save] over [s.images]. *)
Definition save_entry (l : tarexporter) (entry : ID * imageDescriptor) (s : ociSaveSession)
  : result unit * ociSaveSession :=
  let '(id, info) := entry in
  match foldS (fun i => save_ref l id (nt_tag i)) (refs info) s with
  | (Err e, s) => (Err e, s)
  | (Ok _, s) =>
      if List.length (refs info) =? 0 then
        match digest_Hex id with
        | Err e => (Err e, s)
        | Ok hex => save_ref l id hex s
        end
      else (Ok tt, s)
  end.

(** [save]: the caches start empty and the staging directory fresh; when
    every image is saved the directory is written to [outStream] as a tar,
    and nothing is written when an image fails.  The final session is
    returned beside the result. *)
Definition save (rng : gmap ID imageDescriptor -> list (ID * imageDescriptor))
    (l : tarexporter) (images : gmap ID imageDescriptor)
  : result OciDir * ociSaveSession :=
  match foldS (save_entry l) (rng images) (mkSession ∅ ∅ emptyDir []) with
  | (Err e, s) => (Err e, s)
  | (Ok _, s) => (Ok (tempDir s), s)
  end.

End Save.

(** ** The OCI load session: [loadOCI] *)

(** What [loadOCI] can change or write: the three stores of the exporter, the
    output stream, the image events logged, and its local variables
    [imageRefCount] and [imageIDsStr].  [ld_deferred] holds the layers whose
    release is deferred to the return of the function, in the order they were
    obtained. *)
Record loadState := mkLoad {
  ld_is : ImageStore;
  ld_ls : LayerStore;
  ld_rs : RefStore;
  ld_out : string;
  ld_events : list (string * string * string);
  ld_deferred : list Layer;
  imageRefCount : nat;
  imageIDsStr : string
}.

(** [filepath.Join(tmpDir, "blobs", d.Algorithm().String(), d.Hex())]: the
    blob the digest names; [Algorithm()] panics on a digest with no colon. *)
Definition blob_path (d : Digest) : result Digest :=
  match after_colon d with
  | Some _ => Ok d
  | None => Err (ErrPanic "no digest algorithm separator")
  end.

Definition read_file {K} `{Countable K} (files : gmap K bytes) (path : K) : result bytes :=
  match files !! path with
  | Some content => Ok content
  | None => Err (ErrExternal "no such file")
  end.

Definition of_option {A} (o : option A) (what : string) : result A :=
  match o with
  | Some a => Ok a
  | None => Err (ErrExternal what)
  end.

Section Load.
Context (E : Env).

(** The function [filepath.Walk] calls on each file under [refs/]: the
    descriptor in the file names the manifest blob, and the manifest is
    recorded under the name of the file. *)
Definition walk_ref (dir : OciDir) (manifests : gmap string Manifest) (name : string)
  : result (gmap string Manifest) :=
  content ← read_file (dir_refs dir) name;
  descriptor ← of_option (unmarshalDescriptor E content) "invalid descriptor";
  manifestPath ← blob_path (desc_Digest descriptor);
  content ← read_file (dir_blobs dir) manifestPath;
  man ← of_option (unmarshalManifest E content) "invalid manifest";
  Ok (<[name := man]> manifests).

(** [filepath.Walk] visits the files in lexical order. *)
Definition walk_order (dir : OciDir) : list string :=
  merge_sort String.le (map_to_list (dir_refs dir)).*1.

(** Modelled from the spec: [tarexporter.loadLayer], which opens the blob,
    decompresses it on the fly and streams it into the layer store as a new
    layer on top of [rootFS]. *)
Definition loadLayer (dir : OciDir) (ls : LayerStore) (layerPath : Digest) (rootFS : RootFS)
  : result Layer * LayerStore :=
  match read_file (dir_blobs dir) layerPath with
  | Err e => (Err e, ls)
  | Ok rawTar =>
      match decompress E rawTar with
      | Err e => (Err e, ls)
      | Ok inflatedLayerData => ls_Register E ls inflatedLayerData (rootfs_ChainID E rootFS)
      end
  end.

Definition set_ls (st : loadState) (ls : LayerStore) : loadState :=
  mkLoad (ld_is st) ls (ld_rs st) (ld_out st) (ld_events st) (ld_deferred st)
         (imageRefCount st) (imageIDsStr st).

Definition defer_release (st : loadState) (ly : Layer) : loadState :=
  mkLoad (ld_is st) (ld_ls st) (ld_rs st) (ld_out st) (ld_events st) (ld_deferred st ++ [ly])
         (imageRefCount st) (imageIDsStr st).

(** The layer of one turn of the loop over the diff IDs: the one the store
    holds for the chain of [rootFS] extended by [diffID], or else the one
    loaded from the blob at [layerPath]. *)
Definition hydrate (dir : OciDir) (st : loadState) (layerPath : Digest)
    (rootFS : RootFS) (diffID : DiffID) : result Layer * loadState :=
  match ls_Get (ld_ls st) (rootfs_ChainID E (rootfs_Append rootFS diffID)) with
  | Ok newLayer => (Ok newLayer, st)
  | Err _ =>
      let '(got, ls) := loadLayer dir (ld_ls st) layerPath rootFS in
      (got, set_ls st ls)
  end.

(** The loop of [loadOCI] over the diff IDs of the configuration, from index
    [i] on; [rootFS] is the local of that name, the layers checked so far. *)
Fixpoint loadLayers (dir : OciDir) (m : Manifest) (i : nat) (diffIDs : list DiffID)
    (rootFS : RootFS) (st : loadState) : result unit * loadState :=
  match diffIDs with
  | [] => (Ok tt, st)
  | diffID :: rest =>
      match Layers m !! i with
      | None => (Err (ErrPanic "index out of range"), st)
      | Some layer_desc =>
          match blob_path (desc_Digest layer_desc) with
          | Err e => (Err e, st)
          | Ok layerPath =>
              match hydrate dir st layerPath rootFS diffID with
              | (Err e, st) => (Err e, st)
              | (Ok newLayer, st) =>
                  let st := defer_release st newLayer in
                  if bool_decide (diffID = layer_DiffID newLayer)
                  then loadLayers dir m (S i) rest (rootfs_Append rootFS diffID) st
                  else (Err (ErrInvalidDiffID i diffID (layer_DiffID newLayer)), st)
              end
          end
      end
  end.

(** The start of the body of the loop over [manifests]: the configuration
    blob the manifest names, read and parsed. *)
Definition manifest_config (dir : OciDir) (m : Manifest) : result (bytes * Image) :=
  configPath ← blob_path (desc_Digest (Config m));
  config ← read_file (dir_blobs dir) configPath;
  img ← NewFromJSON E config;
  Ok (config, img).

(** The body of the loop of [loadOCI] over [manifests]. *)
Definition loadManifest (dir : OciDir) (entry : string * Manifest) (st : loadState)
  : result unit * loadState :=
  let '(ref, m) := entry in
  match manifest_config dir m with
  | Err e => (Err e, st)
  | Ok (config, img) =>
      let rootFS := mkRootFS (rootfs_Type (img_RootFS img)) [] in
      let expected := List.length (Layers m) in
      let actual := List.length (DiffIDs (img_RootFS img)) in
      if negb (expected =? actual) then (Err (ErrLayersLength expected actual), st)
      else
        match loadLayers dir m 0 (DiffIDs (img_RootFS img)) rootFS st with
        | (Err e, st) => (Err e, st)
        | (Ok _, st) =>
            match is_Create E (ld_is st) config with
            | (Err e, _) => (Err e, st)
            | (Ok imgID, istore) =>
                (Ok tt,
                 mkLoad istore (ld_ls st) (ld_rs st) (ld_out st)
                   (ld_events st ++ [(imgID, imgID, "load")]) (ld_deferred st)
                   0
                   (imageIDsStr st +:+ "Loaded image ID: " +:+ imgID +:+ newline))
            end
        end
  end.

(** [loadOCI]: the manifests are collected from [refs/], then loaded in the
    order [rng] enumerates the map, and the lines accumulated in
    [imageIDsStr] are written when [imageRefCount] is zero. *)
Definition loadOCI (rng : gmap string Manifest -> list (string * Manifest))
    (dir : OciDir) (st : loadState) : result unit * loadState :=
  match foldR (walk_ref dir) (walk_order dir) ∅ with
  | Err e => (Err e, st)
  | Ok manifests =>
      let st := mkLoad (ld_is st) (ld_ls st) (ld_rs st) (ld_out st) (ld_events st)
                  (ld_deferred st) 0 EmptyString in
      match foldS (loadManifest dir) (rng manifests) st with
      | (Err e, st) => (Err e, st)
      | (Ok _, st) =>
          if imageRefCount st =? 0 then
            (Ok tt,
             mkLoad (ld_is st) (ld_ls st) (ld_rs st) (ld_out st +:+ imageIDsStr st)
               (ld_events st) (ld_deferred st) (imageRefCount st) (imageIDsStr st))
          else (Ok tt, st)
      end
  end.

End Load.

(** ** A small concrete environment

    Stand-ins for the collaborators, simple enough to compute with: the
    digest of [b] is "sha256:" followed by [b] itself, gzip puts "gz:" in
    front, a configuration is "<comment>;<diffID>,<diffID>,...", and JSON
    documents are written field by field, each with its length in front.  The
    examples and the concrete instances of the theorems run on it. *)

Module Fixture.

Definition fx_digest (b : bytes) : Digest := "sha256:" +:+ b.

Definition fx_gzip (b : bytes) : bytes := "gz:" +:+ b.

(** Like [archive.DecompressStream], which passes an uncompressed stream
    through. *)
Definition fx_decompress (b : bytes) : result bytes :=
  match b with
  | String "g" (String "z" (String ":" rest)) => Ok rest
  | _ => Ok b
  end.

(** The text before and after the first occurrence of [sep]. *)
Fixpoint split_first (sep : ascii) (s : string) : option (string * string) :=
  match s with
  | EmptyString => None
  | String c rest =>
      if Ascii.eqb c sep then Some (EmptyString, rest)
      else match split_first sep rest with
           | Some (a, b) => Some (String c a, b)
           | None => None
           end
  end.

Fixpoint split_all (sep : ascii) (s : string) (cur : string) : list string :=
  match s with
  | EmptyString => [String.rev cur]
  | String c rest =>
      if Ascii.eqb c sep then String.rev cur :: split_all sep rest EmptyString
      else split_all sep rest (String c cur)
  end.

Definition fx_parseConfig (b : bytes) : option RootFS :=
  match split_first ";" b with
  | None => None
  | Some (_, layers) =>
      Some (mkRootFS "layers"
              (if String.eqb layers EmptyString then [] else split_all "," layers EmptyString))
  end.

(** *** Documents: length-prefixed fields over lists of characters *)

Definition enc_nat (n : nat) : list ascii := replicate n "1"%char ++ ["0"%char].

Fixpoint dec_nat (l : list ascii) : option (nat * list ascii) :=
  match l with
  | [] => None
  | c :: rest =>
      if Ascii.eqb c "0" then Some (0, rest)
      else if Ascii.eqb c "1" then
        match dec_nat rest with
        | Some (n, rest') => Some (S n, rest')
        | None => None
        end
      else None
  end.

Definition enc_str (s : string) : list ascii :=
  enc_nat (String.length s) ++ list_ascii_of_string s.

Definition dec_str (l : list ascii) : option (string * list ascii) :=
  match dec_nat l with
  | Some (n, rest) =>
      if n <=? List.length rest
      then Some (string_of_list_ascii (take n rest), drop n rest)
      else None
  | None => None
  end.

Definition enc_Z (z : Z) : list ascii :=
  (if (z <? 0)%Z then "-"%char else "+"%char) :: enc_nat (Z.abs_nat z).

Definition dec_Z (l : list ascii) : option (Z * list ascii) :=
  match l with
  | c :: rest =>
      match dec_nat rest with
      | Some (n, rest') =>
          if Ascii.eqb c "-" then Some ((- Z.of_nat n)%Z, rest')
          else if Ascii.eqb c "+" then Some (Z.of_nat n, rest')
          else None
      | None => None
      end
  | [] => None
  end.

Definition enc_desc (d : Descriptor) : list ascii :=
  enc_str (desc_MediaType d) ++ enc_str (desc_Digest d) ++ enc_Z (desc_Size d).

Definition dec_desc (l : list ascii) : option (Descriptor * list ascii) :=
  match dec_str l with
  | Some (mt, l1) =>
      match dec_str l1 with
      | Some (dg, l2) =>
          match dec_Z l2 with
          | Some (sz, l3) => Some (mkDescriptor mt dg sz, l3)
          | None => None
          end
      | None => None
      end
  | None => None
  end.

Fixpoint enc_descs (ds : list Descriptor) : list ascii :=
  match ds with
  | [] => []
  | d :: rest => enc_desc d ++ enc_descs rest
  end.

Fixpoint dec_descs (n : nat) (l : list ascii) : option (list Descriptor * list ascii) :=
  match n with
  | 0 => Some ([], l)
  | S n' =>
      match dec_desc l with
      | Some (d, l1) =>
          match dec_descs n' l1 with
          | Some (ds, l2) => Some (d :: ds, l2)
          | None => None
          end
      | None => None
      end
  end.

Definition enc_manifest (m : Manifest) : list ascii :=
  enc_Z (SchemaVersion m) ++ enc_str (MediaType m) ++ enc_desc (Config m)
  ++ enc_nat (List.length (Layers m)) ++ enc_descs (Layers m).

Definition dec_manifest (l : list ascii) : option (Manifest * list ascii) :=
  match dec_Z l with
  | Some (v, l1) =>
      match dec_str l1 with
      | Some (mt, l2) =>
          match dec_desc l2 with
          | Some (cfg, l3) =>
              match dec_nat l3 with
              | Some (n, l4) =>
                  match dec_descs n l4 with
                  | Some (ls, l5) => Some (mkManifest v mt cfg ls, l5)
                  | None => None
                  end
              | None => None
              end
          | None => None
          end
      | None => None
      end
  | None => None
  end.

Definition whole {A} (r : option (A * list ascii)) : option A :=
  match r with
  | Some (a, []) => Some a
  | _ => None
  end.

Definition fx_marshalManifest (m : Manifest) : bytes := string_of_list_ascii (enc_manifest m).
Definition fx_unmarshalManifest (b : bytes) : option Manifest :=
  whole (dec_manifest (list_ascii_of_string b)).
Definition fx_marshalDescriptor (d : Descriptor) : bytes := string_of_list_ascii (enc_desc d).
Definition fx_unmarshalDescriptor (b : bytes) : option Descriptor :=
  whole (dec_desc (list_ascii_of_string b)).

(** *** References: the grammar [name[:tag|@digest]] *)

Definition fx_ParseNamed (s : string) : result Named :=
  match split_first "@" s with
  | Some (n, d) =>
      if String.eqb n EmptyString then Err (ErrExternal "invalid reference format")
      else Ok (Canonical n d)
  | None =>
      match split_first ":" s with
      | Some (n, t) =>
          if String.eqb n EmptyString || String.eqb t EmptyString
          then Err (ErrExternal "invalid reference format")
          else Ok (Tagged (mkTagged n t))
      | None =>
          if String.eqb s EmptyString then Err (ErrExternal "invalid reference format")
          else Ok (NameOnly s)
      end
  end.

Definition is_hex (c : ascii) : bool :=
  let n := nat_of_ascii c in
  ((48 <=? n) && (n <=? 57)) || ((97 <=? n) && (n <=? 102)).

(** A digest, or 64 hex digits, is an image ID; anything else is parsed as a
    reference. *)
Definition fx_ParseIDOrReference (s : string) : result (ID + Named) :=
  if String.prefix "sha256:" s then Ok (inl s)
  else if (String.length s =? 64) && forallb is_hex (list_ascii_of_string s)
  then Ok (inl ("sha256:" +:+ s))
  else r ← fx_ParseNamed s; Ok (inr r).

(** The tag grammar [[\w][\w.-]{0,127}]. *)
Definition word_char (c : ascii) : bool :=
  let n := nat_of_ascii c in
  ((65 <=? n) && (n <=? 90)) || ((97 <=? n) && (n <=? 122)) || ((48 <=? n) && (n <=? 57))
  || (n =? 95).

Definition fx_validTag (t : string) : bool :=
  match t with
  | EmptyString => false
  | String c rest =>
      word_char c && forallb oci_ref_char (list_ascii_of_string rest)
      && (String.length rest <=? 127)
  end.

(** The one image whose ID has [term] as a prefix of its hex. *)
Definition fx_Search (istore : gmap ID bytes) (term : string) : result ID :=
  match List.filter (fun id => String.prefix ("sha256:" +:+ term) id) (map_to_list istore).*1 with
  | [id] => Ok id
  | _ => Err (ErrExternal ("No such image: " +:+ term))
  end.

Definition env : Env := {|
  digestFromBytes := fx_digest;
  gzip := fx_gzip;
  decompress := fx_decompress;
  parseConfig := fx_parseConfig;
  marshalManifest := fx_marshalManifest;
  unmarshalManifest := fx_unmarshalManifest;
  marshalDescriptor := fx_marshalDescriptor;
  unmarshalDescriptor := fx_unmarshalDescriptor;
  ParseNamed := fx_ParseNamed;
  ParseIDOrReference := fx_ParseIDOrReference;
  validTag := fx_validTag;
  is_Search := fx_Search
|}.

(** *** Stores: [busybox] with one layer, [frombusybox0] with a second layer
    on top of it, and an image with no layer *)

Definition tarA : bytes := "tar-A".
Definition tarB : bytes := "tar-B".
Definition diffA : DiffID := fx_digest tarA.
Definition diffB : DiffID := fx_digest tarB.

Definition cfg_busybox : bytes := "busybox;" +:+ diffA.
Definition cfg_frombusybox0 : bytes := "frombusybox0;" +:+ diffA +:+ "," +:+ diffB.
Definition cfg_empty : bytes := "scratch;".

Definition id_busybox : ID := fx_digest cfg_busybox.
Definition id_frombusybox0 : ID := fx_digest cfg_frombusybox0.
Definition id_empty : ID := fx_digest cfg_empty.

Definition fx_is : gmap ID bytes :=
  <[id_busybox := cfg_busybox]> (<[id_frombusybox0 := cfg_frombusybox0]>
    (<[id_empty := cfg_empty]> ∅)).

Definition fx_ls : gmap ChainID Layer :=
  <[CreateChainID env [diffA] := mkLayer diffA tarA]>
    (<[CreateChainID env [diffA; diffB] := mkLayer diffB tarB]> ∅).

Definition ref_busybox : NamedTagged := mkTagged "busybox" "latest".
Definition ref_frombusybox0 : NamedTagged := mkTagged "frombusybox0" "latest".
Definition ref_busybox_1204 : NamedTagged := mkTagged "busybox" "12.04".

Definition ref_frombusybox1 : NamedTagged := mkTagged "frombusybox1" "latest".

Definition fx_rs : list Association :=
  [mkAssoc (Tagged ref_busybox) id_busybox;
   mkAssoc (Tagged ref_frombusybox0) id_frombusybox0;
   mkAssoc (Tagged ref_busybox_1204) id_busybox;
   mkAssoc (Tagged ref_frombusybox1) id_frombusybox0].

Definition exporter (overrides : gmap string string) : tarexporter :=
  {| l_is := fx_is; l_ls := fx_ls; l_rs := fx_rs; l_refs := overrides |}.

(** Two ways the runtime may enumerate a map. *)
Definition rng_fwd {K} `{Countable K} {V} (m : gmap K V) : list (K * V) := map_to_list m.
Definition rng_rev {K} `{Countable K} {V} (m : gmap K V) : list (K * V) := reverse (map_to_list m).

Definition fresh_load (istore : gmap ID bytes) (ls : gmap ChainID Layer) : loadState :=
  mkLoad istore ls [] EmptyString [] [] 0 EmptyString.

(** The archive of [busybox] saved under [busybox:latest]. *)
Definition saved_busybox : OciDir :=
  (save env rng_fwd (exporter ∅) {[ id_busybox := mkDescr [ref_busybox] ]}).2.(tempDir).

(** An archive whose manifest names the blob of layer B where the
    configuration declares the diff ID of layer A. *)
Definition bad_manifest : Manifest :=
  mkManifest 2 MediaTypeImageManifest
    (mkDescriptor MediaTypeImageConfig id_busybox (size_of cfg_busybox))
    [mkDescriptor MediaTypeImageLayer (fx_digest (fx_gzip tarB)) (size_of (fx_gzip tarB))].

Definition bad_dir : OciDir :=
  mkDir (Some (oci_layout_marker))
    {[ "latest" := fx_marshalDescriptor
         (mkDescriptor MediaTypeImageManifest (fx_digest (fx_marshalManifest bad_manifest))
            (size_of (fx_marshalManifest bad_manifest))) ]}
    (<[id_busybox := cfg_busybox]>
       (<[fx_digest (fx_gzip tarB) := fx_gzip tarB]>
          {[ fx_digest (fx_marshalManifest bad_manifest) := fx_marshalManifest bad_manifest ]})).

(** Two images, each under a tag of its own. *)
Definition ref_frombusybox0_fb0 : NamedTagged := mkTagged "frombusybox0" "fb0".

Definition two_images : gmap ID imageDescriptor :=
  <[id_busybox := mkDescr [ref_busybox]]>
    (<[id_frombusybox0 := mkDescr [ref_frombusybox0_fb0]]> ∅).

(** Overrides: one that names an image by digest, one with a tag outside the
    class, one that is fine. *)
Definition ov_digest : gmap string string :=
  {[ "busybox@sha256:0123" := "invalid:reference" ]}.
Definition ov_invalid : gmap string string := {[ "busybox" := "invalid:reference" ]}.
Definition ov_valid : gmap string string := {[ "frombusybox0" := "frombusybox0-latest" ]}.

(** [busybox] under two tags and [frombusybox0], which shares its first
    layer. *)
Definition shared_images : gmap ID imageDescriptor :=
  <[id_busybox := mkDescr [ref_busybox; ref_busybox_1204]]>
    (<[id_frombusybox0 := mkDescr [ref_frombusybox0_fb0]]> ∅).

End Fixture.

(** * Properties *)

(** ** Loops *)

Lemma foldS_app {A S} (f : A -> S -> result unit * S) (xs ys : list A) (s : S) :
  foldS f (xs ++ ys) s =
  match foldS f xs s with
  | (Ok _, s') => foldS f ys s'
  | (Err e, s') => (Err e, s')
  end.
Proof.
  revert s. induction xs as [|x xs IH]; intros s; simpl; [done|].
  destruct (f x s) as [[[]|e] s']; [apply IH|done].
Qed.

(** A property of the state that every turn keeps, failing or not, holds
    when the loop is left. *)
Lemma foldS_invariant {A S} (P : S -> Prop) (f : A -> S -> result unit * S) (xs : list A) :
  (forall x s, x ∈ xs -> P s -> P (f x s).2) ->
  forall s, P s -> P (foldS f xs s).2.
Proof.
  induction xs as [|x xs IH]; intros Hf s Hs; simpl; [done|].
  assert (Hx : P (f x s).2) by (apply Hf; [left|done]).
  destruct (f x s) as [[[]|e] s']; simpl in *; [|done].
  apply IH; [|done]. intros y t Hy. apply Hf. by right.
Qed.

(** A loop fails as soon as it meets a turn that fails in every state. *)
Lemma foldS_fails {A S} (f : A -> S -> result unit * S) (xs : list A) (x : A) (s : S) :
  x ∈ xs -> (forall t, is_ok (f x t).1 = false) -> is_ok (foldS f xs s).1 = false.
Proof.
  intros Hx Hbad. revert s. induction xs as [|y xs IH]; intros s; [by apply elem_of_nil in Hx|].
  simpl. apply elem_of_cons in Hx as [->|Hx].
  - specialize (Hbad s). by destruct (f y s) as [[[]|e] s'].
  - destruct (f y s) as [[[]|e] s']; [by apply IH|done].
Qed.

(** ** The [docker load] command *)

Section LoadCLI_facts.
Import LoadCLI.


(** The request is sent unless both [--input] and [--direct] are given or
    the input file cannot be opened. *)
Lemma loadRequest_sent (cli : DockerCli) (opts : loadOptions) :
  nonempty (direct opts) && nonempty (input opts) = false ->
  (nonempty (input opts) = true -> os_Open cli (input opts) = Ok tt) ->
  is_ok (loadRequest cli opts) = true.
Proof.
  intros Hc Hopen. unfold loadRequest. rewrite Hc.
  destruct (nonempty (input opts)); simpl; [|done].
  by rewrite Hopen.
Qed.





End LoadCLI_facts.

(** ** The OCI load session *)

Section Load_facts.
Context (E : Env).

(** What the layer loop leaves alone: everything but the layer store and the
    deferred releases. *)
Definition same_but_layers (st st' : loadState) : Prop :=
  ld_is st' = ld_is st /\ ld_rs st' = ld_rs st /\ ld_out st' = ld_out st
  /\ ld_events st' = ld_events st /\ imageRefCount st' = imageRefCount st
  /\ imageIDsStr st' = imageIDsStr st.

Lemma same_but_layers_refl st : same_but_layers st st.
Proof. by repeat split. Qed.

Lemma same_but_layers_trans st1 st2 st3 :
  same_but_layers st1 st2 -> same_but_layers st2 st3 -> same_but_layers st1 st3.
Proof.
  intros (?&?&?&?&?&?) (?&?&?&?&?&?). repeat split; congruence.
Qed.

Lemma hydrate_frame dir st layerPath rootFS diffID :
  same_but_layers st (hydrate E dir st layerPath rootFS diffID).2
  /\ ld_deferred (hydrate E dir st layerPath rootFS diffID).2 = ld_deferred st.
Proof.
  unfold hydrate. destruct (ls_Get _ _); simpl.
  - split; [apply same_but_layers_refl|done].
  - destruct (loadLayer _ _ _ _ _) as [got ls]. simpl. by repeat split.
Qed.

(** The layer loop changes the layer store and the deferred releases only;
    it defers the release of one layer per turn it gets through, and when the
    layer obtained at some turn has another DiffID than the configuration
    declares, the loop ends there with the matching error. *)
Lemma loadLayers_spec dir m diffIDs :
  forall i rootFS st,
  let out := loadLayers E dir m i diffIDs rootFS st in
  same_but_layers st out.2
  /\ exists hyd,
       ld_deferred out.2 = ld_deferred st ++ hyd
       /\ (is_ok out.1 = true -> Forall2 (fun d ly => d = layer_DiffID ly) diffIDs hyd)
       /\ (forall k d ly, diffIDs !! k = Some d -> hyd !! k = Some ly -> d <> layer_DiffID ly ->
             out.1 = Err (ErrInvalidDiffID (i + k) d (layer_DiffID ly))).
Proof.
  induction diffIDs as [|diffID rest IH]; intros i rootFS st out.
  - subst out. simpl. split; [apply same_but_layers_refl|].
    exists []. rewrite app_nil_r. split; [done|]. split; [constructor|]. by intros k d ly [=].
  - subst out. simpl.
    assert (Hnone : forall e,
      same_but_layers st (@Err unit e, st).2 /\
      exists hyd, ld_deferred (@Err unit e, st).2 = ld_deferred st ++ hyd
        /\ (is_ok (@Err unit e, st).1 = true ->
            Forall2 (fun d ly => d = layer_DiffID ly) (diffID :: rest) hyd)
        /\ (forall k d ly, (diffID :: rest) !! k = Some d -> hyd !! k = Some ly ->
              d <> layer_DiffID ly ->
              (@Err unit e, st).1 = Err (ErrInvalidDiffID (i + k) d (layer_DiffID ly)))).
    { intros e. split; [apply same_but_layers_refl|]. exists []. rewrite app_nil_r.
      split; [done|]. split; [done|]. by intros k d ly _ [=]. }
    destruct (Layers m !! i) as [layer_desc|]; [|apply Hnone].
    destruct (blob_path _) as [layerPath|e]; [|apply Hnone].
    pose proof (hydrate_frame dir st layerPath rootFS diffID) as [Hfr Hdef].
    destruct (hydrate E dir st layerPath rootFS diffID) as [[newLayer|e] st1]; simpl in Hfr, Hdef.
    + cbv zeta. case_bool_decide as Heq.
      * specialize (IH (S i) (rootfs_Append rootFS diffID) (defer_release st1 newLayer)).
        cbv zeta in IH. destruct IH as (Hfr2 & hyd & Hd & Hok & Hbad).
        split.
        { eapply same_but_layers_trans; [|exact Hfr2].
          destruct Hfr as (?&?&?&?&?&?). by repeat split. }
        exists (newLayer :: hyd). split.
        { rewrite Hd. simpl. rewrite Hdef. by rewrite <- app_assoc. }
        split.
        { intros H. constructor; [done|]. by apply Hok. }
        intros [|k] d ly Hk Hh Hne; simpl in Hk, Hh.
        -- congruence.
        -- rewrite (Hbad k d ly Hk Hh Hne). do 2 f_equal. lia.
      * simpl. split.
        { destruct Hfr as (?&?&?&?&?&?). by repeat split. }
        exists [newLayer]. split; [by rewrite Hdef|]. split; [done|].
        intros [|k] d ly Hk Hh Hne; simpl in Hk, Hh; [|by destruct k].
        injection Hk as <-. injection Hh as <-. do 2 f_equal. lia.
    + simpl. split; [done|]. exists []. rewrite app_nil_r. split; [done|].
      split; [done|]. by intros k d ly _ [=].
Qed.

(** A manifest that fails leaves the image store, the reference store and
    the output as they were. *)
Lemma loadManifest_failure dir entry st e st' :
  loadManifest E dir entry st = (Err e, st') ->
  ld_is st' = ld_is st /\ ld_rs st' = ld_rs st /\ ld_out st' = ld_out st
  /\ imageIDsStr st' = imageIDsStr st.
Proof.
  destruct entry as [ref m]. unfold loadManifest.
  destruct (manifest_config E dir m) as [[config img]|e0]; [|by intros [= <- <-]].
  destruct (negb _); [by intros [= <- <-]|].
  pose proof (loadLayers_spec dir m (DiffIDs (img_RootFS img)) 0
                (mkRootFS (rootfs_Type (img_RootFS img)) []) st) as [Hfr _].
  cbv zeta in Hfr.
  destruct (loadLayers E dir m 0 _ _ st) as [[[]|e1] st1]; simpl in Hfr.
  - destruct (is_Create E (ld_is st1) config) as [[imgID|e2] istore]; [done|].
    intros [= <- <-]. destruct Hfr as (?&?&?&?&?&?). done.
  - intros [= <- <-]. destruct Hfr as (?&?&?&?&?&?). done.
Qed.

Lemma loadManifest_rs dir entry st :
  ld_rs (loadManifest E dir entry st).2 = ld_rs st.
Proof.
  destruct (loadManifest E dir entry st) as [[[]|e] st'] eqn:Hl; simpl.
  - destruct entry as [ref m]. unfold loadManifest in Hl.
    destruct (manifest_config E dir m) as [[config img]|e0]; [|done].
    destruct (negb _); [done|].
    pose proof (loadLayers_spec dir m (DiffIDs (img_RootFS img)) 0
                  (mkRootFS (rootfs_Type (img_RootFS img)) []) st) as [Hfr _].
    cbv zeta in Hfr.
    destruct (loadLayers E dir m 0 _ _ st) as [[[]|e1] st1]; simpl in Hfr; [|done].
    destruct (is_Create E (ld_is st1) config) as [[imgID|e2] istore]; [|done].
    injection Hl as <-. simpl. by destruct Hfr as (?&?&?&?&?&?).
  - by apply loadManifest_failure in Hl as (?&?&?&?).
Qed.

(** C1 (what the code does).  [loadOCI] never touches the reference store:
    whatever the archive holds under [refs/], the store is after the load
    what it was before, so no name is bound to the images loaded. *)
Theorem loadOCI_binds_no_reference
    (rng : gmap string Manifest -> list (string * Manifest)) (dir : OciDir) (st : loadState) :
  ld_rs (loadOCI E rng dir st).2 = ld_rs st.
Proof.
  unfold loadOCI. destruct (foldR (walk_ref E dir) (walk_order dir) ∅) as [manifests|e]; [|done].
  set (st0 := mkLoad _ _ _ _ _ _ _ _).
  pose proof (foldS_invariant (fun s => ld_rs s = ld_rs st) (loadManifest E dir)
                (rng manifests)) as Hinv.
  specialize (Hinv (fun x s _ Hs => eq_trans (loadManifest_rs dir x s) Hs) st0 eq_refl).
  destruct (foldS (loadManifest E dir) (rng manifests) st0) as [[[]|e] st1]; simpl in *; [|done].
  by destruct (imageRefCount st1 =? 0).
Qed.

End Load_facts.

Section Load_checks.
Context (E : Env).

(** C4.  For a manifest whose configuration blob is read and parsed: when
    the number of layers differs from the number of diff IDs the manifest
    fails at once and nothing changes; when the layer obtained for some index
    (the [k]-th layer whose release the manifest deferred) has another DiffID
    than the configuration declares there, the manifest fails with the error
    naming that index and both DiffIDs; a manifest that fails, for whatever
    reason, leaves the image store as it was; and the session returns the
    error of the first manifest that fails, with the images of the earlier
    manifests only. *)
Theorem loadOCI_rejects_layer_mismatch (dir : OciDir) (name : string) (m : Manifest)
    (st : loadState) (config : bytes) (img : Image) :
  manifest_config E dir m = Ok (config, img) ->
  let out := loadManifest E dir (name, m) st in
  let diffIDs := DiffIDs (img_RootFS img) in
  (List.length (Layers m) <> List.length diffIDs ->
     out = (Err (ErrLayersLength (List.length (Layers m)) (List.length diffIDs)), st))
  /\ (forall k d ly,
        diffIDs !! k = Some d ->
        drop (List.length (ld_deferred st)) (ld_deferred out.2) !! k = Some ly ->
        d <> layer_DiffID ly ->
        out.1 = Err (ErrInvalidDiffID k d (layer_DiffID ly)))
  /\ (is_ok out.1 = false -> ld_is out.2 = ld_is st)
  /\ (forall rng st0 manifests pre post,
        foldR (walk_ref E dir) (walk_order dir) ∅ = Ok manifests ->
        rng manifests = pre ++ (name, m) :: post ->
        foldS (loadManifest E dir) pre
          (mkLoad (ld_is st0) (ld_ls st0) (ld_rs st0) (ld_out st0) (ld_events st0)
             (ld_deferred st0) 0 EmptyString) = (Ok tt, st) ->
        is_ok out.1 = false ->
        loadOCI E rng dir st0 = out).
Proof.
  intros Hcfg out diffIDs.
  assert (Hsession : forall rng st0 manifests pre post,
        foldR (walk_ref E dir) (walk_order dir) ∅ = Ok manifests ->
        rng manifests = pre ++ (name, m) :: post ->
        foldS (loadManifest E dir) pre
          (mkLoad (ld_is st0) (ld_ls st0) (ld_rs st0) (ld_out st0) (ld_events st0)
             (ld_deferred st0) 0 EmptyString) = (Ok tt, st) ->
        is_ok out.1 = false ->
        loadOCI E rng dir st0 = out).
  { intros rng st0 manifests pre post Hwalk Hrng Hpre Hfail.
    unfold loadOCI. rewrite Hwalk, Hrng, foldS_app, Hpre. cbn [foldS]. fold out.
    by destruct out as [[[]|e] st2]. }
  revert Hsession. subst out. unfold loadManifest. rewrite Hcfg. fold diffIDs.
  intros Hsession.
  pose proof (loadLayers_spec E dir m diffIDs 0
                (mkRootFS (rootfs_Type (img_RootFS img)) []) st) as Hspec.
  cbv zeta in Hspec. destruct Hspec as (Hfr & hyd & Hdef & _ & Hbad).
  split; [|split; [|split; [|exact Hsession]]]; clear Hsession.
  - intros Hne. apply Nat.eqb_neq in Hne. by rewrite Hne.
  - intros k d ly Hk Hh Hne.
    destruct (negb _); [by rewrite drop_all in Hh|].
    destruct (loadLayers E dir m 0 diffIDs _ st) as [[[]|e1] st1] eqn:Hl; simpl in *.
    + specialize (Hbad k d ly Hk). 
      destruct (is_Create E (ld_is st1) config) as [[imgID|e2] istore]; simpl in *.
      * rewrite Hdef, drop_app_length in Hh. by specialize (Hbad Hh Hne).
      * rewrite Hdef, drop_app_length in Hh. by specialize (Hbad Hh Hne).
    + rewrite Hdef, drop_app_length in Hh. exact (Hbad k d ly Hk Hh Hne).
  - destruct (negb _); [done|].
    destruct (loadLayers E dir m 0 diffIDs _ st) as [[[]|e1] st1]; simpl in *.
    + destruct (is_Create E (ld_is st1) config) as [[imgID|e2] istore]; simpl; [done|].
      intros _. by destruct Hfr as (?&?&?&?&?&?).
    + intros _. by destruct Hfr as (?&?&?&?&?&?).
Qed.

End Load_checks.

Section Load_examples.
Import Fixture.

(** An archive whose only layer blob is not the layer its configuration
    declares is refused at index 0, and no image is created. *)
Lemma loadOCI_rejects_swapped_layer :
  manifest_config env bad_dir bad_manifest
    = Ok (cfg_busybox, mkImage (mkRootFS "layers" [diffA]) cfg_busybox)
  /\ (loadManifest env bad_dir ("latest", bad_manifest) (fresh_load ∅ ∅)).1
       = Err (ErrInvalidDiffID 0 diffA diffB)
  /\ ld_is (loadManifest env bad_dir ("latest", bad_manifest) (fresh_load ∅ ∅)).2 = ∅
  /\ loadOCI env rng_fwd bad_dir (fresh_load ∅ ∅)
       = loadManifest env bad_dir ("latest", bad_manifest) (fresh_load ∅ ∅).
Proof.
  assert (Hcfg : manifest_config env bad_dir bad_manifest
                 = Ok (cfg_busybox, mkImage (mkRootFS "layers" [diffA]) cfg_busybox))
    by (vm_compute; reflexivity).
  pose proof (loadOCI_rejects_layer_mismatch env bad_dir "latest" bad_manifest
                (fresh_load ∅ ∅) _ _ Hcfg) as (_ & Hbad & Hkeep & Hsession).
  assert (Hfail : (loadManifest env bad_dir ("latest", bad_manifest) (fresh_load ∅ ∅)).1
                  = Err (ErrInvalidDiffID 0 diffA diffB)).
  { apply (Hbad 0 diffA (mkLayer diffB tarB)); [reflexivity|vm_compute; reflexivity|].
    vm_compute. discriminate. }
  split; [exact Hcfg|]. split; [exact Hfail|]. split.
  - rewrite Hkeep; [reflexivity|]. by rewrite Hfail.
  - apply (Hsession rng_fwd (fresh_load ∅ ∅) {[ "latest" := bad_manifest ]} [] []).
    + vm_compute. reflexivity.
    + vm_compute. reflexivity.
    + reflexivity.
    + by rewrite Hfail.
Defined.

(** C5 (what the code does).  Loading the archive of an image saved under
    the reference [busybox:latest] writes the line [Loaded image ID: <id>]
    and no line [Loaded image: busybox:latest]: [imageRefCount] is never
    incremented and the name under [refs/] is never read. *)
Theorem loadOCI_prints_image_id_for_named_image :
  (map_to_list (dir_refs saved_busybox)).*1 = ["latest"]
  /\ (loadOCI env rng_fwd saved_busybox (fresh_load ∅ ∅)).1 = Ok tt
  /\ ld_out (loadOCI env rng_fwd saved_busybox (fresh_load ∅ ∅)).2
       = "Loaded image ID: " +:+ id_busybox +:+ newline
  /\ ld_rs (loadOCI env rng_fwd saved_busybox (fresh_load ∅ ∅)).2 = [].
Proof. repeat split; vm_compute; reflexivity. Qed.

End Load_examples.

(** ** The OCI save session: which sessions succeed, and what they emit *)

(** The references of the [PutManifest] calls, in the order they were made:
    the order in which the files under [refs/] were written. *)
Definition manifest_dests (cs : list DestCall) : list string :=
  omap (fun c => match c with CallPutManifest d _ => Some d | CallPutBlob _ _ => None end) cs.

(** The contents of the [PutBlob] calls, in the order they were made. *)
Definition blob_contents (cs : list DestCall) : list bytes :=
  omap (fun c => match c with CallPutBlob _ b => Some b | CallPutManifest _ _ => None end) cs.

(** The names under [refs/] an entry of [s.images] is saved under: the tags
    of its references, or the hex of the image ID when it has none. *)
Definition entry_dests (entry : ID * imageDescriptor) : result (list string) :=
  if List.length (refs entry.2) =? 0
  then hex ← digest_Hex entry.1; Ok [hex]
  else Ok (nt_tag <$> refs entry.2).

Section Save_success.
Context (E : Env) (l : tarexporter).

(** The layers of the first [i+1] diff IDs are in the layer store, for the
    indices [idxs]. *)
Definition layers_available (diffIDs : list DiffID) (idxs : list nat) : bool :=
  forallb (fun i => bool_decide (is_Some (l_ls l !! CreateChainID E (take (S i) diffIDs)))) idxs.

(** The image can be exported: it is in the image store, has a layer, and
    all its layers are in the layer store. *)
Definition image_exportable (id : ID) : bool :=
  match is_Get E (l_is l) id with
  | Ok img =>
      let diffIDs := DiffIDs (img_RootFS img) in
      negb (List.length diffIDs =? 0) && layers_available diffIDs (seq 0 (List.length diffIDs))
  | Err _ => false
  end.

Definition entry_exportable (entry : ID * imageDescriptor) : bool :=
  match entry_dests entry with
  | Ok names => forallb (fun n => ociRefRegexp_MatchString n && image_exportable entry.1) names
  | Err _ => false
  end.

(** Only images that can be exported are in the manifest cache. *)
Definition saved_exportable (s : ociSaveSession) : Prop :=
  forall id, is_Some (savedImages s !! id) -> image_exportable id = true.

Lemma manifest_dests_app cs1 cs2 :
  manifest_dests (cs1 ++ cs2) = manifest_dests cs1 ++ manifest_dests cs2.
Proof. apply omap_app. Qed.

Lemma blob_contents_app cs1 cs2 :
  blob_contents (cs1 ++ cs2) = blob_contents cs1 ++ blob_contents cs2.
Proof. apply omap_app. Qed.

(** The three ways a turn of the layer loop goes. *)
Lemma saveLayer_step dest diffIDs i ms :
  match l_ls l !! CreateChainID E (take (S i) diffIDs) with
  | None => exists e, saveLayer E l dest diffIDs i ms = (Err e, ms)
  | Some ly =>
      match diffIDsCache ms.2 !! layer_DiffID ly with
      | Some info =>
          saveLayer E l dest diffIDs i ms =
          (Ok tt,
           (append_layer ms.1 (mkDescriptor MediaTypeImageLayer (li_digest info) (li_size info)),
            ms.2))
      | None =>
          saveLayer E l dest diffIDs i ms =
          (Ok tt,
           (append_layer ms.1
              (mkDescriptor MediaTypeImageLayer (digestFromBytes E (gzip E (layer_tar ly)))
                 (size_of (gzip E (layer_tar ly)))),
            cache_layer (PutBlob E dest (gzip E (layer_tar ly)) ms.2).2 (layer_DiffID ly)
              (mkLayerInfo (digestFromBytes E (gzip E (layer_tar ly)))
                 (size_of (gzip E (layer_tar ly))))))
      end
  end.
Proof.
  unfold saveLayer, ls_Get.
  destruct (l_ls l !! CreateChainID E (take (S i) diffIDs)) as [ly|]; [|eauto].
  by destruct (diffIDsCache ms.2 !! layer_DiffID ly).
Qed.

Lemma saveLayers_ok dest diffIDs idxs :
  forall ms,
  let out := foldS (saveLayer E l dest diffIDs) idxs ms in
  is_ok out.1 = layers_available diffIDs idxs
  /\ savedImages out.2.2 = savedImages ms.2
  /\ manifest_dests (calls out.2.2) = manifest_dests (calls ms.2).
Proof.
  induction idxs as [|i idxs IH]; intros ms out; subst out; [done|].
  cbn [foldS layers_available forallb].
  pose proof (saveLayer_step dest diffIDs i ms) as Hstep.
  destruct (l_ls l !! CreateChainID E (take (S i) diffIDs)) as [ly|] eqn:Hly.
  - rewrite bool_decide_eq_true_2 by eauto. simpl andb.
    destruct (diffIDsCache ms.2 !! layer_DiffID ly) as [info|]; rewrite Hstep.
    + match goal with |- context [foldS _ idxs ?x] => exact (IH x) end.
    + match goal with |- context [foldS _ idxs ?x] => destruct (IH x) as (H1 & H2 & H3) end.
      split; [exact H1|]. split; [by rewrite H2|].
      rewrite H3. simpl. rewrite manifest_dests_app. simpl. apply app_nil_r.
  - destruct Hstep as [e ->].
    rewrite bool_decide_eq_false_2 by (intros [? ?]; congruence). done.
Qed.

Lemma saveImage_ok id dest s :
  saved_exportable s ->
  let out := saveImage E l id dest s in
  is_ok out.1 = image_exportable id
  /\ saved_exportable out.2
  /\ (is_ok out.1 = true ->
      is_Some (savedImages out.2 !! id)
      /\ manifest_dests (calls out.2) = manifest_dests (calls s) ++ [dest]).
Proof.
  intros Hinv out. subst out. unfold saveImage.
  destruct (savedImages s !! id) as [m|] eqn:Hsaved.
  - simpl. split; [symmetry; apply Hinv; eauto|]. split; [exact Hinv|].
    intros _. split; [eauto|]. by rewrite manifest_dests_app.
  - unfold image_exportable. destruct (is_Get E (l_is l) id) as [img|e] eqn:Hget; [|done].
    cbv zeta. destruct (List.length (DiffIDs (img_RootFS img)) =? 0) eqn:Hlen; [done|].
    simpl negb. simpl andb.
    pose proof (saveLayers_ok dest (DiffIDs (img_RootFS img))
                  (seq 0 (List.length (DiffIDs (img_RootFS img))))
                  (manifest_of_config (PutBlob E dest (RawJSON img) s).1.1
                     (PutBlob E dest (RawJSON img) s).1.2,
                   (PutBlob E dest (RawJSON img) s).2)) as (Hok & Hsv & Hmd).
    cbv zeta in Hok, Hsv, Hmd.
    destruct (foldS _ _ _) as [[[]|e] ms]; simpl in Hok, Hsv, Hmd |- *.
    + split; [done|]. split.
      * intros id' [m' Hm']. destruct (decide (id' = id)) as [->|Hne].
        -- unfold image_exportable. rewrite Hget. cbv zeta. rewrite Hlen. by rewrite <- Hok.
        -- simpl in Hm'. rewrite lookup_insert_ne in Hm' by done.
           apply Hinv. rewrite <- Hsv. eauto.
      * intros _. simpl. split; [rewrite lookup_insert_eq; eauto|].
        rewrite manifest_dests_app, Hmd, manifest_dests_app. simpl. by rewrite app_nil_r.
    + split; [done|]. split; [|done].
      intros id' Hid'. apply Hinv. by rewrite <- Hsv.
Qed.

Lemma save_ref_ok id n s :
  saved_exportable s ->
  let out := save_ref E l id n s in
  is_ok out.1 = ociRefRegexp_MatchString n && image_exportable id
  /\ saved_exportable out.2
  /\ (is_ok out.1 = true ->
      is_Some (savedImages out.2 !! id)
      /\ manifest_dests (calls out.2) = manifest_dests (calls s) ++ [n]).
Proof.
  intros Hinv. unfold save_ref, oci_NewReference.
  destruct (ociRefRegexp_MatchString n); [|done]. by apply saveImage_ok.
Qed.

Lemma save_refs_ok id names :
  forall s, saved_exportable s ->
  let out := foldS (save_ref E l id) names s in
  is_ok out.1 = forallb (fun n => ociRefRegexp_MatchString n && image_exportable id) names
  /\ saved_exportable out.2
  /\ (is_ok out.1 = true -> manifest_dests (calls out.2) = manifest_dests (calls s) ++ names).
Proof.
  induction names as [|n names IH]; intros s Hinv out; subst out.
  - simpl. split; [done|]. split; [done|]. by rewrite app_nil_r.
  - cbn [foldS forallb].
    pose proof (save_ref_ok id n s Hinv) as (Hok & Hinv' & Hd). cbv zeta in Hok, Hinv', Hd.
    destruct (save_ref E l id n s) as [[[]|e] s1]; simpl in Hok, Hinv', Hd |- *.
    + rewrite <- Hok. simpl andb. destruct (IH s1 Hinv') as (IH1 & IH2 & IH3).
      split; [exact IH1|]. split; [exact IH2|].
      intros H. rewrite (IH3 H). destruct (Hd eq_refl) as [_ ->]. by rewrite <- app_assoc.
    + by rewrite <- Hok.
Qed.

Lemma foldS_fmap {A B S} (g : A -> B) (f : B -> S -> result unit * S) (xs : list A) (s : S) :
  foldS (fun x => f (g x)) xs s = foldS f (g <$> xs) s.
Proof.
  revert s. induction xs as [|x xs IH]; intros s; [done|].
  simpl. destruct (f (g x) s) as [[[]|e] s']; [apply IH|done].
Qed.

Lemma save_entry_ok entry s :
  saved_exportable s ->
  let out := save_entry E l entry s in
  is_ok out.1 = entry_exportable entry
  /\ saved_exportable out.2
  /\ (is_ok out.1 = true ->
      manifest_dests (calls out.2) = manifest_dests (calls s) ++ default [] (
        match entry_dests entry with Ok names => Some names | Err _ => None end)).
Proof.
  intros Hinv out. subst out. destruct entry as [id info].
  unfold save_entry, entry_exportable, entry_dests. simpl fst. simpl snd.
  rewrite (foldS_fmap nt_tag (save_ref E l id)).
  destruct (refs info) as [|r rs] eqn:Hrefs.
  - simpl. destruct (digest_Hex id) as [hex|e]; [|done]. simpl.
    pose proof (save_refs_ok id [hex] s Hinv) as H. cbv zeta in H. simpl in H.
    destruct (save_ref E l id hex s) as [[[]|e] s1]; simpl in H |- *; exact H.
  - pose proof (save_refs_ok id (nt_tag <$> (r :: rs)) s Hinv) as H. cbv zeta in H.
    destruct (foldS (save_ref E l id) (nt_tag <$> r :: rs) s) as [[[]|e] s1];
      simpl in H |- *; exact H.
Qed.

Definition entry_dests_or_nil (entry : ID * imageDescriptor) : list string :=
  match entry_dests entry with Ok names => names | Err _ => [] end.

Lemma save_entries_ok entries :
  forall s, saved_exportable s ->
  let out := foldS (save_entry E l) entries s in
  is_ok out.1 = forallb entry_exportable entries
  /\ saved_exportable out.2
  /\ (is_ok out.1 = true ->
      manifest_dests (calls out.2) = manifest_dests (calls s) ++ entries ≫= entry_dests_or_nil).
Proof.
  induction entries as [|entry entries IH]; intros s Hinv out; subst out.
  - simpl. split; [done|]. split; [done|]. by rewrite app_nil_r.
  - cbn [foldS forallb].
    pose proof (save_entry_ok entry s Hinv) as (Hok & Hinv' & Hd). cbv zeta in Hok, Hinv', Hd.
    destruct (save_entry E l entry s) as [[[]|e] s1]; simpl in Hok, Hinv', Hd |- *.
    + rewrite <- Hok. simpl andb. destruct (IH s1 Hinv') as (IH1 & IH2 & IH3).
      split; [exact IH1|]. split; [exact IH2|].
      intros H. rewrite (IH3 H), (Hd eq_refl), <- app_assoc. f_equal.
      unfold entry_dests_or_nil. by destruct (entry_dests entry).
    + by rewrite <- Hok.
Qed.

(** A save session succeeds exactly when every entry can be exported, and
    then the files under [refs/] were written entry by entry, in the order
    the map was enumerated. *)
Lemma save_ok rng images :
  let out := save E rng l images in
  is_ok out.1 = forallb entry_exportable (rng images)
  /\ saved_exportable out.2
  /\ (is_ok out.1 = true ->
      manifest_dests (calls out.2) = rng images ≫= entry_dests_or_nil).
Proof.
  intros out. subst out. unfold save.
  assert (Hinit : saved_exportable (mkSession ∅ ∅ emptyDir [])).
  { intros id [m Hm]. simpl in Hm. by rewrite lookup_empty in Hm. }
  pose proof (save_entries_ok (rng images) _ Hinit) as H. cbv zeta in H.
  destruct (foldS (save_entry E l) (rng images) _) as [[[]|e] s1]; simpl in H |- *; exact H.
Qed.

(** A session that succeeds returns its staging directory. *)
Lemma save_result rng images :
  is_ok (save E rng l images).1 = true ->
  save E rng l images = (Ok (tempDir (save E rng l images).2), (save E rng l images).2).
Proof.
  unfold save. by destruct (foldS (save_entry E l) (rng images) _) as [[[]|e] s1].
Qed.

End Save_success.

Section Save_order.
Context (E : Env) (l : tarexporter).

Lemma forallb_Permutation {A} (f : A -> bool) (xs ys : list A) :
  xs ≡ₚ ys -> forallb f xs = forallb f ys.
Proof.
  induction 1 as [|x xs ys _ IH|x y xs|xs ys zs _ IH1 _ IH2]; simpl.
  - done.
  - by rewrite IH.
  - by destruct (f x), (f y).
  - by rewrite IH1.
Qed.

Lemma range_orders_agree {K} `{Countable K} {V} (rng1 rng2 : gmap K V -> list (K * V)) m :
  RangeOrder rng1 -> RangeOrder rng2 -> rng1 m ≡ₚ rng2 m.
Proof. intros H1 H2. by rewrite (H1 m), (H2 m). Qed.

(** C6 (as the code has it).  Two runs of a save session over the same
    images, under any two orders in which the runtime may enumerate the map,
    both succeed or both fail; when they succeed, each run has written the
    files under [refs/] image by image in the order of its own enumeration
    (within an image, in the order of its references), so the two runs wrote
    the same names, in orders that are permutations of each other. *)
Theorem save_emits_in_range_order
    (rng1 rng2 : gmap ID imageDescriptor -> list (ID * imageDescriptor))
    (images : gmap ID imageDescriptor) :
  RangeOrder rng1 -> RangeOrder rng2 ->
  let out1 := save E rng1 l images in
  let out2 := save E rng2 l images in
  is_ok out1.1 = is_ok out2.1
  /\ (is_ok out1.1 = true ->
      manifest_dests (calls out1.2) = rng1 images ≫= entry_dests_or_nil
      /\ manifest_dests (calls out2.2) = rng2 images ≫= entry_dests_or_nil
      /\ manifest_dests (calls out1.2) ≡ₚ manifest_dests (calls out2.2)).
Proof.
  intros H1 H2 out1 out2. subst out1 out2.
  pose proof (range_orders_agree rng1 rng2 images H1 H2) as Hperm.
  destruct (save_ok E l rng1 images) as (Hok1 & _ & Hd1).
  destruct (save_ok E l rng2 images) as (Hok2 & _ & Hd2).
  assert (Hsame : is_ok (save E rng1 l images).1 = is_ok (save E rng2 l images).1).
  { rewrite Hok1, Hok2. by apply forallb_Permutation. }
  split; [exact Hsame|]. intros Hok.
  rewrite (Hd1 Hok), (Hd2 (eq_trans (eq_sym Hsame) Hok)).
  split; [done|]. split; [done|]. by rewrite Hperm.
Qed.

(** C9.  An image of the image store whose configuration lists no diff ID
    cannot be saved: [saveImage] returns the empty-export error for it before
    it puts anything, and a session whose images include it fails, with no
    manifest cached for it. *)
Theorem saveImage_empty_export (id : ID) (img : Image) :
  is_Get E (l_is l) id = Ok img ->
  DiffIDs (img_RootFS img) = [] ->
  (forall dest s,
     savedImages s !! id = None -> saveImage E l id dest s = (Err ErrEmptyExport, s))
  /\ (forall rng images,
        RangeOrder rng -> is_Some (images !! id) ->
        is_ok (save E rng l images).1 = false
        /\ savedImages (save E rng l images).2 !! id = None).
Proof.
  intros Hget Hempty.
  assert (Hexp : image_exportable E l id = false).
  { unfold image_exportable. rewrite Hget. cbv zeta. by rewrite Hempty. }
  split.
  - intros dest s Hsaved. unfold saveImage. rewrite Hsaved, Hget. cbv zeta. by rewrite Hempty.
  - intros rng images Hrng [info Hinfo].
    destruct (save_ok E l rng images) as (Hok & Hinv & _).
    split.
    + rewrite Hok. apply not_true_is_false. intros Hall.
      rewrite forallb_forall in Hall. specialize (Hall (id, info)).
      assert (Hin : In (id, info) (rng images)).
      { apply list_elem_of_In. rewrite (Hrng images). by apply elem_of_map_to_list. }
      specialize (Hall Hin). unfold entry_exportable, entry_dests in Hall. simpl in Hall.
      destruct (List.length (refs info) =? 0) eqn:Hlen.
      * destruct (digest_Hex id) as [hex|e]; simpl in Hall; [|done].
        rewrite Hexp in Hall. by rewrite andb_false_r in Hall.
      * destruct (refs info) as [|r rs]; [done|]. simpl in Hall.
        rewrite Hexp in Hall. by rewrite andb_false_r in Hall.
    + destruct (savedImages (save E rng l images).2 !! id) as [m|] eqn:Hm; [|done].
      rewrite Hinv in Hexp by eauto. done.
Qed.

End Save_order.

Section Save_order_examples.
Import Fixture.

Lemma rng_fwd_order {K} `{Countable K} {V} : RangeOrder (@rng_fwd K _ _ V).
Proof. intros m. reflexivity. Qed.

Lemma rng_rev_order {K} `{Countable K} {V} : RangeOrder (@rng_rev K _ _ V).
Proof. intros m. apply reverse_Permutation. Qed.

(** C6 (the claim fails).  The two enumerations of [two_images] are both
    orders the runtime may choose, both sessions succeed, and they write
    [refs/fb0] and [refs/latest] in opposite orders; the first one saves the
    image with the greater ID first. *)
Lemma save_order_follows_enumeration :
  RangeOrder (@rng_fwd ID _ _ imageDescriptor)
  /\ RangeOrder (@rng_rev ID _ _ imageDescriptor)
  /\ is_ok (save env rng_fwd (exporter ∅) two_images).1 = true
  /\ is_ok (save env rng_rev (exporter ∅) two_images).1 = true
  /\ manifest_dests (calls (save env rng_fwd (exporter ∅) two_images).2) = ["fb0"; "latest"]
  /\ manifest_dests (calls (save env rng_rev (exporter ∅) two_images).2) = ["latest"; "fb0"]
  /\ (rng_fwd two_images).*1 = [id_frombusybox0; id_busybox]
  /\ String.ltb id_busybox id_frombusybox0 = true.
Proof.
  split; [apply rng_fwd_order|]. split; [apply rng_rev_order|].
  repeat split; vm_compute; reflexivity.
Qed.

(** The two sessions over [two_images] agree on success and on the names
    written, up to their order. *)
Lemma save_emits_in_range_order_example :
  RangeOrder (@rng_fwd ID _ _ imageDescriptor)
  /\ RangeOrder (@rng_rev ID _ _ imageDescriptor)
  /\ is_ok (save env rng_fwd (exporter ∅) two_images).1
     = is_ok (save env rng_rev (exporter ∅) two_images).1
  /\ manifest_dests (calls (save env rng_fwd (exporter ∅) two_images).2)
     ≡ₚ manifest_dests (calls (save env rng_rev (exporter ∅) two_images).2).
Proof.
  split; [apply rng_fwd_order|]. split; [apply rng_rev_order|].
  destruct (save_emits_in_range_order env (exporter ∅) rng_fwd rng_rev two_images
              rng_fwd_order rng_rev_order) as [Hsame Hwritten].
  split; [exact Hsame|].
  apply Hwritten. vm_compute. reflexivity.
Defined.

(** The image with no layer of the fixture: [saveImage] refuses it, and so
    does a session that holds it alone. *)
Lemma saveImage_empty_export_example :
  is_Get env fx_is id_empty = Ok (mkImage (mkRootFS "layers" []) cfg_empty)
  /\ saveImage env (exporter ∅) id_empty "latest" (mkSession ∅ ∅ emptyDir [])
     = (Err ErrEmptyExport, mkSession ∅ ∅ emptyDir [])
  /\ is_ok (save env rng_fwd (exporter ∅) {[ id_empty := mkDescr [] ]}).1 = false.
Proof.
  assert (Hget : is_Get env (l_is (exporter ∅)) id_empty
                 = Ok (mkImage (mkRootFS "layers" []) cfg_empty))
    by (vm_compute; reflexivity).
  destruct (saveImage_empty_export env (exporter ∅) id_empty _ Hget eq_refl)
    as [Hstep Hsession].
  split; [exact Hget|]. split.
  - apply Hstep. reflexivity.
  - apply (Hsession rng_fwd {[ id_empty := mkDescr [] ]} rng_fwd_order).
    rewrite lookup_singleton_eq. eauto.
Defined.

End Save_order_examples.

(** ** Name resolution: the [--ref] overrides *)

Definition is_canonical (r : result Named) : bool :=
  match r with Ok (Canonical _ _) => true | _ => false end.

Section GetRefs_facts.
Context (E : Env).

(** What [ociRefRegexp] accepts: the non-empty strings over its class. *)
Lemma ociRefRegexp_spec (s : string) :
  ociRefRegexp_MatchString s = true <->
  s <> EmptyString /\ forall c, c ∈ list_ascii_of_string s -> oci_ref_char c = true.
Proof.
  unfold ociRefRegexp_MatchString. rewrite andb_true_iff, negb_true_iff, forallb_forall.
  rewrite String.eqb_neq. split; intros [Hne Hall]; (split; [done|]); intros c Hc; apply Hall.
  - by apply list_elem_of_In.
  - by apply list_elem_of_In.
Qed.

(** An entry of [l.refs] passes [getRefs]: its name parses, and either it is
    a digest reference (skipped unchecked) or it takes the default tag and its
    override is in the class. *)
Definition entry_checked (entry : string * string) : bool :=
  match ParseNamed E entry.1 with
  | Ok (Canonical _ _) => true
  | Ok r => is_ok (tagged_or_default E r) && ociRefRegexp_MatchString entry.2
  | Err _ => false
  end.

(** The name of the entry parses, and takes the default tag when it has
    none. *)
Definition entry_parses (entry : string * string) : bool :=
  match ParseNamed E entry.1 with
  | Ok (Canonical _ _) => true
  | Ok r => is_ok (tagged_or_default E r)
  | Err _ => false
  end.

Lemma getRefs_step_ok overrides entry :
  is_ok (getRefs_step E overrides entry) = entry_checked entry.
Proof.
  destruct entry as [image ref]. unfold getRefs_step, entry_checked. simpl.
  destruct (ParseNamed E image) as [[n|t|n d]|e]; simpl; try done.
  - destruct (WithTag E (NameOnly n) DefaultTag); simpl; [|done].
    by destruct (ociRefRegexp_MatchString ref).
  - by destruct (ociRefRegexp_MatchString ref).
Qed.

(** When the name of a failing entry parses, the failure is the one of the
    character class, and names the entry. *)
Lemma getRefs_step_invalid overrides entry :
  entry_parses entry = true -> entry_checked entry = false ->
  getRefs_step E overrides entry = Err (ErrInvalidOCIRef entry.1 entry.2)
  /\ is_canonical (ParseNamed E entry.1) = false
  /\ ociRefRegexp_MatchString entry.2 = false.
Proof.
  destruct entry as [image ref]. unfold getRefs_step, entry_checked, entry_parses. simpl.
  destruct (ParseNamed E image) as [[n|t|n d]|e]; simpl; try done.
  - destruct (WithTag E (NameOnly n) DefaultTag); simpl; [|done].
    by destruct (ociRefRegexp_MatchString ref).
  - by destruct (ociRefRegexp_MatchString ref).
Qed.

Lemma getRefs_loop_ok entries :
  forall overrides,
  is_ok (foldR (getRefs_step E) entries overrides) = forallb entry_checked entries.
Proof.
  induction entries as [|entry entries IH]; intros overrides; [done|].
  cbn [foldR forallb]. rewrite <- (getRefs_step_ok overrides entry).
  destruct (getRefs_step E overrides entry) as [ov|e]; simpl; [apply IH|done].
Qed.

(** The error of the loop is the error of one of its entries. *)
Lemma getRefs_loop_error entries :
  forall overrides e,
  foldR (getRefs_step E) entries overrides = Err e ->
  exists entry ov, entry ∈ entries /\ getRefs_step E ov entry = Err e.
Proof.
  induction entries as [|entry entries IH]; intros overrides e; [done|].
  cbn [foldR]. destruct (getRefs_step E overrides entry) as [ov|e'] eqn:Hstep; simpl.
  - intros Hrest. destruct (IH ov e Hrest) as (entry' & ov' & Hin & Herr).
    exists entry', ov'. split; [by right|done].
  - intros [= ->]. exists entry, overrides. split; [by left|done].
Qed.

(** The key an accepted entry is recorded under is bound in the result. *)
Lemma getRefs_loop_binds entries :
  forall overrides refs image ref r tagged,
  foldR (getRefs_step E) entries overrides = Ok refs ->
  ((image, ref) ∈ entries \/ is_Some (overrides !! tagged_String tagged)) ->
  ParseNamed E image = Ok r -> is_canonical (Ok r) = false ->
  tagged_or_default E r = Ok tagged ->
  is_Some (refs !! tagged_String tagged).
Proof.
  induction entries as [|entry entries IH]; intros overrides refs image ref r tagged.
  - simpl. intros [= <-] [Hin|Hsome] _ _ _; [by apply elem_of_nil in Hin|done].
  - cbn [foldR]. destruct (getRefs_step E overrides entry) as [ov|e'] eqn:Hstep; [|done].
    simpl. intros Hrest Hin Hparse Hcan Htag.
    apply (IH ov refs image ref r tagged Hrest); [|done..].
    destruct Hin as [Hin|Hsome].
    + apply elem_of_cons in Hin as [<-|Hin]; [|by left]. right.
      unfold getRefs_step in Hstep. rewrite Hparse in Hstep. simpl in Hstep.
      destruct r as [n|t|n d]; [| |done]; rewrite Htag in Hstep; simpl in Hstep;
        destruct (ociRefRegexp_MatchString ref); simplify_eq/=;
        rewrite lookup_insert_eq; eauto.
    + right. destruct entry as [image' ref']. unfold getRefs_step in Hstep.
      destruct (ParseNamed E image') as [[n|t|n d]|e]; simpl in Hstep; simplify_eq/=; [| |done].
      * destruct (WithTag E (NameOnly n) DefaultTag) as [t'|]; simpl in Hstep; [|done].
        destruct (ociRefRegexp_MatchString ref'); simplify_eq/=.
        destruct (decide (tagged_String t' = tagged_String tagged)) as [->|Hne].
        -- rewrite lookup_insert_eq; eauto.
        -- by rewrite lookup_insert_ne.
      * destruct (ociRefRegexp_MatchString ref'); simplify_eq/=.
        destruct (decide (tagged_String t = tagged_String tagged)) as [->|Hne].
        -- rewrite lookup_insert_eq; eauto.
        -- by rewrite lookup_insert_ne.
Qed.

(** C8 (as the code has it).  Take an entry [image=ref] of the [--ref]
    overrides whose name does not parse as a digest reference.  If [ref]
    holds a character outside the class of [ociRefRegexp], [getRefs] fails,
    and so does [parseOCINames], before any image is looked up; when moreover
    the name of every entry parses, the error is the invalid-reference error
    of an entry whose override is outside the class, and its message quotes
    that very pair and spells out the class.  If instead every entry passes
    the check, [getRefs] succeeds and the key of the entry is bound in the
    map it returns.  (An entry named by a digest reference is skipped, and
    its override is never looked at.) *)
Theorem getRefs_checks_override
    (rng : gmap string string -> list (string * string)) (l : tarexporter)
    (image ref : string) :
  RangeOrder rng ->
  l_refs l !! image = Some ref ->
  is_canonical (ParseNamed E image) = false ->
  ((exists c, c ∈ list_ascii_of_string ref /\ oci_ref_char c = false) ->
     (exists e, getRefs E rng l = Err e /\ forall names, parseOCINames E rng l names = Err e)
     /\ (forallb entry_parses (rng (l_refs l)) = true ->
         exists image' ref',
           l_refs l !! image' = Some ref'
           /\ is_canonical (ParseNamed E image') = false
           /\ ociRefRegexp_MatchString ref' = false
           /\ getRefs E rng l = Err (ErrInvalidOCIRef image' ref')
           /\ error_message (ErrInvalidOCIRef image' ref') =
              "invalid reference " +:+ quoted (image' +:+ "=" +:+ ref')
              +:+ ", reference must not include characters outside of the set of "
              +:+ oci_ref_class))
  /\ (forallb entry_checked (rng (l_refs l)) = true ->
      exists refs,
        getRefs E rng l = Ok refs
        /\ forall r tagged,
             ParseNamed E image = Ok r -> tagged_or_default E r = Ok tagged ->
             is_Some (refs !! tagged_String tagged)).
Proof.
  intros Hrng Hentry Hcan.
  assert (Hin : (image, ref) ∈ rng (l_refs l)).
  { rewrite (Hrng (l_refs l)). by apply elem_of_map_to_list. }
  split.
  - intros (c & Hc & Hout).
    assert (Hbad : ociRefRegexp_MatchString ref = false).
    { apply not_true_is_false. intros Hm. apply ociRefRegexp_spec in Hm as [_ Hall].
      rewrite (Hall c Hc) in Hout. done. }
    assert (Hunchecked : entry_checked (image, ref) = false).
    { unfold entry_checked. simpl.
      destruct (ParseNamed E image) as [[n|t|n d]|e]; simpl in *; try done;
        by rewrite Hbad, andb_false_r. }
    assert (Hfails : is_ok (getRefs E rng l) = false).
    { unfold getRefs. rewrite getRefs_loop_ok. apply not_true_is_false. intros Hall.
      rewrite forallb_forall in Hall. rewrite Hall in Hunchecked; [done|].
      by apply list_elem_of_In. }
    destruct (getRefs E rng l) as [refs|e] eqn:Hget; [done|].
    split.
    + exists e. split; [done|]. intros names. unfold parseOCINames. by rewrite Hget.
    + intros Hparse. unfold getRefs in Hget.
      destruct (getRefs_loop_error _ _ _ Hget) as ([image' ref'] & ov & Hin' & Hstep).
      assert (Hp : entry_parses (image', ref') = true).
      { rewrite forallb_forall in Hparse. apply Hparse. by apply list_elem_of_In. }
      assert (Hc' : entry_checked (image', ref') = false).
      { rewrite <- (getRefs_step_ok ov). by rewrite Hstep. }
      destruct (getRefs_step_invalid ov _ Hp Hc') as (Herr & Hcan' & Hbad').
      exists image', ref'. split.
      { apply elem_of_map_to_list. by rewrite <- (Hrng (l_refs l)). }
      split; [done|]. split; [done|]. split; [|done].
      rewrite Hstep in Herr. by injection Herr as ->.
  - intros Hall.
    assert (Hok : is_ok (getRefs E rng l) = true).
    { unfold getRefs. by rewrite getRefs_loop_ok. }
    destruct (getRefs E rng l) as [refs|e] eqn:Hget; [|done].
    exists refs. split; [done|]. intros r tagged Hparse Htag.
    unfold getRefs in Hget.
    apply (getRefs_loop_binds _ _ _ image ref r tagged Hget); [by left|done| |done].
    by rewrite <- Hparse.
Qed.

End GetRefs_facts.

Section GetRefs_examples.
Import Fixture.

(** C8 (the claim fails).  The override [busybox@sha256:0123=invalid:reference]
    has a colon in its tag, yet [getRefs] accepts it without a look, name
    resolution succeeds, and the session goes on to write the archive. *)
Lemma getRefs_skips_digest_reference :
  l_refs (exporter ov_digest) !! "busybox@sha256:0123" = Some "invalid:reference"
  /\ ":"%char ∈ list_ascii_of_string "invalid:reference"
  /\ oci_ref_char ":" = false
  /\ getRefs env rng_fwd (exporter ov_digest) = Ok ∅
  /\ parseOCINames env rng_fwd (exporter ov_digest) ["busybox:latest"]
     = Ok {[ id_busybox := mkDescr [ref_busybox] ]}
  /\ is_ok (save env rng_fwd (exporter ov_digest) {[ id_busybox := mkDescr [ref_busybox] ]}).1
     = true.
Proof.
  split; [reflexivity|]. split; [|repeat split; vm_compute; reflexivity].
  apply list_elem_of_In. vm_compute. tauto.
Qed.

(** The override of the integration test, [busybox=invalid:reference], is
    refused with the error that names it. *)
Lemma getRefs_checks_override_example :
  RangeOrder (@rng_fwd string _ _ string)
  /\ l_refs (exporter ov_invalid) !! "busybox" = Some "invalid:reference"
  /\ is_canonical (ParseNamed env "busybox") = false
  /\ (exists e, getRefs env rng_fwd (exporter ov_invalid) = Err e
                /\ forall names, parseOCINames env rng_fwd (exporter ov_invalid) names = Err e)
  /\ getRefs env rng_fwd (exporter ov_invalid)
     = Err (ErrInvalidOCIRef "busybox" "invalid:reference").
Proof.
  split; [apply rng_fwd_order|]. split; [reflexivity|]. split; [reflexivity|].
  destruct (getRefs_checks_override env rng_fwd (exporter ov_invalid)
              "busybox" "invalid:reference" rng_fwd_order eq_refl eq_refl) as [Hreject _].
  split; [|vm_compute; reflexivity].
  apply Hreject. exists ":"%char. split; [|reflexivity].
  apply list_elem_of_In. vm_compute. tauto.
Defined.

(** An override in the class is recorded under the name with its default
    tag. *)
Example getRefs_accepts_valid_override :
  getRefs env rng_fwd (exporter ov_valid)
  = Ok {[ "frombusybox0:latest" := "frombusybox0-latest" ]}.
Proof. vm_compute. reflexivity. Qed.

End GetRefs_examples.

(** ** Name resolution: one tag, one reference *)

Definition colon_free (s : string) : bool :=
  forallb (fun c => negb (Ascii.eqb c ":")) (list_ascii_of_string s).

(** Two references attached to images clash when they carry the same tag
    and are not the same reference of the same image. *)
Definition clash (p q : ID * NamedTagged) : Prop :=
  nt_tag p.2 = nt_tag q.2 /\ p <> q.

Definition clash_free (seen : list (ID * NamedTagged)) : Prop :=
  forall p q, p ∈ seen -> q ∈ seen -> nt_tag p.2 = nt_tag q.2 -> p = q.

Section Resolve_facts.
Context (E : Env).

(** The reference [addAssoc] attaches for [ref], after the default tag and
    the override: none for no reference, a digest reference, or a name the
    default tag cannot be put on; an error when the override is no tag. *)
Definition effective (overrides : gmap string string) (ref : option Named)
  : result (option NamedTagged) :=
  match ref with
  | None => Ok None
  | Some (Canonical _ _) => Ok None
  | Some ref =>
      match tagged_or_default E ref with
      | Err _ => Ok None
      | Ok tagged =>
          match overrides !! tagged_String tagged with
          | Some r => tagged' ← WithTag E (Tagged tagged) r; Ok (Some tagged')
          | None => Ok (Some tagged)
          end
      end
  end.

(** The references a list of associations stands for, after overrides. *)
Fixpoint effective_refs (overrides : gmap string string) (assocs : list (ID * option Named))
  : result (list (ID * NamedTagged)) :=
  match assocs with
  | [] => Ok []
  | (id, ref) :: rest =>
      o ← effective overrides ref;
      effs ← effective_refs overrides rest;
      Ok (match o with Some t => (id, t) :: effs | None => effs end)
  end.

(** The associations a name on the command line stands for, when its
    lookups succeed: what [parseOCINames] hands to [addAssoc] for it. *)
Definition token_assocs (l : tarexporter) (name : string) : result (list (ID * option Named)) :=
  idref ← ParseIDOrReference E name;
  match idref with
  | inl id => _ ← is_Get E (l_is l) id; Ok [(id, None)]
  | inr ref =>
      if String.eqb (Name ref) digest_Canonical then
        imgID ← is_Search E (l_is l) name; Ok [(imgID, None)]
      else if IsNameOnly ref then
        let assocs := rs_ReferencesByName (l_rs l) ref in
        if List.length assocs =? 0 then
          imgID ← is_Search E (l_is l) name; Ok [(imgID, None)]
        else Ok ((fun a => (assoc_ID a, Some (assoc_Ref a))) <$> assocs)
      else
        id ← rs_Get (l_rs l) ref; Ok [(id, Some ref)]
  end.

Fixpoint names_assocs (l : tarexporter) (names : list string)
  : result (list (ID * option Named)) :=
  match names with
  | [] => Ok []
  | name :: rest =>
      assocs ← token_assocs l name;
      more ← names_assocs l rest;
      Ok (assocs ++ more)
  end.

Definition refs_of (st : names_state) (id : ID) : list NamedTagged :=
  refs (default (mkDescr []) (imgDescr st !! id)).

(** [addAssoc] up to the reference: the image gets an entry. *)
Definition touch (st : names_state) (id : ID) : names_state :=
  match imgDescr st !! id with
  | Some _ => st
  | None => mkNames (<[id := mkDescr []]> (imgDescr st)) (tags st)
  end.

(** [addAssoc] from the reference on. *)
Definition attach (st : names_state) (id : ID) (tagged : NamedTagged) : result names_state :=
  if existsb (fun t => String.eqb (tagged_String tagged) (tagged_String t)) (refs_of st id)
  then Ok st
  else if bool_decide (nt_tag tagged ∈ tags st)
  then Err (ErrDuplicateRef (nt_tag tagged))
  else Ok (mkNames (<[id := mkDescr (refs_of st id ++ [tagged])]> (imgDescr st))
                   ({[nt_tag tagged]} ∪ tags st)).

Lemma addAssoc_effective overrides st id ref :
  addAssoc E overrides st id ref =
  match effective overrides ref with
  | Ok None => Ok (touch st id)
  | Ok (Some t) => attach (touch st id) id t
  | Err e => Err e
  end.
Proof.
  unfold addAssoc, effective. fold (touch st id).
  destruct ref as [[n|t|n d]|]; simpl; try done.
  - destruct (WithTag E (NameOnly n) DefaultTag) as [tagged|]; [|done].
    destruct (overrides !! tagged_String tagged) as [r|]; simpl; [|done].
    by destruct (WithTag E (Tagged tagged) r).
  - destruct (overrides !! tagged_String t) as [r|]; simpl; [|done].
    by destruct (WithTag E (Tagged t) r).
Qed.

Lemma refs_of_touch st id id' : refs_of (touch st id) id' = refs_of st id'.
Proof.
  unfold touch, refs_of. destruct (imgDescr st !! id) eqn:Hid; [done|]. simpl.
  destruct (decide (id = id')) as [<-|Hne].
  - by rewrite lookup_insert_eq, Hid.
  - by rewrite lookup_insert_ne.
Qed.

Lemma tags_touch st id : tags (touch st id) = tags st.
Proof. unfold touch. by destruct (imgDescr st !! id). Qed.

Lemma append_cons c n s : String c n +:+ s = String c (n +:+ s).
Proof. reflexivity. Qed.

Lemma append_colon_not_free n t : colon_free (n +:+ String ":" t) = false.
Proof.
  unfold colon_free. induction n as [|c n IH]; [done|].
  rewrite append_cons. cbn [list_ascii_of_string forallb]. by rewrite IH, andb_false_r.
Qed.

(** A reference is told by its text, when tags hold no colon. *)
Lemma tagged_String_inj t1 t2 :
  colon_free (nt_tag t1) = true -> colon_free (nt_tag t2) = true ->
  tagged_String t1 = tagged_String t2 -> t1 = t2.
Proof.
  destruct t1 as [n1 g1], t2 as [n2 g2]. unfold tagged_String. simpl.
  intros H1 H2. change (":" +:+ g1) with (String ":" g1). change (":" +:+ g2) with (String ":" g2).
  revert n2. induction n1 as [|c1 n1 IH]; intros [|c2 n2]; rewrite ?append_cons.
  - by intros [= ->].
  - intros [= <- ->]. by rewrite append_colon_not_free in H1.
  - intros [= -> <-]. by rewrite append_colon_not_free in H2.
  - intros [= -> Hrest]. by injection (IH n2 Hrest) as -> ->.
Qed.

(** What [imgDescr] and [tags] hold after the references [seen] were
    attached. *)
Definition names_inv (st : names_state) (seen : list (ID * NamedTagged)) : Prop :=
  (forall t, t ∈ tags st <-> exists p, p ∈ seen /\ nt_tag p.2 = t)
  /\ (forall id t, t ∈ refs_of st id <-> (id, t) ∈ seen).

Lemma names_inv_touch st id seen : names_inv st seen -> names_inv (touch st id) seen.
Proof.
  intros [Ht Hr]. split.
  - intros t. by rewrite tags_touch.
  - intros id' t. by rewrite refs_of_touch.
Qed.

Lemma names_inv_same st seen seen' :
  (forall p, p ∈ seen <-> p ∈ seen') -> names_inv st seen -> names_inv st seen'.
Proof.
  intros Hsame [Ht Hr]. split.
  - intros t. rewrite Ht. split; intros (p & Hp & Htag); exists p; by rewrite ?Hsame in *.
  - intros id t. by rewrite Hr, Hsame.
Qed.

Lemma clash_free_same seen seen' :
  (forall p, p ∈ seen <-> p ∈ seen') -> clash_free seen -> clash_free seen'.
Proof. intros Hsame Hfree p q Hp Hq. apply Hfree; by apply Hsame. Qed.

Lemma existsb_String_elem_of (t : NamedTagged) (present : list NamedTagged) :
  colon_free (nt_tag t) = true ->
  Forall (fun t' => colon_free (nt_tag t') = true) present ->
  existsb (fun t' => String.eqb (tagged_String t) (tagged_String t')) present = true
  <-> t ∈ present.
Proof.
  intros Ht Hall. rewrite existsb_exists. split.
  - intros (t' & Hin & Heq). apply String.eqb_eq in Heq.
    apply list_elem_of_In in Hin. rewrite Forall_forall in Hall.
    by rewrite (tagged_String_inj t t' Ht (Hall t' Hin) Heq).
  - intros Hin. exists t. split; [by apply list_elem_of_In|apply String.eqb_refl].
Qed.

(** One reference more: already attached to the image, clashing with one
    attached before, or new. *)
Lemma attach_spec st seen id t :
  names_inv st seen -> clash_free seen ->
  colon_free (nt_tag t) = true ->
  Forall (fun p => colon_free (nt_tag p.2) = true) seen ->
  match attach st id t with
  | Ok st' => clash_free ((id, t) :: seen) /\ names_inv st' ((id, t) :: seen)
  | Err e => exists q, q ∈ seen /\ clash (id, t) q /\ e = ErrDuplicateRef (nt_tag t)
  end.
Proof.
  intros [Htags Hrefs] Hfree Hwf Hseen. unfold attach.
  assert (Hpresent : Forall (fun t' => colon_free (nt_tag t') = true) (refs_of st id)).
  { apply Forall_forall. intros t' Ht'. apply Hrefs in Ht'.
    rewrite Forall_forall in Hseen. exact (Hseen _ Ht'). }
  destruct (existsb _ (refs_of st id)) eqn:Hex.
  - apply existsb_String_elem_of in Hex; [|done..]. apply Hrefs in Hex.
    assert (Hsame : forall p, p ∈ seen <-> p ∈ (id, t) :: seen) by set_solver.
    split; [by apply (clash_free_same seen)|by apply (names_inv_same st seen)].
  - assert (Hnew : (id, t) ∉ seen).
    { intros Hin. apply Hrefs in Hin. apply existsb_String_elem_of in Hin; [|done..].
      congruence. }
    case_bool_decide as Htag.
    + apply Htags in Htag as (q & Hq & Hqt). exists q. split; [done|]. split; [|done].
      split; [done|]. intros <-. done.
    + split.
      * intros p q Hp Hq Hpq. apply elem_of_cons in Hp as [->|Hp], Hq as [->|Hq].
        -- done.
        -- exfalso. apply Htag, Htags. exists q. by split.
        -- exfalso. apply Htag, Htags. exists p. by split.
        -- by apply Hfree.
      * split.
        -- intros t'. simpl. rewrite elem_of_union, elem_of_singleton, Htags. split.
           ++ intros [->|(p & Hp & Hpt)]; [exists (id, t); split; [left|done]|].
              exists p. split; [by right|done].
           ++ intros (p & Hp & Hpt). apply elem_of_cons in Hp as [->|Hp]; [by left|].
              right. by exists p.
        -- intros id' t'. unfold refs_of at 1. simpl.
           destruct (decide (id = id')) as [<-|Hne].
           ++ rewrite lookup_insert_eq. simpl. rewrite elem_of_app, list_elem_of_singleton, Hrefs.
              rewrite elem_of_cons. split; [intros [?| ->]; by eauto|].
              intros [[= ->]|?]; by eauto.
           ++ rewrite lookup_insert_ne by done. fold (refs_of st id'). rewrite Hrefs.
              rewrite elem_of_cons. split; [by right|]. intros [[= ? ?]|?]; [done|done].
Qed.


Lemma foldR_app {A S} (f : S -> A -> result S) (xs ys : list A) (s : S) :
  foldR f (xs ++ ys) s = (s' ← foldR f xs s; foldR f ys s').
Proof.
  revert s. induction xs as [|x xs IH]; intros s; [done|].
  simpl. destruct (f s x); simpl; [apply IH|done].
Qed.

Lemma foldR_fmap {A B S} (g : A -> B) (f : S -> B -> result S) (xs : list A) (s : S) :
  foldR (fun s x => f s (g x)) xs s = foldR f (g <$> xs) s.
Proof.
  revert s. induction xs as [|x xs IH]; intros s; [done|].
  simpl. destruct (f s (g x)); simpl; [apply IH|done].
Qed.

#[local] Opaque addAssoc.

(** When the lookups of a name succeed, its turn of the loop of
    [parseOCINames] is [addAssoc] over its associations. *)
Lemma parseOCINames_step_assocs l overrides st name assocs :
  token_assocs l name = Ok assocs ->
  parseOCINames_step E l overrides st name
  = foldR (fun st a => addAssoc E overrides st a.1 a.2) assocs st.
Proof.
  unfold token_assocs, parseOCINames_step.
  destruct (ParseIDOrReference E name) as [[id|ref]|e]; simpl; [| |done].
  - destruct (is_Get E (l_is l) id); simpl; [|done]. intros [= <-]. simpl.
    by destruct (addAssoc E overrides st id None).
  - destruct (String.eqb (Name ref) digest_Canonical).
    + destruct (is_Search E (l_is l) name) as [imgID|]; simpl; [|done]. intros [= <-]. simpl.
      by destruct (addAssoc E overrides st imgID None).
    + destruct (IsNameOnly ref).
      * cbv zeta. destruct (rs_ReferencesByName (l_rs l) ref) as [|a assocs'] eqn:Hassocs.
        -- simpl. destruct (is_Search E (l_is l) name) as [imgID|]; simpl; [|done].
           intros [= <-]. simpl. by destruct (addAssoc E overrides st imgID None).
        -- cbn [List.length Nat.eqb]. intros [= <-].
           etrans; [|exact (foldR_fmap (fun a => (assoc_ID a, Some (assoc_Ref a)))
                              (fun st a => addAssoc E overrides st a.1 a.2)
                              (a :: assocs') st)].
           simpl. destruct (addAssoc E overrides st (assoc_ID a) (Some (assoc_Ref a)));
             simpl; [|done].
           match goal with |- context [foldR ?f assocs' ?x] => by destruct (foldR f assocs' x) end.
      * destruct (rs_Get (l_rs l) ref) as [id|]; simpl; [|done]. intros [= <-]. simpl.
        by destruct (addAssoc E overrides st id (Some ref)).
Qed.

Lemma parseOCINames_loop_assocs l overrides names :
  forall st assocs,
  names_assocs l names = Ok assocs ->
  foldR (parseOCINames_step E l overrides) names st
  = foldR (fun st a => addAssoc E overrides st a.1 a.2) assocs st.
Proof.
  induction names as [|name names IH]; intros st assocs; simpl.
  - by intros [= <-].
  - destruct (token_assocs l name) as [assocs1|] eqn:H1; simpl; [|done].
    destruct (names_assocs l names) as [assocs2|] eqn:H2; simpl; [|done].
    intros [= <-]. rewrite foldR_app, (parseOCINames_step_assocs _ _ _ _ _ H1).
    destruct (foldR _ assocs1 st) as [st1|]; simpl; [|done]. by apply IH.
Qed.

#[local] Transparent addAssoc.


End Resolve_facts.

Section Resolve_examples.
Import Fixture.


(** The other cases of the integration test. *)
Example parseOCINames_same_tag_two_images :
  parseOCINames env rng_fwd (exporter ∅) ["busybox:latest"; "frombusybox0"]
  = Err (ErrDuplicateRef "latest").
Proof. vm_compute. reflexivity. Qed.

Example parseOCINames_override_onto_taken_tag :
  parseOCINames env rng_fwd (exporter {[ "frombusybox0" := "12.04" ]})
    ["frombusybox0:latest"; "busybox:12.04"]
  = Err (ErrDuplicateRef "12.04").
Proof. vm_compute. reflexivity. Qed.

Example parseOCINames_with_override :
  is_ok (parseOCINames env rng_fwd (exporter ov_valid) ["busybox:latest"; "frombusybox0"]) = true.
Proof. vm_compute. reflexivity. Qed.

End Resolve_examples.

(** ** The OCI save session: every blob is put once *)

(** The manifests [PutManifest] was called with, in the order of the calls:
    each call writes its manifest as a blob of the directory. *)
Definition manifest_contents (cs : list DestCall) : list bytes :=
  omap (fun c => match c with CallPutManifest _ m => Some m | CallPutBlob _ _ => None end) cs.

Section Save_blobs.
Context (E : Env) (l : tarexporter).

(** The sessions a save goes through: the fresh one, and the one every call
    of [saveImage] leaves, whether the call fails or not. *)
Inductive in_session : ociSaveSession -> Prop :=
  | in_session_fresh : in_session (mkSession ∅ ∅ emptyDir [])
  | in_session_saveImage id dest s :
      in_session s -> in_session (saveImage E l id dest s).2.

(** The manifests of the cache lie in the staging directory, each under its
    digest, and the marker is there once a manifest is cached. *)
Record manifests_kept (s : ociSaveSession) : Prop := {
  kept_blob : forall id mjson, savedImages s !! id = Some mjson ->
    dir_blobs (tempDir s) !! digestFromBytes E mjson = Some mjson;
  kept_marker : forall id mjson, savedImages s !! id = Some mjson ->
    dir_layout (tempDir s) = Some oci_layout_marker
}.

Lemma manifest_contents_app cs1 cs2 :
  manifest_contents (cs1 ++ cs2) = manifest_contents cs1 ++ manifest_contents cs2.
Proof. apply omap_app. Qed.

Lemma save_ref_in_session id n s : in_session s -> in_session (save_ref E l id n s).2.
Proof.
  intros Hs. unfold save_ref, oci_NewReference.
  destruct (ociRefRegexp_MatchString n); [by constructor|done].
Qed.

Lemma save_entry_in_session entry s : in_session s -> in_session (save_entry E l entry s).2.
Proof.
  intros Hs. destruct entry as [id info]. unfold save_entry.
  assert (Hrefs : in_session (foldS (fun i => save_ref E l id (nt_tag i)) (refs info) s).2).
  { apply (foldS_invariant in_session); [|done].
    intros i t _ Ht. by apply save_ref_in_session. }
  destruct (foldS _ (refs info) s) as [[[]|e] s1]; simpl in Hrefs |- *; [|done].
  destruct (List.length (refs info) =? 0); [|done].
  destruct (digest_Hex id) as [hex|e]; [|done]. by apply save_ref_in_session.
Qed.

(** Every session of a save, and the one it ends in, is of this kind. *)
Lemma save_in_session rng images : in_session (save E rng l images).2.
Proof.
  assert (H : in_session (foldS (save_entry E l) (rng images) (mkSession ∅ ∅ emptyDir [])).2).
  { apply (foldS_invariant in_session); [|constructor].
    intros entry s _ Hs. by apply save_entry_in_session. }
  unfold save. by destruct (foldS (save_entry E l) (rng images) _) as [[[]|e] s1].
Qed.

(** The blob a descriptor names was put in the session, with its size. *)
Definition put_for (s : ociSaveSession) (d : Descriptor) : Prop :=
  exists c, c ∈ blob_contents (calls s)
            /\ digestFromBytes E c = desc_Digest d /\ size_of c = desc_Size d.

(** What holds of a session after the images [seen] were saved, or begun:
    no content was put twice; a blob put is the configuration of an image
    seen or the gzip of a layer whose DiffID is cached; the manifest cache
    holds images seen only; and the descriptors held by the two caches name
    blobs that were put. *)
Record session_ok (seen : gset ID) (s : ociSaveSession) : Prop := {
  ok_nodup : NoDup (blob_contents (calls s));
  ok_origin : forall c, c ∈ blob_contents (calls s) ->
    (exists id, id ∈ seen /\ l_is l !! id = Some c)
    \/ (exists chain ly, l_ls l !! chain = Some ly /\ c = gzip E (layer_tar ly)
                         /\ is_Some (diffIDsCache s !! layer_DiffID ly));
  ok_saved : forall id, is_Some (savedImages s !! id) -> id ∈ seen;
  ok_cache : forall dd info, diffIDsCache s !! dd = Some info ->
    put_for s (mkDescriptor MediaTypeImageLayer (li_digest info) (li_size info));
  ok_manifests : forall id mjson, savedImages s !! id = Some mjson ->
    exists m, mjson = marshalManifest E m
              /\ forall d, d ∈ Config m :: Layers m -> put_for s d
}.

Lemma session_ok_mono seen seen' s : seen ⊆ seen' -> session_ok seen s -> session_ok seen' s.
Proof.
  intros Hsub [H1 H2 H3 H4 H5]. split; try done.
  - intros c Hc. destruct (H2 c Hc) as [(id & Hid & Hraw)|Hlayer]; [left|by right].
    exists id. split; [set_solver|done].
  - intros id Hid. set_solver.
Qed.

Lemma put_for_mono s s' d :
  (forall c, c ∈ blob_contents (calls s) -> c ∈ blob_contents (calls s')) ->
  put_for s d -> put_for s' d.
Proof. intros Hsub (c & Hc & Hd). exists c. split; [by apply Hsub|done]. Qed.

Lemma is_Get_lookup id img :
  is_Get E (l_is l) id = Ok img -> l_is l !! id = Some (RawJSON img).
Proof.
  unfold is_Get, NewFromJSON. destruct (l_is l !! id) as [raw|]; [|done].
  destruct (parseConfig E raw); [|done]. by intros [= <-].
Qed.

Section Addressed.
(** The stores are content addressed: digests and gzip tell contents apart,
    an image ID is the digest of its configuration, a DiffID the digest of
    the layer's tar, and no configuration is a gzip stream of a layer. *)
Hypothesis digest_inj : Inj (=) (=) (digestFromBytes E).
Hypothesis gzip_inj : Inj (=) (=) (gzip E).
Hypothesis is_addressed : forall id raw, l_is l !! id = Some raw -> digestFromBytes E raw = id.
Hypothesis ls_addressed : forall chain ly,
  l_ls l !! chain = Some ly -> layer_DiffID ly = digestFromBytes E (layer_tar ly).
Hypothesis config_not_gzip : forall id raw chain ly,
  l_is l !! id = Some raw -> l_ls l !! chain = Some ly -> raw <> gzip E (layer_tar ly).

Lemma saveLayer_inv seen dest diffIDs i ms :
  session_ok seen ms.2 ->
  (forall d, d ∈ Config ms.1 :: Layers ms.1 -> put_for ms.2 d) ->
  let out := saveLayer E l dest diffIDs i ms in
  session_ok seen out.2.2
  /\ (forall d, d ∈ Config out.2.1 :: Layers out.2.1 -> put_for out.2.2 d)
  /\ savedImages out.2.2 = savedImages ms.2.
Proof.
  intros Hok Hput out. subst out.
  pose proof (saveLayer_step E l dest diffIDs i ms) as Hstep.
  destruct (l_ls l !! CreateChainID E (take (S i) diffIDs)) as [ly|] eqn:Hly.
  - destruct (diffIDsCache ms.2 !! layer_DiffID ly) as [info|] eqn:Hcache; rewrite Hstep; simpl.
    + split; [done|]. split; [|done].
      intros d Hd. rewrite app_comm_cons in Hd. apply elem_of_app in Hd as [Hd|Hd].
      * by apply Hput.
      * apply list_elem_of_singleton in Hd as ->. by apply (ok_cache _ _ Hok (layer_DiffID ly)).
    + set (c := gzip E (layer_tar ly)).
      assert (Hfresh : c ∉ blob_contents (calls ms.2)).
      { intros Hc. destruct (ok_origin _ _ Hok c Hc) as [(id & _ & Hraw)|Hlayer].
        - exact (config_not_gzip id c _ ly Hraw Hly eq_refl).
        - destruct Hlayer as (chain & ly' & Hly' & Heq & Hcached).
          apply gzip_inj in Heq.
          rewrite (ls_addressed _ _ Hly), Heq, <- (ls_addressed _ _ Hly') in Hcache.
          rewrite Hcache in Hcached. by destruct Hcached. }
      assert (Hgrow : forall c', c' ∈ blob_contents (calls ms.2) ->
                        c' ∈ blob_contents (calls ms.2 ++ [CallPutBlob dest c])).
      { intros c' Hc'. rewrite blob_contents_app. set_solver. }
      assert (Hnew : put_for (cache_layer (PutBlob E dest c ms.2).2 (layer_DiffID ly)
                                (mkLayerInfo (digestFromBytes E c) (size_of c)))
                       (mkDescriptor MediaTypeImageLayer (digestFromBytes E c) (size_of c))).
      { exists c. split; [|done]. simpl. rewrite blob_contents_app. set_solver. }
      split; [split|split; [|done]]; simpl.
      * rewrite blob_contents_app. simpl. apply NoDup_app. split; [by apply (ok_nodup _ _ Hok)|].
        split; [|apply NoDup_singleton]. intros x Hx Hx'. apply list_elem_of_singleton in Hx' as ->. done.
      * intros x Hx. rewrite blob_contents_app in Hx. simpl in Hx.
        apply elem_of_app in Hx as [Hx|Hx].
        -- destruct (ok_origin _ _ Hok x Hx) as [?|(chain & ly' & Hly' & Heq & Hcached)];
             [by left|right].
           exists chain, ly'. split; [done|]. split; [done|].
           destruct (decide (layer_DiffID ly = layer_DiffID ly')) as [->|Hne].
           ++ rewrite lookup_insert_eq. eauto.
           ++ by rewrite lookup_insert_ne.
        -- apply list_elem_of_singleton in Hx as ->. right.
           exists (CreateChainID E (take (S i) diffIDs)), ly.
           split; [exact Hly|]. split; [done|]. rewrite lookup_insert_eq. eauto.
      * apply (ok_saved _ _ Hok).
      * intros dd info. destruct (decide (layer_DiffID ly = dd)) as [<-|Hne].
        -- rewrite lookup_insert_eq. intros [= <-]. exact Hnew.
        -- rewrite lookup_insert_ne by done. intros Hdd.
           eapply put_for_mono; [|by apply (ok_cache _ _ Hok dd)]. exact Hgrow.
      * intros id mjson Hm. destruct (ok_manifests _ _ Hok id mjson Hm) as (m & -> & Hall).
        exists m. split; [done|]. intros d Hd. eapply put_for_mono; [|by apply Hall]. exact Hgrow.
      * intros d Hd. rewrite app_comm_cons in Hd. apply elem_of_app in Hd as [Hd|Hd].
        -- eapply put_for_mono; [|by apply Hput]. exact Hgrow.
        -- apply list_elem_of_singleton in Hd as ->. exact Hnew.
  - destruct Hstep as [e ->]. done.
Qed.

Lemma saveLayers_inv seen dest diffIDs idxs :
  forall ms,
  session_ok seen ms.2 ->
  (forall d, d ∈ Config ms.1 :: Layers ms.1 -> put_for ms.2 d) ->
  let out := foldS (saveLayer E l dest diffIDs) idxs ms in
  session_ok seen out.2.2
  /\ (forall d, d ∈ Config out.2.1 :: Layers out.2.1 -> put_for out.2.2 d)
  /\ savedImages out.2.2 = savedImages ms.2.
Proof.
  induction idxs as [|i idxs IH]; intros ms Hok Hput out; subst out; [done|].
  cbn [foldS].
  pose proof (saveLayer_inv seen dest diffIDs i ms Hok Hput) as (Hok1 & Hput1 & Hsv1).
  cbv zeta in Hok1, Hput1, Hsv1.
  destruct (saveLayer E l dest diffIDs i ms) as [[[]|e] ms1]; simpl in Hok1, Hput1, Hsv1.
  - destruct (IH ms1 Hok1 Hput1) as (Hok2 & Hput2 & Hsv2).
    split; [done|]. split; [done|]. by rewrite Hsv2.
  - done.
Qed.

Lemma session_ok_same_blobs seen s s' :
  blob_contents (calls s') = blob_contents (calls s) ->
  diffIDsCache s' = diffIDsCache s -> savedImages s' = savedImages s ->
  session_ok seen s -> session_ok seen s'.
Proof.
  intros Hb Hc Hs [H1 H2 H3 H4 H5].
  assert (Hput : forall d, put_for s d -> put_for s' d).
  { intros d. apply put_for_mono. intros c. by rewrite Hb. }
  split.
  - by rewrite Hb.
  - intros c. rewrite Hb, Hc. apply H2.
  - intros id. rewrite Hs. apply H3.
  - intros dd info. rewrite Hc. intros Hdd. by apply Hput, (H4 dd).
  - intros id mjson. rewrite Hs. intros Hm. destruct (H5 id mjson Hm) as (m & -> & Hall).
    exists m. split; [done|]. intros d Hd. by apply Hput, Hall.
Qed.

Lemma PutManifest_ok seen dest m s :
  session_ok seen s -> session_ok seen (PutManifest E dest m s).
Proof.
  apply session_ok_same_blobs; [|done..]. simpl. rewrite blob_contents_app. apply app_nil_r.
Qed.

Lemma saveImage_inv seen id dest s :
  session_ok seen s -> (id ∈ seen -> is_Some (savedImages s !! id)) ->
  let out := saveImage E l id dest s in
  session_ok ({[id]} ∪ seen) out.2
  /\ (is_ok out.1 = true -> is_Some (savedImages out.2 !! id)).
Proof.
  intros Hok Hseen out. subst out.
  assert (Hmono : session_ok ({[id]} ∪ seen) s).
  { apply (session_ok_mono seen); [set_solver|done]. }
  unfold saveImage. destruct (savedImages s !! id) as [m|] eqn:Hsaved.
  - simpl. split; [by apply PutManifest_ok|]. intros _. rewrite Hsaved. eauto.
  - assert (Hnew : id ∉ seen).
    { intros Hin. destruct (Hseen Hin) as [? ?]. congruence. }
    destruct (is_Get E (l_is l) id) as [img|e] eqn:Hget; [|done].
    cbv zeta. destruct (List.length (DiffIDs (img_RootFS img)) =? 0); [done|].
    apply is_Get_lookup in Hget. set (raw := RawJSON img) in *.
    assert (Hfresh : raw ∉ blob_contents (calls s)).
    { intros Hc. destruct (ok_origin _ _ Hok raw Hc) as [(id' & Hid' & Hraw)|Hlayer].
      - apply is_addressed in Hraw. apply is_addressed in Hget. congruence.
      - destruct Hlayer as (chain & ly & Hly & Heq & _).
        exact (config_not_gzip id raw chain ly Hget Hly Heq). }
    assert (Hgrow : forall c, c ∈ blob_contents (calls s) ->
                      c ∈ blob_contents (calls (PutBlob E dest raw s).2)).
    { intros c Hc. simpl. rewrite blob_contents_app. set_solver. }
    assert (Hok1 : session_ok ({[id]} ∪ seen) (PutBlob E dest raw s).2).
    { split; simpl.
      - rewrite blob_contents_app. simpl. apply NoDup_app.
        split; [by apply (ok_nodup _ _ Hok)|]. split; [|apply NoDup_singleton].
        intros x Hx Hx'. apply list_elem_of_singleton in Hx' as ->. done.
      - intros c Hc. rewrite blob_contents_app in Hc. simpl in Hc.
        apply elem_of_app in Hc as [Hc|Hc].
        + by apply (ok_origin _ _ Hmono).
        + apply list_elem_of_singleton in Hc as ->. left. exists id. split; [set_solver|done].
      - apply (ok_saved _ _ Hmono).
      - intros dd info Hdd. eapply put_for_mono; [exact Hgrow|]. by apply (ok_cache _ _ Hok dd).
      - intros id' mjson Hm. destruct (ok_manifests _ _ Hok id' mjson Hm) as (m & -> & Hall).
        exists m. split; [done|]. intros d Hd. eapply put_for_mono; [exact Hgrow|]. by apply Hall. }
    assert (Hput1 : forall d,
              d ∈ Config (manifest_of_config (PutBlob E dest raw s).1.1 (PutBlob E dest raw s).1.2)
                  :: Layers (manifest_of_config (PutBlob E dest raw s).1.1
                               (PutBlob E dest raw s).1.2) ->
              put_for (PutBlob E dest raw s).2 d).
    { intros d Hd. simpl in Hd. apply list_elem_of_singleton in Hd as ->.
      exists raw. split; [|done]. simpl. rewrite blob_contents_app. set_solver. }
    pose proof (saveLayers_inv ({[id]} ∪ seen) dest (DiffIDs (img_RootFS img))
                  (seq 0 (List.length (DiffIDs (img_RootFS img))))
                  (manifest_of_config (PutBlob E dest raw s).1.1 (PutBlob E dest raw s).1.2,
                   (PutBlob E dest raw s).2) Hok1 Hput1) as (Hok2 & Hput2 & Hsv2).
    cbv zeta in Hok2, Hput2, Hsv2.
    destruct (foldS _ _ _) as [[[]|e] ms]; simpl in Hok2, Hput2, Hsv2 |- *; [|done].
    split; [|intros _; rewrite lookup_insert_eq; eauto].
    assert (Hok3 : session_ok ({[id]} ∪ seen) (PutManifest E dest (marshalManifest E ms.1) ms.2))
      by (by apply PutManifest_ok).
    destruct Hok3 as [H1 H2 H3 H4 H5]. split; simpl in *; try done.
    + intros id' [m' Hm']. destruct (decide (id = id')) as [<-|Hne]; [set_solver|].
      rewrite lookup_insert_ne in Hm' by done. apply H3. eauto.
    + intros id' mjson. destruct (decide (id = id')) as [<-|Hne].
      * rewrite lookup_insert_eq. intros [= <-]. exists ms.1. split; [done|].
        intros d Hd. eapply put_for_mono; [|by apply Hput2].
        intros c Hc. simpl. rewrite blob_contents_app. set_solver.
      * rewrite lookup_insert_ne by done. apply H5.
Qed.

Lemma save_ref_inv seen id n s :
  session_ok seen s -> (id ∈ seen -> is_Some (savedImages s !! id)) ->
  let out := save_ref E l id n s in
  session_ok ({[id]} ∪ seen) out.2
  /\ (is_ok out.1 = true -> is_Some (savedImages out.2 !! id)).
Proof.
  intros Hok Hseen. unfold save_ref, oci_NewReference.
  destruct (ociRefRegexp_MatchString n); [by apply saveImage_inv|].
  simpl. split; [|done]. apply (session_ok_mono seen); [set_solver|done].
Qed.

Lemma save_refs_inv id names :
  forall seen s,
  session_ok seen s -> (id ∈ seen -> is_Some (savedImages s !! id)) ->
  session_ok ({[id]} ∪ seen) (foldS (save_ref E l id) names s).2.
Proof.
  induction names as [|n names IH]; intros seen s Hok Hseen.
  - simpl. apply (session_ok_mono seen); [set_solver|done].
  - cbn [foldS]. pose proof (save_ref_inv seen id n s Hok Hseen) as [Hok1 Hsaved1].
    cbv zeta in Hok1, Hsaved1.
    destruct (save_ref E l id n s) as [[[]|e] s1]; simpl in Hok1, Hsaved1 |- *; [|done].
    apply (session_ok_mono ({[id]} ∪ ({[id]} ∪ seen))); [set_solver|].
    apply IH; [done|]. intros _. by apply Hsaved1.
Qed.

Lemma save_entry_inv seen entry s :
  session_ok seen s -> entry.1 ∉ seen ->
  session_ok ({[entry.1]} ∪ seen) (save_entry E l entry s).2.
Proof.
  intros Hok Hnew. destruct entry as [id info]. simpl in Hnew |- *.
  unfold save_entry. rewrite (foldS_fmap nt_tag (save_ref E l id)).
  destruct (refs info) as [|r rs] eqn:Hrefs.
  - simpl. destruct (digest_Hex id) as [hex|e]; simpl.
    + by destruct (save_ref_inv seen id hex s Hok (fun H => False_rect _ (Hnew H))) as [H _].
    + apply (session_ok_mono seen); [set_solver|done].
  - pose proof (save_refs_inv id (nt_tag <$> r :: rs) seen s Hok (fun H => False_rect _ (Hnew H)))
      as Hok1.
    by destruct (foldS (save_ref E l id) (nt_tag <$> r :: rs) s) as [[[]|e] s1].
Qed.

Lemma save_entries_inv entries :
  forall seen s,
  NoDup entries.*1 -> (forall id, id ∈ entries.*1 -> id ∉ seen) ->
  session_ok seen s ->
  session_ok (list_to_set entries.*1 ∪ seen) (foldS (save_entry E l) entries s).2.
Proof.
  induction entries as [|entry entries IH]; intros seen s Hnd Hnew Hok.
  - simpl. apply (session_ok_mono seen); [set_solver|done].
  - cbn [foldS]. rewrite fmap_cons in Hnd, Hnew. apply NoDup_cons in Hnd as [Hhd Hnd].
    assert (Hok1 : session_ok ({[entry.1]} ∪ seen) (save_entry E l entry s).2).
    { apply save_entry_inv; [done|]. apply Hnew. by left. }
    destruct (save_entry E l entry s) as [[[]|e] s1]; simpl in Hok1 |- *.
    + apply (session_ok_mono (list_to_set entries.*1 ∪ ({[entry.1]} ∪ seen))); [set_solver|].
      apply IH; [done| |done].
      intros id Hid. apply not_elem_of_union. split; [|apply Hnew; by right].
      apply not_elem_of_singleton. intros ->. done.
    + eapply session_ok_mono; [|exact Hok1]. set_solver.
Qed.

(** *** The manifest of an image saved before *)

Lemma kept_insert (blobs : gmap Digest bytes) (c mjson : bytes) :
  blobs !! digestFromBytes E mjson = Some mjson ->
  <[digestFromBytes E c := c]> blobs !! digestFromBytes E mjson = Some mjson.
Proof.
  intros Hm. destruct (decide (digestFromBytes E c = digestFromBytes E mjson)) as [Heq|Hne].
  - rewrite Heq, lookup_insert_eq. f_equal. by apply digest_inj.
  - by rewrite lookup_insert_ne.
Qed.

Lemma manifests_kept_PutBlob dest c s :
  manifests_kept s -> manifests_kept (PutBlob E dest c s).2.
Proof.
  intros [Hb Hm]. split; simpl; [|exact Hm].
  intros id mjson Hid. apply kept_insert. by apply (Hb id).
Qed.

Lemma manifests_kept_saveLayer dest diffIDs i ms :
  manifests_kept ms.2 -> manifests_kept (saveLayer E l dest diffIDs i ms).2.2.
Proof.
  intros Hk. pose proof (saveLayer_step E l dest diffIDs i ms) as Hstep.
  destruct (l_ls l !! CreateChainID E (take (S i) diffIDs)) as [ly|].
  - destruct (diffIDsCache ms.2 !! layer_DiffID ly) as [info|]; rewrite Hstep; simpl; [done|].
    destruct (manifests_kept_PutBlob dest (gzip E (layer_tar ly)) ms.2 Hk) as [Hb Hm].
    split; [exact Hb|exact Hm].
  - destruct Hstep as [e ->]. done.
Qed.

Lemma manifests_kept_saveImage id dest s :
  manifests_kept s -> manifests_kept (saveImage E l id dest s).2.
Proof.
  intros Hk. unfold saveImage. destruct (savedImages s !! id) as [m|] eqn:Hsaved.
  - simpl. destruct Hk as [Hb Hm]. split; simpl; [|done].
    intros id' mjson Hid'. apply kept_insert. by apply (Hb id').
  - destruct (is_Get E (l_is l) id) as [img|e]; [|done]. cbv zeta.
    destruct (List.length (DiffIDs (img_RootFS img)) =? 0); [done|].
    pose proof (foldS_invariant (fun ms : Manifest * ociSaveSession => manifests_kept ms.2)
                  (saveLayer E l dest (DiffIDs (img_RootFS img)))
                  (seq 0 (List.length (DiffIDs (img_RootFS img))))
                  (fun i ms _ => manifests_kept_saveLayer dest _ i ms)
                  (manifest_of_config (PutBlob E dest (RawJSON img) s).1.1
                     (PutBlob E dest (RawJSON img) s).1.2,
                   (PutBlob E dest (RawJSON img) s).2)
                  (manifests_kept_PutBlob dest (RawJSON img) s Hk)) as Hloop.
    destruct (foldS _ _ _) as [[[]|e] ms]; simpl in Hloop |- *; [|done].
    destruct Hloop as [Hb Hm]. split; simpl; [|done].
    intros id' mjson. destruct (decide (id = id')) as [<-|Hne].
    + rewrite lookup_insert_eq. intros [= <-]. by rewrite lookup_insert_eq.
    + rewrite lookup_insert_ne by done. intros Hid'. apply kept_insert. by apply (Hb id').
Qed.

Lemma in_session_kept s : in_session s -> manifests_kept s.
Proof.
  induction 1 as [|id dest s _ IH].
  - split; intros id mjson Hid; simpl in Hid; by rewrite lookup_empty in Hid.
  - by apply manifests_kept_saveImage.
Qed.

(** C7 (as the code has it).  With content-addressed stores, in a save
    session, finished or failed:  (1) no two [PutBlob] calls carried blobs of
    the same digest;  (2) every descriptor of a manifest built in the
    session, the one of its configuration and those of its layers, names a
    blob that was put, with that size;  (3) the session ends in one of the
    states [in_session], and in such a state, for an image whose manifest is
    cached, that is for every reference of an image after its first,
    [saveImage] puts no blob: it hands the cached manifest to [PutManifest]
    once more, which writes it again under the digest it already lies under,
    so that the blobs and the marker of the directory are what they were and
    only the file under [refs/] is set;  (4) a layer whose DiffID is cached is
    not compressed again: its descriptor takes the cached digest and size,
    and the session is left as it is. *)
Theorem save_puts_each_blob_once
    (rng : gmap ID imageDescriptor -> list (ID * imageDescriptor))
    (images : gmap ID imageDescriptor) :
  RangeOrder rng ->
  let s := (save E rng l images).2 in
  NoDup (digestFromBytes E <$> blob_contents (calls s))
  /\ (forall id mjson, savedImages s !! id = Some mjson ->
        exists m, mjson = marshalManifest E m
                  /\ forall d, d ∈ Config m :: Layers m -> put_for s d)
  /\ in_session s
  /\ (forall s0 id dest mjson,
        in_session s0 ->
        savedImages s0 !! id = Some mjson ->
        let s1 := (saveImage E l id dest s0).2 in
        saveImage E l id dest s0 = (Ok tt, PutManifest E dest mjson s0)
        /\ blob_contents (calls s1) = blob_contents (calls s0)
        /\ manifest_contents (calls s1) = manifest_contents (calls s0) ++ [mjson]
        /\ dir_blobs (tempDir s1) = dir_blobs (tempDir s0)
        /\ dir_layout (tempDir s1) = dir_layout (tempDir s0)
        /\ dir_refs (tempDir s1)
           = <[dest := marshalDescriptor E
                         (mkDescriptor MediaTypeImageManifest (digestFromBytes E mjson)
                            (size_of mjson))]> (dir_refs (tempDir s0))
        /\ savedImages s1 = savedImages s0
        /\ diffIDsCache s1 = diffIDsCache s0)
  /\ (forall s0 dest diffIDs i m ly info,
        l_ls l !! CreateChainID E (take (S i) diffIDs) = Some ly ->
        diffIDsCache s0 !! layer_DiffID ly = Some info ->
        saveLayer E l dest diffIDs i (m, s0)
        = (Ok tt,
           (append_layer m (mkDescriptor MediaTypeImageLayer (li_digest info) (li_size info)),
            s0))).
Proof.
  intros Hrng s.
  assert (Hinit : session_ok ∅ (mkSession ∅ ∅ emptyDir [])).
  { split; simpl.
    - constructor.
    - intros c Hc. by apply elem_of_nil in Hc.
    - intros id [m Hm]. by rewrite lookup_empty in Hm.
    - intros dd info Hdd. by rewrite lookup_empty in Hdd.
    - intros id mjson Hm. by rewrite lookup_empty in Hm. }
  assert (Hnd : NoDup (rng images).*1).
  { rewrite (Hrng images). apply NoDup_fst_map_to_list. }
  pose proof (save_entries_inv (rng images) ∅ _ Hnd (fun id _ => not_elem_of_empty id) Hinit)
    as Hfinal.
  assert (Hs : s = (foldS (save_entry E l) (rng images) (mkSession ∅ ∅ emptyDir [])).2).
  { subst s. unfold save. by destruct (foldS _ _ _) as [[[]|e] s1]. }
  rewrite <- Hs in Hfinal.
  split; [|split; [|split; [|split]]].
  - apply NoDup_fmap_2; [exact digest_inj|]. apply (ok_nodup _ _ Hfinal).
  - apply (ok_manifests _ _ Hfinal).
  - apply save_in_session.
  - intros s0 id dest mjson Hin Hsaved s1.
    assert (Hstep : saveImage E l id dest s0 = (Ok tt, PutManifest E dest mjson s0)).
    { unfold saveImage. by rewrite Hsaved. }
    subst s1. rewrite Hstep. destruct (in_session_kept s0 Hin) as [Hb Hm].
    split; [done|]. simpl.
    split; [rewrite blob_contents_app; apply app_nil_r|].
    split; [by rewrite manifest_contents_app|].
    split; [apply insert_id; by apply (Hb id)|].
    split; [symmetry; by apply (Hm id mjson)|]. done.
  - intros s0 dest diffIDs i m ly info Hly Hcache.
    pose proof (saveLayer_step E l dest diffIDs i (m, s0)) as Hstep.
    rewrite Hly in Hstep. simpl in Hstep. by rewrite Hcache in Hstep.
Qed.

End Addressed.
End Save_blobs.

Section Save_blobs_examples.
Import Fixture.

Lemma fx_digest_inj : Inj (=) (=) fx_digest.
Proof. unfold fx_digest. apply _. Qed.

Lemma fx_gzip_inj : Inj (=) (=) fx_gzip.
Proof. unfold fx_gzip. apply _. Qed.

Lemma fx_is_addressed : forall id raw, fx_is !! id = Some raw -> fx_digest raw = id.
Proof.
  change (map_Forall (fun id raw => fx_digest raw = id) fx_is).
  apply (bool_decide_unpack _). vm_compute. exact I.
Qed.

Lemma fx_ls_addressed : forall chain ly,
  fx_ls !! chain = Some ly -> layer_DiffID ly = fx_digest (layer_tar ly).
Proof.
  change (map_Forall (fun (_ : string) ly => layer_DiffID ly = fx_digest (layer_tar ly)) fx_ls).
  apply (bool_decide_unpack _). vm_compute. exact I.
Qed.

Lemma fx_config_not_gzip : forall id raw chain ly,
  fx_is !! id = Some raw -> fx_ls !! chain = Some ly -> raw <> fx_gzip (layer_tar ly).
Proof.
  assert (H : map_Forall (fun (_ : string) raw =>
                map_Forall (fun (_ : string) ly => raw <> fx_gzip (layer_tar ly)) fx_ls) fx_is).
  { apply (bool_decide_unpack _). vm_compute. exact I. }
  intros id raw chain ly Hraw Hly. exact (H id raw Hraw chain ly Hly).
Qed.

(** The session after [busybox] was saved under [latest]. *)
Definition saved_latest : ociSaveSession :=
  (saveImage env (exporter ∅) id_busybox "latest" (mkSession ∅ ∅ emptyDir [])).2.

Lemma saved_latest_cached : is_Some (savedImages saved_latest !! id_busybox).
Proof. vm_compute. eexists. reflexivity. Qed.

(** C7 (the claim fails for the manifest blob).  In the session over
    [shared_images], [busybox] is saved under [latest] and then under
    [12.04]: [PutManifest] is called with its manifest for each of the two
    references, so the manifest blob is written with the second reference as
    it was with the first. *)
Lemma save_writes_manifest_per_reference :
  RangeOrder (@rng_fwd ID _ _ imageDescriptor)
  /\ is_ok (save env rng_fwd (exporter ∅) shared_images).1 = true
  /\ manifest_dests (calls (save env rng_fwd (exporter ∅) shared_images).2)
     = ["fb0"; "latest"; "12.04"]
  /\ is_Some (savedImages (save env rng_fwd (exporter ∅) shared_images).2 !! id_busybox)
  /\ manifest_contents (calls (save env rng_fwd (exporter ∅) shared_images).2) !! 1
     = savedImages (save env rng_fwd (exporter ∅) shared_images).2 !! id_busybox
  /\ manifest_contents (calls (save env rng_fwd (exporter ∅) shared_images).2) !! 2
     = savedImages (save env rng_fwd (exporter ∅) shared_images).2 !! id_busybox
  /\ ~ NoDup (manifest_contents (calls (save env rng_fwd (exporter ∅) shared_images).2)).
Proof.
  split; [apply rng_fwd_order|].
  split; [vm_compute; reflexivity|]. split; [vm_compute; reflexivity|].
  assert (Hsome : is_Some (savedImages (save env rng_fwd (exporter ∅) shared_images).2
                              !! id_busybox)) by (vm_compute; eexists; reflexivity).
  split; [exact Hsome|].
  assert (H1 : manifest_contents (calls (save env rng_fwd (exporter ∅) shared_images).2) !! 1
               = savedImages (save env rng_fwd (exporter ∅) shared_images).2 !! id_busybox)
    by (vm_compute; reflexivity).
  assert (H2 : manifest_contents (calls (save env rng_fwd (exporter ∅) shared_images).2) !! 2
               = savedImages (save env rng_fwd (exporter ∅) shared_images).2 !! id_busybox)
    by (vm_compute; reflexivity).
  split; [exact H1|]. split; [exact H2|].
  intros Hnd. destruct Hsome as [m Hm]. rewrite Hm in H1, H2.
  pose proof (NoDup_lookup _ 1 2 m Hnd H1 H2) as Heq. discriminate Heq.
Qed.

(** The session over [shared_images]: four blobs are put for the two
    configurations and the two layers, the shared layer once, and three
    manifests are handed over, two of them the same.  Saving [busybox] under
    [12.04] after [latest] leaves the blobs of the directory as they are. *)
Lemma save_puts_each_blob_once_example :
  Inj (=) (=) (digestFromBytes env)
  /\ RangeOrder (@rng_fwd ID _ _ imageDescriptor)
  /\ NoDup (digestFromBytes env
           <$> blob_contents (calls (save env rng_fwd (exporter ∅) shared_images).2))
  /\ blob_contents (calls (save env rng_fwd (exporter ∅) shared_images).2)
     = [cfg_frombusybox0; fx_gzip tarA; fx_gzip tarB; cfg_busybox]
  /\ manifest_dests (calls (save env rng_fwd (exporter ∅) shared_images).2)
     = ["fb0"; "latest"; "12.04"]
  /\ in_session env (exporter ∅) saved_latest
  /\ dir_blobs (tempDir (saveImage env (exporter ∅) id_busybox "12.04" saved_latest).2)
     = dir_blobs (tempDir saved_latest).
Proof.
  assert (Hin : in_session env (exporter ∅) saved_latest)
    by (unfold saved_latest; do 2 constructor).
  destruct saved_latest_cached as [mjson Hm].
  destruct (save_puts_each_blob_once env (exporter ∅) fx_digest_inj fx_gzip_inj
              fx_is_addressed fx_ls_addressed fx_config_not_gzip
              rng_fwd shared_images rng_fwd_order) as (Hnd & _ & _ & Hlater & _).
  split; [exact fx_digest_inj|]. split; [apply rng_fwd_order|].
  split; [exact Hnd|]. split; [vm_compute; reflexivity|]. split; [vm_compute; reflexivity|].
  split; [exact Hin|].
  exact (proj1 (proj2 (proj2 (proj2 (Hlater saved_latest id_busybox "12.04" mjson Hin Hm))))).
Defined.

End Save_blobs_examples.

(** ** The round trip: an archive written by [save] loads back *)

(** The layer the store holds for each prefix of [diffIDs] has the DiffID
    the list gives it. *)
Definition layers_consistent (E : Env) (ls : gmap ChainID Layer) (diffIDs : list DiffID) : Prop :=
  forall i d ly,
    diffIDs !! i = Some d ->
    ls !! CreateChainID E (take (S i) diffIDs) = Some ly ->
    layer_DiffID ly = d.

(** The prefixes of [diffIDs] with one chain ID end in one DiffID. *)
Definition chains_distinct (E : Env) (diffIDs : list DiffID) : Prop :=
  forall i j di dj,
    diffIDs !! i = Some di -> diffIDs !! j = Some dj ->
    CreateChainID E (take (S i) diffIDs) = CreateChainID E (take (S j) diffIDs) ->
    di = dj.

Lemma layers_consistent_empty (E : Env) (diffIDs : list DiffID) :
  layers_consistent E ∅ diffIDs.
Proof. intros i d ly _ Hly. by rewrite lookup_empty in Hly. Qed.

Section Roundtrip.
Context (E : Env).

(** The blob [c] lies in the directory under its digest. *)
Definition staged (dir : OciDir) (c : bytes) : Prop :=
  dir_blobs dir !! digestFromBytes E c = Some c.

(** The descriptor names the staged gzip of a tar whose digest is [dd]. *)
Definition layer_staged (dir : OciDir) (d : Descriptor) (dd : DiffID) : Prop :=
  exists t, desc_Digest d = digestFromBytes E (gzip E t)
            /\ staged dir (gzip E t) /\ digestFromBytes E t = dd.

(** The directory holds the image of configuration [raw] and diff IDs
    [diffIDs] under the names [names], with the manifest [m]. *)
Definition archived_with (m : Manifest) (dir : OciDir) (raw : bytes)
    (diffIDs : list DiffID) (names : list string) : Prop :=
  desc_Digest (Config m) = digestFromBytes E raw
  /\ staged dir raw
  /\ Forall2 (layer_staged dir) (Layers m) diffIDs
  /\ staged dir (marshalManifest E m)
  /\ forall name,
       dir_refs dir !! name =
       if decide (name ∈ names)
       then Some (marshalDescriptor E
                    (mkDescriptor MediaTypeImageManifest
                       (digestFromBytes E (marshalManifest E m))
                       (size_of (marshalManifest E m))))
       else None.

Lemma createChainIDFromParent_app parent xs ys :
  createChainIDFromParent E parent (xs ++ ys)
  = createChainIDFromParent E (createChainIDFromParent E parent xs) ys.
Proof.
  revert parent. induction xs as [|x xs IH]; intros parent; [done|].
  simpl. destruct (String.eqb parent EmptyString); apply IH.
Qed.

Lemma CreateChainID_snoc pre d :
  CreateChainID E (pre ++ [d]) = createChainIDFromParent E (CreateChainID E pre) [d].
Proof. apply createChainIDFromParent_app. Qed.

Lemma take_S_prefix {A} (pre todo : list A) (d : A) :
  take (S (List.length pre)) (pre ++ d :: todo) = pre ++ [d].
Proof.
  induction pre as [|x pre IH]; simpl; [by rewrite take_0|]. by rewrite IH.
Qed.

Section Assumptions.
(** Digests tell blobs apart and are written "<algo>:<hex>";
    decompression undoes gzip, and decoding undoes encoding. *)
Hypothesis digest_inj : Inj (=) (=) (digestFromBytes E).
Hypothesis digest_wf : forall b, is_Some (after_colon (digestFromBytes E b)).
Hypothesis decompress_gzip : forall b, decompress E (gzip E b) = Ok b.
Hypothesis manifest_codec : forall m, unmarshalManifest E (marshalManifest E m) = Some m.
Hypothesis descriptor_codec : forall d, unmarshalDescriptor E (marshalDescriptor E d) = Some d.

Lemma blob_path_digest b : blob_path (digestFromBytes E b) = Ok (digestFromBytes E b).
Proof. unfold blob_path. by destruct (digest_wf b) as [hex ->]. Qed.

(** *** Loading *)

(** The parent of the next layer is no layer at all, or in the store. *)
Definition parent_ok (ls : gmap ChainID Layer) (pre : list DiffID) : Prop :=
  CreateChainID E pre = EmptyString \/ is_Some (ls !! CreateChainID E pre).

Lemma loadLayers_ok dir m diffIDs :
  Forall2 (layer_staged dir) (Layers m) diffIDs ->
  chains_distinct E diffIDs ->
  forall todo pre rootFS st,
  diffIDs = pre ++ todo ->
  DiffIDs rootFS = pre ->
  layers_consistent E (ld_ls st) diffIDs ->
  parent_ok (ld_ls st) pre ->
  exists st',
    loadLayers E dir m (List.length pre) todo rootFS st = (Ok tt, st')
    /\ layers_consistent E (ld_ls st') diffIDs
    /\ same_but_layers st st'.
Proof.
  intros Hstaged Hdistinct. induction todo as [|d todo IH]; intros pre rootFS st Hds Hroot Hcons Hparent.
  - exists st. split; [done|]. split; [done|]. apply same_but_layers_refl.
  - assert (Hi : diffIDs !! List.length pre = Some d).
    { rewrite Hds. by rewrite list_lookup_middle. }
    destruct (Forall2_lookup_r _ _ _ _ _ Hstaged Hi) as (desc & Hdesc & t & Hdg & Hst & Ht).
    cbn [loadLayers]. rewrite Hdesc, Hdg, blob_path_digest.
    assert (Hchain : rootfs_ChainID E (rootfs_Append rootFS d)
                     = CreateChainID E (take (S (List.length pre)) diffIDs)).
    { unfold rootfs_ChainID, rootfs_Append. simpl. by rewrite Hroot, Hds, take_S_prefix. }
    assert (Hnext : forall st1 ly,
              layers_consistent E (ld_ls st1) diffIDs ->
              ld_ls st1 !! CreateChainID E (take (S (List.length pre)) diffIDs) = Some ly ->
              same_but_layers st st1 ->
              exists st',
                loadLayers E dir m (S (List.length pre)) todo (rootfs_Append rootFS d)
                  (defer_release st1 ly) = (Ok tt, st')
                /\ layers_consistent E (ld_ls st') diffIDs
                /\ same_but_layers st st').
    { intros st1 ly Hcons1 Hly Hfr.
      destruct (IH (pre ++ [d]) (rootfs_Append rootFS d) (defer_release st1 ly))
        as (st' & Hload & Hcons' & Hfr').
      - by rewrite <- app_assoc.
      - simpl. by rewrite Hroot.
      - done.
      - right. simpl. rewrite <- (take_S_prefix pre todo d), <- Hds. eauto.
      - exists st'. rewrite length_app, Nat.add_1_r in Hload. split; [done|]. split; [done|].
        eapply same_but_layers_trans; [exact Hfr|].
        eapply same_but_layers_trans; [|exact Hfr'].
        by repeat split. }
    unfold hydrate, ls_Get. rewrite Hchain.
    destruct (ld_ls st !! CreateChainID E (take (S (List.length pre)) diffIDs)) as [ly|] eqn:Hly.
    + rewrite bool_decide_eq_true_2 by (symmetry; exact (Hcons _ _ _ Hi Hly)).
      apply Hnext; [done|done|apply same_but_layers_refl].
    + unfold loadLayer, read_file. rewrite Hst, decompress_gzip.
      unfold ls_Register. unfold rootfs_ChainID. rewrite Hroot.
      assert (Hcheck : negb (String.eqb (CreateChainID E pre) EmptyString)
                       && negb (bool_decide (is_Some (ld_ls st !! CreateChainID E pre))) = false).
      { destruct Hparent as [->|Hsome]; [done|].
        rewrite (bool_decide_eq_true_2 _ Hsome). apply andb_false_r. }
      rewrite Hcheck, Ht, <- CreateChainID_snoc, <- (take_S_prefix pre todo d), <- Hds, Hly.
      simpl. rewrite bool_decide_eq_true_2 by done.
      apply Hnext.
      * intros j dj lyj Hj. simpl.
        destruct (decide (CreateChainID E (take (S (List.length pre)) diffIDs)
                          = CreateChainID E (take (S j) diffIDs))) as [Heq|Hne].
        -- rewrite Heq, lookup_insert_eq. intros [= <-]. simpl.
           exact (Hdistinct _ _ _ _ Hi Hj Heq).
        -- rewrite lookup_insert_ne by done. by apply Hcons.
      * simpl. by rewrite lookup_insert_eq.
      * by repeat split.
Qed.

Section Loading.
Context (dir : OciDir) (m : Manifest) (raw : bytes) (rootfs : RootFS) (names : list string).
Hypothesis Harchived : archived_with m dir raw (DiffIDs rootfs) names.
Hypothesis Hconfig : parseConfig E raw = Some rootfs.
Hypothesis Hdistinct : chains_distinct E (DiffIDs rootfs).

Lemma loadManifest_ok name st :
  layers_consistent E (ld_ls st) (DiffIDs rootfs) ->
  exists st',
    loadManifest E dir (name, m) st = (Ok tt, st')
    /\ layers_consistent E (ld_ls st') (DiffIDs rootfs)
    /\ ld_is st' = <[digestFromBytes E raw := raw]> (ld_is st)
    /\ ld_events st'
       = ld_events st ++ [(digestFromBytes E raw, digestFromBytes E raw, "load")]
    /\ imageRefCount st' = 0
    /\ ld_out st' = ld_out st.
Proof.
  intros Hcons. destruct Harchived as (Hcfg & Hraw & Hlayers & _ & _).
  unfold loadManifest, manifest_config. rewrite Hcfg, blob_path_digest. simpl.
  unfold read_file. rewrite Hraw. simpl. unfold NewFromJSON at 1. rewrite Hconfig. simpl.
  rewrite (Forall2_length _ _ _ Hlayers), Nat.eqb_refl. simpl.
  destruct (loadLayers_ok dir m (DiffIDs rootfs) Hlayers Hdistinct (DiffIDs rootfs) []
              (mkRootFS (rootfs_Type rootfs) []) st eq_refl eq_refl Hcons (or_introl eq_refl))
    as (st1 & Hload & Hcons1 & Hfr).
  simpl in Hload. rewrite Hload.
  unfold is_Create, NewFromJSON. rewrite Hconfig.
  destruct Hfr as (His & _ & Hout & Hev & _ & _).
  eexists. split; [reflexivity|]. simpl. by rewrite His, Hev, Hout.
Qed.

Lemma loadManifests_ok entries :
  (forall e, e ∈ entries -> e.2 = m) ->
  forall st,
  layers_consistent E (ld_ls st) (DiffIDs rootfs) -> imageRefCount st = 0 ->
  exists st',
    foldS (loadManifest E dir) entries st = (Ok tt, st')
    /\ layers_consistent E (ld_ls st') (DiffIDs rootfs)
    /\ ld_is st' = match entries with
                   | [] => ld_is st
                   | _ => <[digestFromBytes E raw := raw]> (ld_is st)
                   end
    /\ ld_events st'
       = ld_events st
         ++ replicate (List.length entries)
              (digestFromBytes E raw, digestFromBytes E raw, "load")
    /\ imageRefCount st' = 0.
Proof.
  induction entries as [|[name m'] entries IH]; intros Hall st Hcons Hcount.
  - exists st. simpl. by rewrite app_nil_r.
  - assert (m' = m) as -> by (apply (Hall (name, m')); by left).
    destruct (loadManifest_ok name st Hcons) as (st1 & Hload & Hcons1 & His1 & Hev1 & Hcount1 & _).
    destruct (IH (fun e He => Hall e (list_elem_of_further _ _ _ He)) st1 Hcons1 Hcount1)
      as (st' & Hrest & Hcons' & His' & Hev' & Hcount').
    exists st'. cbn [foldS]. rewrite Hload. split; [done|]. split; [done|].
    split; [|split; [|done]].
    + rewrite His', His1. destruct entries; [done|]. by rewrite insert_insert_eq.
    + rewrite Hev', Hev1. simpl. by rewrite <- app_assoc.
Qed.

Lemma walk_ok ks :
  (forall k, k ∈ ks -> k ∈ names) ->
  forall manifests,
  exists manifests',
    foldR (walk_ref E dir) ks manifests = Ok manifests'
    /\ forall name,
         manifests' !! name = if decide (name ∈ ks) then Some m else manifests !! name.
Proof.
  destruct Harchived as (_ & _ & _ & Hmanifest & Hrefs).
  induction ks as [|k ks IH]; intros Hks manifests.
  - exists manifests. split; [done|]. intros name. by rewrite decide_False by apply not_elem_of_nil.
  - assert (Hstep : walk_ref E dir manifests k = Ok (<[k := m]> manifests)).
    { unfold walk_ref, read_file. rewrite Hrefs.
      rewrite decide_True by (apply Hks; by left). simpl.
      rewrite descriptor_codec. simpl. rewrite blob_path_digest. simpl.
      rewrite Hmanifest. simpl. by rewrite manifest_codec. }
    destruct (IH (fun k' Hk' => Hks k' (list_elem_of_further _ _ _ Hk')) (<[k := m]> manifests))
      as (manifests' & Hfold & Hlook).
    exists manifests'. cbn [foldR]. rewrite Hstep. simpl. split; [done|].
    intros name. rewrite Hlook. destruct (decide (name ∈ ks)) as [Hin|Hout].
    + by rewrite decide_True by (by right).
    + destruct (decide (name = k)) as [->|Hne].
      * rewrite lookup_insert_eq. by rewrite decide_True by (by left).
      * rewrite lookup_insert_ne by done. rewrite decide_False; [done|].
        intros Hin. apply elem_of_cons in Hin as [?|?]; done.
Qed.

(** An archive that holds the image under at least one name loads: the
    image store gains the image under the digest of its configuration, once
    per name. *)
Lemma loadOCI_ok rng st :
  RangeOrder rng -> names <> [] ->
  layers_consistent E (ld_ls st) (DiffIDs rootfs) ->
  exists st',
    loadOCI E rng dir st = (Ok tt, st')
    /\ ld_is st' = <[digestFromBytes E raw := raw]> (ld_is st)
    /\ exists k, 0 < k
         /\ ld_events st'
            = ld_events st ++ replicate k (digestFromBytes E raw, digestFromBytes E raw, "load").
Proof.
  intros Hrng Hnames Hcons.
  assert (Hrefs := proj2 (proj2 (proj2 (proj2 Harchived)))).
  assert (Hks : forall k, k ∈ walk_order dir <-> k ∈ names).
  { intros k. unfold walk_order. rewrite merge_sort_Permutation, list_elem_of_fmap. split.
    - intros ([k' v] & -> & Hin). apply elem_of_map_to_list in Hin. simpl.
      rewrite Hrefs in Hin. by destruct (decide (k' ∈ names)).
    - intros Hin. eexists (k, _). split; [done|]. apply elem_of_map_to_list.
      rewrite Hrefs. by rewrite decide_True. }
  destruct (walk_ok (walk_order dir) (fun k Hk => proj1 (Hks k) Hk) ∅)
    as (manifests & Hwalk & Hlook).
  unfold loadOCI. rewrite Hwalk.
  assert (Hall : forall e, e ∈ rng manifests -> e.2 = m).
  { intros [name m'] He. rewrite (Hrng manifests) in He. apply elem_of_map_to_list in He.
    rewrite Hlook in He. destruct (decide (name ∈ walk_order dir)); [by injection He|].
    by rewrite lookup_empty in He. }
  assert (Hne : rng manifests <> []).
  { destruct names as [|n names'] eqn:Hn; [done|]. rewrite <- Hn in *.
    assert (Hin : (n, m) ∈ rng manifests).
    { rewrite (Hrng manifests). apply elem_of_map_to_list. rewrite Hlook.
      rewrite decide_True; [done|]. apply Hks. rewrite Hn. by left. }
    intros Hnil. rewrite Hnil in Hin. by apply elem_of_nil in Hin. }
  destruct (loadManifests_ok (rng manifests) Hall
              (mkLoad (ld_is st) (ld_ls st) (ld_rs st) (ld_out st) (ld_events st)
                 (ld_deferred st) 0 EmptyString) Hcons eq_refl)
    as (st1 & Hfold & _ & His & Hev & Hcount).
  rewrite Hfold, Hcount. simpl. eexists. split; [reflexivity|]. simpl.
  split.
  - rewrite His. by destruct (rng manifests).
  - exists (List.length (rng manifests)). split; [|done].
    destruct (rng manifests); [done|simpl; lia].
Qed.

End Loading.
(** *** Saving *)

Lemma staged_insert blobs layout refs layout' refs' c c' :
  staged (mkDir layout refs blobs) c ->
  staged (mkDir layout' refs' (<[digestFromBytes E c' := c']> blobs)) c.
Proof.
  unfold staged. simpl. intros Hc.
  destruct (decide (digestFromBytes E c' = digestFromBytes E c)) as [Heq|Hne].
  - rewrite Heq, lookup_insert_eq. f_equal. by apply digest_inj.
  - by rewrite lookup_insert_ne.
Qed.

Lemma staged_PutBlob dest c' s c :
  staged (tempDir s) c -> staged (tempDir (PutBlob E dest c' s).2) c.
Proof. destruct s as [sv ch [lay rf bl] cs]. apply staged_insert. Qed.

Lemma staged_PutManifest dest mj s c :
  staged (tempDir s) c -> staged (tempDir (PutManifest E dest mj s)) c.
Proof. destruct s as [sv ch [lay rf bl] cs]. apply staged_insert. Qed.

Lemma layer_staged_mono dir dir' d dd :
  (forall c, staged dir c -> staged dir' c) -> layer_staged dir d dd -> layer_staged dir' d dd.
Proof. intros Hmono (t & Hd & Hst & Ht). exists t. split; [done|]. split; [by apply Hmono|done]. Qed.

Lemma seq_lookup_Forall2 {A} (pre xs : list A) :
  Forall2 (fun i x => (pre ++ xs) !! i = Some x) (seq (List.length pre) (List.length xs)) xs.
Proof.
  revert pre. induction xs as [|x xs IH]; intros pre; simpl; [constructor|].
  constructor; [by rewrite list_lookup_middle|].
  specialize (IH (pre ++ [x])). rewrite length_app, Nat.add_1_r, <- app_assoc in IH. exact IH.
Qed.

Section Saving.
Context (l : tarexporter) (diffIDs : list DiffID).
Hypothesis ls_addressed : forall chain ly,
  l_ls l !! chain = Some ly -> layer_DiffID ly = digestFromBytes E (layer_tar ly).
Hypothesis ls_consistent : layers_consistent E (l_ls l) diffIDs.

(** A cached layer descriptor names the staged gzip of a tar with the
    DiffID it is cached under. *)
Definition cache_staged (s : ociSaveSession) : Prop :=
  forall dd info, diffIDsCache s !! dd = Some info ->
    layer_staged (tempDir s) (mkDescriptor MediaTypeImageLayer (li_digest info) (li_size info)) dd.

Lemma saveLayers_arch dest idxs :
  forall ms ms' dds,
  Forall2 (fun i dd => diffIDs !! i = Some dd) idxs dds ->
  cache_staged ms.2 ->
  foldS (saveLayer E l dest diffIDs) idxs ms = (Ok tt, ms') ->
  exists new,
    Layers ms'.1 = Layers ms.1 ++ new
    /\ Forall2 (layer_staged (tempDir ms'.2)) new dds
    /\ cache_staged ms'.2
    /\ (forall c, staged (tempDir ms.2) c -> staged (tempDir ms'.2) c)
    /\ dir_refs (tempDir ms'.2) = dir_refs (tempDir ms.2)
    /\ savedImages ms'.2 = savedImages ms.2
    /\ Config ms'.1 = Config ms.1.
Proof.
  induction idxs as [|i idxs IH]; intros ms ms' dds Hdds Hcache.
  - apply Forall2_nil_inv_l in Hdds as ->. simpl. intros [= <-]. exists [].
    rewrite app_nil_r. by repeat split.
  - apply Forall2_cons_inv_l in Hdds as (dd & dds' & Hi & Hdds' & ->). cbn [foldS].
    pose proof (saveLayer_step E l dest diffIDs i ms) as Hstep.
    destruct (l_ls l !! CreateChainID E (take (S i) diffIDs)) as [ly|] eqn:Hly;
      [|by destruct Hstep as [e ->]].
    assert (Hdd : layer_DiffID ly = dd) by exact (ls_consistent _ _ _ Hi Hly).
    destruct (diffIDsCache ms.2 !! layer_DiffID ly) as [info|] eqn:Hinfo; rewrite Hstep.
    + intros Hrest.
      eapply IH in Hrest as (new & HL & Hnew & Hc' & Hmono & Hr & Hs & Hcf);
        [|exact Hdds'|exact Hcache].
      exists (mkDescriptor MediaTypeImageLayer (li_digest info) (li_size info) :: new).
      simpl in *. rewrite HL, <- app_assoc. split; [done|]. split; [|done].
      constructor; [|done]. eapply layer_staged_mono; [exact Hmono|].
      rewrite <- Hdd. by apply Hcache.
    + intros Hrest.
      set (c := gzip E (layer_tar ly)) in *.
      assert (Hnewdesc : layer_staged (tempDir (PutBlob E dest c ms.2).2)
                           (mkDescriptor MediaTypeImageLayer (digestFromBytes E c) (size_of c))
                           (layer_DiffID ly)).
      { exists (layer_tar ly). split; [done|]. split.
        - unfold staged. simpl. by rewrite lookup_insert_eq.
        - symmetry. by apply (ls_addressed _ _ Hly). }
      assert (Hcache1 : cache_staged (cache_layer (PutBlob E dest c ms.2).2 (layer_DiffID ly)
                                        (mkLayerInfo (digestFromBytes E c) (size_of c)))).
      { intros dd' info'. simpl. destruct (decide (layer_DiffID ly = dd')) as [<-|Hne].
        - rewrite lookup_insert_eq. intros [= <-]. exact Hnewdesc.
        - rewrite lookup_insert_ne by done. intros Hdd'.
          eapply layer_staged_mono; [|by apply Hcache]. intros c'.
          apply (staged_PutBlob dest c ms.2). }
      eapply IH in Hrest as (new & HL & Hnew & Hc' & Hmono & Hr & Hs & Hcf);
        [|exact Hdds'|exact Hcache1].
      exists (mkDescriptor MediaTypeImageLayer (digestFromBytes E c) (size_of c) :: new).
      simpl in *. rewrite HL, <- app_assoc. split; [done|]. split.
      { constructor; [|done]. eapply layer_staged_mono; [exact Hmono|].
        rewrite <- Hdd. exact Hnewdesc. }
      split; [done|]. split; [|done].
      intros c' Hc'0. apply Hmono. by apply (staged_PutBlob dest c ms.2).
Qed.

(** The session holds image [id] under the names [done], all pointing at
    the cached manifest [m]. *)
Definition session_holds (id : ID) (raw : bytes) (m : Manifest) (names : list string)
    (s : ociSaveSession) : Prop :=
  savedImages s !! id = Some (marshalManifest E m)
  /\ archived_with m (tempDir s) raw diffIDs names.

Lemma saveImage_first id img dest s s' :
  is_Get E (l_is l) id = Ok img ->
  DiffIDs (img_RootFS img) = diffIDs ->
  savedImages s !! id = None -> diffIDsCache s = ∅ -> dir_refs (tempDir s) = ∅ ->
  saveImage E l id dest s = (Ok tt, s') ->
  exists m, session_holds id (RawJSON img) m [dest] s'.
Proof.
  intros Hget Hds Hsaved Hcache Hrefs. unfold saveImage. rewrite Hsaved, Hget. cbv zeta.
  destruct (List.length (DiffIDs (img_RootFS img)) =? 0); [done|].
  set (raw := RawJSON img). rewrite Hds.
  destruct (foldS _ _ _) as [[[]|e] ms] eqn:Hloop; [|done]. intros [= <-].
  assert (Hc0 : cache_staged (PutBlob E dest raw s).2).
  { intros dd info. simpl. by rewrite Hcache, lookup_empty. }
  pose proof (seq_lookup_Forall2 [] diffIDs) as Hseq. simpl in Hseq.
  eapply saveLayers_arch in Hloop as (new & HL & Hnew & _ & Hmono & Hr & Hs & Hcf);
    [|exact Hseq|exact Hc0].
  simpl in HL, Hmono, Hr, Hs, Hcf. subst new.
  exists ms.1. split; [simpl; by rewrite lookup_insert_eq|].
  split; [by rewrite Hcf|]. split.
  { apply (staged_PutManifest dest). apply Hmono. unfold staged. simpl.
    by rewrite lookup_insert_eq. }
  split.
  { eapply Forall2_impl; [exact Hnew|]. intros d dd. apply layer_staged_mono.
    intros c. apply staged_PutManifest. }
  split; [unfold staged; simpl; by rewrite lookup_insert_eq|].
  intros name. simpl. rewrite Hr, Hrefs. destruct (decide (name = dest)) as [->|Hne].
  - rewrite lookup_insert_eq. by rewrite decide_True by (by left).
  - rewrite lookup_insert_ne, lookup_empty by done.
    rewrite decide_False; [done|]. by intros ->%list_elem_of_singleton.
Qed.

Lemma save_ref_again id raw m names n s s' :
  session_holds id raw m names s ->
  save_ref E l id n s = (Ok tt, s') ->
  session_holds id raw m (n :: names) s'.
Proof.
  intros [Hsaved (Hcfg & Hraw & Hlayers & Hm & Hrefs)]. unfold save_ref, oci_NewReference.
  destruct (ociRefRegexp_MatchString n); [|done].
  unfold saveImage. rewrite Hsaved. intros [= <-].
  split; [done|]. split; [done|]. split; [by apply staged_PutManifest|]. split.
  { eapply Forall2_impl; [exact Hlayers|]. intros d dd. apply layer_staged_mono.
    intros c. apply staged_PutManifest. }
  split; [by apply staged_PutManifest|].
  intros name. simpl. destruct (decide (name = n)) as [->|Hne].
  - rewrite lookup_insert_eq. by rewrite decide_True by (by left).
  - rewrite lookup_insert_ne by done. rewrite Hrefs.
    destruct (decide (name ∈ names)) as [Hin|Hout].
    + by rewrite decide_True by (by right).
    + rewrite decide_False; [done|]. intros Hin. apply elem_of_cons in Hin as [?|?]; done.
Qed.

Lemma save_refs_again id raw m ns :
  forall names s s',
  names <> [] ->
  session_holds id raw m names s ->
  foldS (save_ref E l id) ns s = (Ok tt, s') ->
  exists names', names' <> [] /\ session_holds id raw m names' s'.
Proof.
  induction ns as [|n ns IH]; intros names s s' Hne Hholds.
  - simpl. intros [= <-]. by exists names.
  - cbn [foldS]. destruct (save_ref E l id n s) as [[[]|e] s1] eqn:Hstep; [|done].
    apply (IH (n :: names) s1 s'); [done|].
    by apply (save_ref_again id raw m names n s s1).
Qed.

Lemma save_ref_first id img n s' :
  is_Get E (l_is l) id = Ok img ->
  DiffIDs (img_RootFS img) = diffIDs ->
  save_ref E l id n (mkSession ∅ ∅ emptyDir []) = (Ok tt, s') ->
  exists m, session_holds id (RawJSON img) m [n] s'.
Proof.
  intros Hget Hds. unfold save_ref, oci_NewReference.
  destruct (ociRefRegexp_MatchString n); [|done].
  by apply saveImage_first.
Qed.

(** A session over one image that succeeds leaves the image archived under
    at least one name. *)
Lemma save_entry_arch id info img s' :
  is_Get E (l_is l) id = Ok img ->
  DiffIDs (img_RootFS img) = diffIDs ->
  save_entry E l (id, info) (mkSession ∅ ∅ emptyDir []) = (Ok tt, s') ->
  exists m names, names <> [] /\ session_holds id (RawJSON img) m names s'.
Proof.
  intros Hget Hds. unfold save_entry. rewrite (foldS_fmap nt_tag (save_ref E l id)).
  destruct (refs info) as [|r rs].
  - simpl. destruct (digest_Hex id) as [hex|e]; [|done]. intros Hsave.
    destruct (save_ref_first id img hex s' Hget Hds Hsave) as [m Hm].
    by exists m, [hex].
  - rewrite fmap_cons. cbn [foldS].
    destruct (save_ref E l id (nt_tag r) _) as [[[]|e] s1] eqn:Hfirst; [|done].
    destruct (save_ref_first id img (nt_tag r) s1 Hget Hds Hfirst) as [m Hm].
    destruct (foldS (save_ref E l id) (nt_tag <$> rs) s1) as [[[]|e] s2] eqn:Hrest; [|done].
    simpl. intros [= <-].
    destruct (save_refs_again id (RawJSON img) m _ [nt_tag r] s1 s2 ltac:(done) Hm Hrest)
      as (names' & Hne & Hholds).
    by exists m, names'.
Qed.

End Saving.

(** C2.  Take an image of a content-addressed store: its ID is the digest
    of its configuration, every layer of the store has the digest of its tar
    as DiffID, and the layers of the image are the ones its configuration
    lists.  If saving the image alone in OCI format succeeds, loading the
    archive succeeds in any store whose layers agree with the image where it
    already has them; the load creates the image from the very bytes of the
    original configuration, under the original ID, once for each name the
    image was saved under, and creates nothing else. *)
Theorem save_then_load_restores_image
    (l : tarexporter) (id : ID) (info : imageDescriptor) (img : Image)
    (rngS : gmap ID imageDescriptor -> list (ID * imageDescriptor))
    (rngL : gmap string Manifest -> list (string * Manifest))
    (dir : OciDir) (s : ociSaveSession) (st : loadState) :
  is_Get E (l_is l) id = Ok img ->
  digestFromBytes E (RawJSON img) = id ->
  (forall chain ly,
     l_ls l !! chain = Some ly -> layer_DiffID ly = digestFromBytes E (layer_tar ly)) ->
  layers_consistent E (l_ls l) (DiffIDs (img_RootFS img)) ->
  RangeOrder rngS -> RangeOrder rngL ->
  save E rngS l {[ id := info ]} = (Ok dir, s) ->
  layers_consistent E (ld_ls st) (DiffIDs (img_RootFS img)) ->
  exists st',
    loadOCI E rngL dir st = (Ok tt, st')
    /\ ld_is st' = <[id := RawJSON img]> (ld_is st)
    /\ ld_is st' !! id = Some (RawJSON img)
    /\ exists k, 0 < k /\ ld_events st' = ld_events st ++ replicate k (id, id, "load").
Proof.
  intros Hget Hid Haddr Hcons HrngS HrngL Hsave HconsT.
  assert (Hentries : rngS {[ id := info ]} = [(id, info)]).
  { apply Permutation_singleton_r. rewrite (HrngS _). by rewrite map_to_list_singleton. }
  assert (Hinit : saved_exportable E l (mkSession ∅ ∅ emptyDir [])).
  { intros id' [m' Hm']. simpl in Hm'. by rewrite lookup_empty in Hm'. }
  unfold save in Hsave. rewrite Hentries in Hsave. cbn [foldS] in Hsave.
  pose proof (save_entry_ok E l (id, info) _ Hinit) as (Hok & _ & _). cbv zeta in Hok.
  destruct (save_entry E l (id, info) _) as [[[]|e] s1] eqn:Hentry; [|done].
  injection Hsave as <- <-.
  (* the layers of the image are all in the source store *)
  assert (Hexp : image_exportable E l id = true).
  { simpl in Hok. symmetry in Hok. unfold entry_exportable, entry_dests in Hok. simpl in Hok.
    destruct (List.length (refs info) =? 0) eqn:Hlen.
    - destruct (digest_Hex id); simpl in Hok; [|done].
      rewrite andb_true_r in Hok. by apply andb_true_iff in Hok as [_ ?].
    - destruct (refs info) as [|r rs]; [done|]. simpl in Hok.
      apply andb_true_iff in Hok as [Hok _]. by apply andb_true_iff in Hok as [_ ?]. }
  unfold image_exportable in Hexp. rewrite Hget in Hexp. cbv zeta in Hexp.
  apply andb_true_iff in Hexp as [_ Havail]. unfold layers_available in Havail.
  rewrite forallb_forall in Havail.
  assert (Hdistinct : chains_distinct E (DiffIDs (img_RootFS img))).
  { intros i j di dj Hi Hj Heq.
    assert (Hin : In i (seq 0 (List.length (DiffIDs (img_RootFS img))))).
    { apply in_seq. apply lookup_lt_Some in Hi. lia. }
    apply Havail, bool_decide_eq_true_1 in Hin as [ly Hly].
    rewrite <- (Hcons i di ly Hi Hly). rewrite Heq in Hly. exact (Hcons j dj ly Hj Hly). }
  destruct (save_entry_arch l _ Haddr Hcons id info img s1 Hget eq_refl Hentry)
    as (m & names & Hne & _ & Harch).
  assert (Hparse : parseConfig E (RawJSON img) = Some (img_RootFS img)).
  { unfold is_Get, NewFromJSON in Hget. destruct (l_is l !! id) as [raw|]; [|done].
    destruct (parseConfig E raw) as [rootfs|] eqn:Hp; [|done]. by injection Hget as <-. }
  destruct (loadOCI_ok (tempDir s1) m (RawJSON img) (img_RootFS img) names Harch Hparse Hdistinct
              rngL st HrngL Hne HconsT) as (st' & Hload & His & k & Hk & Hev).
  rewrite Hid in His, Hev.
  exists st'. split; [done|]. split; [done|]. split; [by rewrite His, lookup_insert_eq|].
  by exists k.
Qed.

End Assumptions.
End Roundtrip.

(** ** The concrete environment meets the assumptions *)

Section Fixture_facts.
Import Fixture.

Lemma dec_nat_enc n rest : dec_nat (enc_nat n ++ rest) = Some (n, rest).
Proof.
  unfold enc_nat. induction n as [|n IH]; [done|].
  simpl. simpl in IH. by rewrite IH.
Qed.

Lemma length_list_ascii_of_string s :
  List.length (list_ascii_of_string s) = String.length s.
Proof. induction s as [|c s IH]; simpl; [done|]. by rewrite IH. Qed.

Lemma dec_str_enc s rest : dec_str (enc_str s ++ rest) = Some (s, rest).
Proof.
  unfold dec_str, enc_str. rewrite <- app_assoc, dec_nat_enc.
  rewrite <- (length_list_ascii_of_string s).
  rewrite length_app. rewrite (proj2 (Nat.leb_le _ _)) by lia.
  by rewrite take_app_length, drop_app_length, string_of_list_ascii_of_string.
Qed.

Lemma dec_Z_enc z rest : dec_Z (enc_Z z ++ rest) = Some (z, rest).
Proof.
  unfold dec_Z, enc_Z. simpl. rewrite dec_nat_enc.
  destruct (Z.ltb_spec z 0) as [Hneg|Hpos]; simpl; do 2 f_equal; lia.
Qed.

Lemma dec_desc_enc d rest : dec_desc (enc_desc d ++ rest) = Some (d, rest).
Proof.
  unfold dec_desc, enc_desc. destruct d as [mt dg sz].
  cbn [desc_MediaType desc_Digest desc_Size].
  by rewrite <- !app_assoc, dec_str_enc, dec_str_enc, dec_Z_enc.
Qed.

Lemma dec_descs_enc ds rest :
  dec_descs (List.length ds) (enc_descs ds ++ rest) = Some (ds, rest).
Proof.
  induction ds as [|d ds IH]; [done|].
  cbn [List.length enc_descs dec_descs]. by rewrite <- app_assoc, dec_desc_enc, IH.
Qed.

Lemma dec_manifest_enc m rest : dec_manifest (enc_manifest m ++ rest) = Some (m, rest).
Proof.
  unfold dec_manifest, enc_manifest. destruct m as [v mt cfg ls].
  cbn [SchemaVersion MediaType Config Layers].
  by rewrite <- !app_assoc, dec_Z_enc, dec_str_enc, dec_desc_enc, dec_nat_enc, dec_descs_enc.
Qed.

Lemma fx_manifest_codec m : fx_unmarshalManifest (fx_marshalManifest m) = Some m.
Proof.
  unfold fx_unmarshalManifest, fx_marshalManifest.
  rewrite list_ascii_of_string_of_list_ascii.
  rewrite <- (app_nil_r (enc_manifest m)). by rewrite dec_manifest_enc.
Qed.

Lemma fx_descriptor_codec d : fx_unmarshalDescriptor (fx_marshalDescriptor d) = Some d.
Proof.
  unfold fx_unmarshalDescriptor, fx_marshalDescriptor.
  rewrite list_ascii_of_string_of_list_ascii.
  rewrite <- (app_nil_r (enc_desc d)). by rewrite dec_desc_enc.
Qed.

Lemma fx_digest_wf b : is_Some (after_colon (fx_digest b)).
Proof. by exists b. Qed.

Lemma fx_decompress_gzip b : fx_decompress (fx_gzip b) = Ok b.
Proof. reflexivity. Qed.

Lemma fx_layers_consistent : layers_consistent env fx_ls [diffA; diffB].
Proof.
  intros [|[|i]] d ly Hd Hly; simpl in Hd; [| |done]; injection Hd as <-.
  - change (fx_ls !! CreateChainID env [diffA] = Some ly) in Hly.
    assert (H : fx_ls !! CreateChainID env [diffA] = Some (mkLayer diffA tarA))
      by (vm_compute; reflexivity).
    rewrite H in Hly. by injection Hly as <-.
  - change (fx_ls !! CreateChainID env [diffA; diffB] = Some ly) in Hly.
    assert (H : fx_ls !! CreateChainID env [diffA; diffB] = Some (mkLayer diffB tarB))
      by (vm_compute; reflexivity).
    rewrite H in Hly. by injection Hly as <-.
Qed.

(** [frombusybox0], two layers, saved under a tag and loaded into empty
    stores: the image store then holds its configuration under its ID, and
    nothing else. *)
Lemma save_then_load_restores_frombusybox0 :
  is_Get env fx_is id_frombusybox0
    = Ok (mkImage (mkRootFS "layers" [diffA; diffB]) cfg_frombusybox0)
  /\ digestFromBytes env cfg_frombusybox0 = id_frombusybox0
  /\ is_ok (save env rng_fwd (exporter ∅) {[ id_frombusybox0 := mkDescr [ref_frombusybox0] ]}).1
     = true
  /\ exists st',
       loadOCI env rng_fwd
         (tempDir (save env rng_fwd (exporter ∅)
                     {[ id_frombusybox0 := mkDescr [ref_frombusybox0] ]}).2)
         (fresh_load ∅ ∅) = (Ok tt, st')
       /\ ld_is st' = <[id_frombusybox0 := cfg_frombusybox0]> (ld_is (fresh_load ∅ ∅))
       /\ ld_is st' !! id_frombusybox0 = Some cfg_frombusybox0
       /\ exists k, 0 < k
            /\ ld_events st'
               = ld_events (fresh_load ∅ ∅)
                 ++ replicate k (id_frombusybox0, id_frombusybox0, "load").
Proof.
  assert (Hget : is_Get env (l_is (exporter ∅)) id_frombusybox0
                 = Ok (mkImage (mkRootFS "layers" [diffA; diffB]) cfg_frombusybox0))
    by (vm_compute; reflexivity).
  assert (Hok : is_ok (save env rng_fwd (exporter ∅)
                         {[ id_frombusybox0 := mkDescr [ref_frombusybox0] ]}).1 = true)
    by (vm_compute; reflexivity).
  split; [exact Hget|]. split; [reflexivity|]. split; [exact Hok|].
  exact (save_then_load_restores_image env fx_digest_inj fx_digest_wf fx_decompress_gzip
           fx_manifest_codec fx_descriptor_codec (exporter ∅) id_frombusybox0
           (mkDescr [ref_frombusybox0])
           (mkImage (mkRootFS "layers" [diffA; diffB]) cfg_frombusybox0) rng_fwd rng_fwd _ _
           (fresh_load ∅ ∅) Hget eq_refl fx_ls_addressed fx_layers_consistent
           rng_fwd_order rng_fwd_order (save_result env (exporter ∅) rng_fwd _ Hok)
           (layers_consistent_empty env _)).
Defined.

End Fixture_facts.

(** * Further properties of the modelled code *)

(** ** The [docker load] command: when the request is sent, and what it carries *)

Section LoadCLI_request.
Import LoadCLI.






End LoadCLI_request.

(** ** The [--ref] overrides: what [getRefs] returns *)

(** The key [getRefs] records an entry of [l.refs] under: the text of its
    name with the default tag put on when it has none; a digest reference, or
    a name that does not parse, has none. *)
Definition entry_key (E : Env) (image : string) : option string :=
  match ParseNamed E image with
  | Ok (Canonical _ _) => None
  | Ok r =>
      match tagged_or_default E r with
      | Ok tagged => Some (tagged_String tagged)
      | Err _ => None
      end
  | Err _ => None
  end.

Section GetRefs_result.
Context (E : Env).

(** A turn of the loop that goes through either leaves the map alone (a
    digest reference) or binds the key of the entry to its override, which is
    in the class. *)
Lemma getRefs_step_inv overrides image ref overrides' :
  getRefs_step E overrides (image, ref) = Ok overrides' ->
  match entry_key E image with
  | Some key => ociRefRegexp_MatchString ref = true /\ overrides' = <[key := ref]> overrides
  | None => overrides' = overrides
  end.
Proof.
  unfold getRefs_step, entry_key.
  destruct (ParseNamed E image) as [[n|t|n d]|e]; simpl; [| |by intros [= <-]|done].
  - destruct (WithTag E (NameOnly n) DefaultTag) as [tagged|]; simpl; [|done].
    destruct (ociRefRegexp_MatchString ref); simpl; [|done]. by intros [= <-].
  - destruct (ociRefRegexp_MatchString ref); simpl; [|done]. by intros [= <-].
Qed.

(** Every binding of the result was in the map the loop started from or
    comes from an entry; the binding of a key is the override of the last
    entry with that key. *)
Lemma getRefs_loop_inv entries :
  forall overrides refs,
  foldR (getRefs_step E) entries overrides = Ok refs ->
  (forall key ref, refs !! key = Some ref ->
     overrides !! key = Some ref
     \/ (ociRefRegexp_MatchString ref = true
         /\ exists image, (image, ref) ∈ entries /\ entry_key E image = Some key))
  /\ (forall pre image ref post key,
        entries = pre ++ (image, ref) :: post ->
        entry_key E image = Some key ->
        Forall (fun entry => entry_key E entry.1 <> Some key) post ->
        refs !! key = Some ref)
  /\ (forall key, Forall (fun entry => entry_key E entry.1 <> Some key) entries ->
        refs !! key = overrides !! key).
Proof.
  induction entries as [|[image ref] entries IH]; intros overrides refs.
  - simpl. intros [= <-]. split; [by left|]. split; [|done].
    intros [|? ?] ? ? ? ? [=].
  - cbn [foldR]. destruct (getRefs_step E overrides (image, ref)) as [ov|e] eqn:Hstep; [|done].
    simpl. intros Hrest. apply getRefs_step_inv in Hstep.
    destruct (IH ov refs Hrest) as (Hsound & Hlast & Hnone).
    split; [|split].
    + intros key ref' Hkey. destruct (Hsound key ref' Hkey) as [Hov|(Hm & image' & Hin & Hk)].
      * destruct (entry_key E image) as [key0|] eqn:Hk0.
        -- destruct Hstep as [Hm ->]. destruct (decide (key0 = key)) as [->|Hne].
           ++ rewrite lookup_insert_eq in Hov. injection Hov as <-. right. split; [done|].
              exists image. split; [by left|done].
           ++ rewrite lookup_insert_ne in Hov by done. by left.
        -- subst ov. by left.
      * right. split; [done|]. exists image'. split; [by right|done].
    + intros pre image' ref' post key Hsplit Hk Hpost. destruct pre as [|p pre].
      * simpl in Hsplit. injection Hsplit as -> -> <-.
        rewrite (Hnone key Hpost). rewrite Hk in Hstep. destruct Hstep as [_ ->].
        by rewrite lookup_insert_eq.
      * simpl in Hsplit. injection Hsplit as <- ->. by apply (Hlast pre image' ref' post key).
    + intros key Hall. apply Forall_cons in Hall as [Hhd Htl]. simpl in Hhd.
      rewrite (Hnone key Htl). destruct (entry_key E image) as [key0|] eqn:Hk0; [|by subst ov].
      destruct Hstep as [_ ->]. rewrite lookup_insert_ne; [done|]. by intros ->.
Qed.

(** X3.  What [getRefs] hands to [parseOCINames]: every override of the map it
    returns is in the class of [ociRefRegexp], and is the override of an entry
    of [l.refs] whose name is no digest reference, recorded under the text of
    that name with its tag (the default tag when the name has none). *)
Theorem getRefs_returns_checked_overrides
    (rng : gmap string string -> list (string * string)) (l : tarexporter)
    (refs : gmap string string) :
  RangeOrder rng ->
  getRefs E rng l = Ok refs ->
  forall key ref, refs !! key = Some ref ->
    ociRefRegexp_MatchString ref = true
    /\ exists image r tagged,
         l_refs l !! image = Some ref
         /\ ParseNamed E image = Ok r /\ is_canonical (Ok r) = false
         /\ tagged_or_default E r = Ok tagged
         /\ key = tagged_String tagged.
Proof.
  intros Hrng Hget key ref Hkey. unfold getRefs in Hget.
  destruct (getRefs_loop_inv _ _ _ Hget) as (Hsound & _ & _).
  destruct (Hsound key ref Hkey) as [Hempty|(Hm & image & Hin & Hk)];
    [by rewrite lookup_empty in Hempty|].
  split; [done|]. rewrite (Hrng (l_refs l)) in Hin. apply elem_of_map_to_list in Hin.
  unfold entry_key in Hk.
  destruct (ParseNamed E image) as [r|] eqn:Hparse; [|done].
  destruct r as [n|t|n d]; [| |done].
  - destruct (tagged_or_default E (NameOnly n)) as [tagged|] eqn:Htag; [|done].
    injection Hk as <-. by exists image, (NameOnly n), tagged.
  - simpl in Hk. injection Hk as <-. by exists image, (Tagged t), t.
Qed.

(** X4.  Two entries of [l.refs] can stand for one reference ([busybox] and
    [busybox:latest]).  [getRefs] keeps the override of the one the runtime
    enumerates last: the reference is bound to the override of an entry after
    which no entry with the same key comes. *)
Theorem getRefs_last_override_wins
    (rng : gmap string string -> list (string * string)) (l : tarexporter)
    (refs : gmap string string)
    (pre post : list (string * string)) (image ref key : string) :
  getRefs E rng l = Ok refs ->
  rng (l_refs l) = pre ++ (image, ref) :: post ->
  entry_key E image = Some key ->
  Forall (fun entry => entry_key E entry.1 <> Some key) post ->
  refs !! key = Some ref.
Proof.
  intros Hget Hsplit Hk Hpost. unfold getRefs in Hget.
  destruct (getRefs_loop_inv _ _ _ Hget) as (_ & Hlast & _).
  by apply (Hlast pre image ref post key).
Qed.

(** Among the entries with a given key there is a last one. *)
Lemma last_entry_with_key (entries : list (string * string)) (key : string) :
  forall image ref,
  (image, ref) ∈ entries -> entry_key E image = Some key ->
  exists pre image' ref' post,
    entries = pre ++ (image', ref') :: post
    /\ entry_key E image' = Some key
    /\ Forall (fun entry => entry_key E entry.1 <> Some key) post.
Proof.
  induction entries as [|[i r] entries IH]; intros image ref Hin Hk;
    [by apply elem_of_nil in Hin|].
  destruct (decide (Exists (fun entry => entry_key E entry.1 = Some key) entries)) as [Hex|Hno].
  - apply Exists_exists in Hex as ([i' r'] & Hin' & Hk').
    destruct (IH i' r' Hin' Hk') as (pre & image' & ref' & post & -> & Hk3 & Hall).
    by exists ((i, r) :: pre), image', ref', post.
  - apply elem_of_cons in Hin as [[= <- <-]|Hin].
    + exists [], image, ref, entries. split; [done|]. split; [done|].
      apply Forall_forall. intros entry He Hke. apply Hno, Exists_exists. by exists entry.
    + exfalso. apply Hno, Exists_exists. by exists (image, ref).
Qed.

(** A binding of one run is a binding of the other. *)
Lemma getRefs_bindings_agree
    (rngA rngB : gmap string string -> list (string * string)) (l : tarexporter)
    (refsA refsB : gmap string string) :
  RangeOrder rngA -> RangeOrder rngB ->
  (forall image1 ref1 image2 ref2 key,
     l_refs l !! image1 = Some ref1 -> l_refs l !! image2 = Some ref2 ->
     entry_key E image1 = Some key -> entry_key E image2 = Some key -> ref1 = ref2) ->
  getRefs E rngA l = Ok refsA -> getRefs E rngB l = Ok refsB ->
  forall key ref, refsA !! key = Some ref -> refsB !! key = Some ref.
Proof.
  intros HA HB Hkeys HgA HgB key ref Hkey. unfold getRefs in HgA, HgB.
  destruct (getRefs_loop_inv _ _ _ HgA) as (HsA & _ & _).
  destruct (getRefs_loop_inv _ _ _ HgB) as (HsB & HlB & _).
  destruct (HsA key ref Hkey) as [Hempty|(_ & image & Hin & Hk)];
    [by rewrite lookup_empty in Hempty|].
  assert (HinB : (image, ref) ∈ rngB (l_refs l)) by (by rewrite (HB _), <- (HA _)).
  destruct (last_entry_with_key _ _ _ _ HinB Hk) as (pre & image' & ref' & post & Hsp & Hk' & Hall).
  rewrite (HlB pre image' ref' post key Hsp Hk' Hall). f_equal.
  apply (Hkeys image' ref' image ref key); [| |done|done].
  - apply elem_of_map_to_list. rewrite <- (HB _), Hsp. set_solver.
  - apply elem_of_map_to_list. by rewrite <- (HA _).
Qed.

(** X5.  When no two entries of [l.refs] with different overrides stand for the
    same reference, the order in which the runtime enumerates the map plays no
    role: two runs of [getRefs] both fail or both return the same map. *)
Theorem getRefs_any_order
    (rng1 rng2 : gmap string string -> list (string * string)) (l : tarexporter) :
  RangeOrder rng1 -> RangeOrder rng2 ->
  (forall image1 ref1 image2 ref2 key,
     l_refs l !! image1 = Some ref1 -> l_refs l !! image2 = Some ref2 ->
     entry_key E image1 = Some key -> entry_key E image2 = Some key -> ref1 = ref2) ->
  is_ok (getRefs E rng1 l) = is_ok (getRefs E rng2 l)
  /\ forall refs, getRefs E rng1 l = Ok refs -> getRefs E rng2 l = Ok refs.
Proof.
  intros H1 H2 Hkeys.
  assert (Hperm : rng1 (l_refs l) ≡ₚ rng2 (l_refs l)) by (by rewrite (H1 _), (H2 _)).
  assert (Hsame : is_ok (getRefs E rng1 l) = is_ok (getRefs E rng2 l)).
  { unfold getRefs. rewrite !getRefs_loop_ok. by apply forallb_Permutation. }
  split; [done|]. intros refs1 Hget1. rewrite Hget1 in Hsame.
  destruct (getRefs E rng2 l) as [refs2|] eqn:Hget2; [|done]. f_equal.
  apply map_eq. intros key.
  destruct (refs1 !! key) as [ref|] eqn:Hk1.
  - by rewrite (getRefs_bindings_agree rng1 rng2 l refs1 refs2 H1 H2 Hkeys Hget1 Hget2 key ref Hk1).
  - destruct (refs2 !! key) as [ref|] eqn:Hk2; [|done].
    rewrite (getRefs_bindings_agree rng2 rng1 l refs2 refs1 H2 H1 Hkeys Hget2 Hget1 key ref Hk2)
      in Hk1. done.
Qed.

End GetRefs_result.

(** ** Name resolution: what [parseOCINames] returns *)

(** A property of the state that every turn that goes through keeps holds
    when the loop ends well. *)
Lemma foldR_invariant {A S} (P : S -> Prop) (f : S -> A -> result S) (xs : list A) :
  (forall s x s', x ∈ xs -> P s -> f s x = Ok s' -> P s') ->
  forall s s', P s -> foldR f xs s = Ok s' -> P s'.
Proof.
  induction xs as [|x xs IH]; intros Hf s s' Hs; simpl; [by intros [= <-]|].
  destruct (f s x) as [s1|e] eqn:Hx; simpl; [|done].
  apply IH; [|by apply (Hf s x); [left|..]]. intros t y t' Hy. apply Hf. by right.
Qed.

(** A loop meets a turn that fails in every state: it fails. *)
Lemma foldR_fails {A S} (f : S -> A -> result S) (xs : list A) (x : A) (s : S) :
  x ∈ xs -> (forall t, is_ok (f t x) = false) -> is_ok (foldR f xs s) = false.
Proof.
  intros Hx Hbad. revert s. induction xs as [|y xs IH]; intros s; [by apply elem_of_nil in Hx|].
  simpl. apply elem_of_cons in Hx as [->|Hx].
  - specialize (Hbad s). by destruct (f s y).
  - destruct (f s y) as [s'|e]; simpl; [by apply IH|done].
Qed.

(** No two references of the descriptors carry the same tag, and [tags]
    holds the tag of each. *)
Definition tags_unique (st : names_state) : Prop :=
  (forall id t, t ∈ refs_of st id -> nt_tag t ∈ tags st)
  /\ (forall id1 id2 i j t1 t2,
        refs_of st id1 !! i = Some t1 -> refs_of st id2 !! j = Some t2 ->
        nt_tag t1 = nt_tag t2 -> id1 = id2 /\ i = j).

(** Every image of [s] is an image of [t], with at least the references it
    has in [s]. *)
Definition names_le (s t : names_state) : Prop :=
  forall id d, imgDescr s !! id = Some d ->
    exists d', imgDescr t !! id = Some d' /\ refs d ⊆ refs d'.

Section Resolve_result.
Context (E : Env).

(** A name whose lookups fail ends the loop of [parseOCINames] with the
    error of the lookup, whatever was resolved before. *)
Lemma parseOCINames_step_unresolved l overrides st name e :
  token_assocs E l name = Err e -> parseOCINames_step E l overrides st name = Err e.
Proof.
  unfold token_assocs, parseOCINames_step.
  destruct (ParseIDOrReference E name) as [[id|ref]|e0]; simpl; [| |by intros [= <-]].
  - destruct (is_Get E (l_is l) id); simpl; [done|by intros [= <-]].
  - destruct (String.eqb (Name ref) digest_Canonical).
    + destruct (is_Search E (l_is l) name); simpl; [done|by intros [= <-]].
    + destruct (IsNameOnly ref).
      * cbv zeta. destruct (rs_ReferencesByName (l_rs l) ref) as [|a assocs']; [|by simpl].
        simpl. destruct (is_Search E (l_is l) name); simpl; [done|by intros [= <-]].
      * destruct (rs_Get (l_rs l) ref); simpl; [done|by intros [= <-]].
Qed.

(** The loop of [parseOCINames] ends well only when every name resolves,
    and is then [addAssoc] over the associations of the names. *)
Lemma parseOCINames_loop_resolved l overrides names :
  forall st st',
  foldR (parseOCINames_step E l overrides) names st = Ok st' ->
  exists assocs,
    names_assocs E l names = Ok assocs
    /\ foldR (fun st a => addAssoc E overrides st a.1 a.2) assocs st = Ok st'.
Proof.
  induction names as [|name names IH]; intros st st'; simpl.
  - intros [= <-]. by exists [].
  - destruct (token_assocs E l name) as [assocs1|e] eqn:H1.
    + rewrite (parseOCINames_step_assocs E l overrides st name assocs1 H1).
      destruct (foldR _ assocs1 st) as [st1|] eqn:Hf1; simpl; [|done].
      intros Hrest. destruct (IH st1 st' Hrest) as (assocs2 & -> & Hf2).
      exists (assocs1 ++ assocs2). split; [done|]. by rewrite foldR_app, Hf1.
    + by rewrite (parseOCINames_step_unresolved l overrides st name e H1).
Qed.

Lemma parseOCINames_resolved rng l names images :
  parseOCINames E rng l names = Ok images ->
  exists overrides assocs st,
    getRefs E rng l = Ok overrides
    /\ names_assocs E l names = Ok assocs
    /\ foldR (fun st a => addAssoc E overrides st a.1 a.2) assocs (mkNames ∅ ∅) = Ok st
    /\ images = imgDescr st.
Proof.
  unfold parseOCINames. destruct (getRefs E rng l) as [overrides|]; simpl; [|done].
  destruct (foldR _ names _) as [st|] eqn:Hloop; simpl; [|done]. intros [= <-].
  destruct (parseOCINames_loop_resolved _ _ _ _ _ Hloop) as (assocs & Ha & Hf).
  by exists overrides, assocs, st.
Qed.

(** *** One tag, one reference *)

Lemma refs_of_attach st id t st' id' :
  attach st id t = Ok st' ->
  st' = st
  \/ ((nt_tag t ∉ tags st)
      /\ tags st' = {[nt_tag t]} ∪ tags st
      /\ refs_of st' id' = if decide (id' = id) then refs_of st id ++ [t] else refs_of st id').
Proof.
  unfold attach. destruct (existsb _ _); [intros [= <-]; by left|].
  case_bool_decide as Htag; [done|]. intros [= <-]. right. split; [done|]. split; [done|].
  unfold refs_of at 1. simpl. destruct (decide (id' = id)) as [->|Hne].
  - by rewrite lookup_insert_eq.
  - by rewrite lookup_insert_ne.
Qed.

Lemma tags_unique_touch st id : tags_unique st -> tags_unique (touch st id).
Proof.
  intros [Ha Hb]. split.
  - intros id' t. rewrite refs_of_touch, tags_touch. apply Ha.
  - intros id1 id2 i j t1 t2. rewrite !refs_of_touch. apply Hb.
Qed.

Lemma tags_unique_attach st id t st' :
  tags_unique st -> attach st id t = Ok st' -> tags_unique st'.
Proof.
  intros [Ha Hb] Hatt.
  destruct (refs_of_attach st id t st' id Hatt) as [->|(Hnew & Htags & _)]; [done|].
  assert (Hrefs : forall id', refs_of st' id'
            = if decide (id' = id) then refs_of st id ++ [t] else refs_of st id').
  { intros id'. destruct (refs_of_attach st id t st' id' Hatt) as [->|(_ & _ & H)]; [|done].
    exfalso. apply Hnew. rewrite Htags. set_solver. }
  assert (Hold : forall id' k t', refs_of st' id' !! k = Some t' ->
            refs_of st id' !! k = Some t'
            \/ (id' = id /\ k = List.length (refs_of st id) /\ t' = t)).
  { intros id' k t'. rewrite Hrefs. destruct (decide (id' = id)) as [->|Hne]; [|by left].
    intros Hk. apply lookup_app_Some in Hk as [Hk|[Hlen Hk]]; [by left|]. right.
    apply list_lookup_singleton_Some in Hk as [Hk <-]. split; [done|]. split; [lia|done]. }
  split.
  - intros id' t'. rewrite Hrefs, Htags. destruct (decide (id' = id)) as [->|Hne].
    + rewrite elem_of_app, list_elem_of_singleton. intros [Hin| ->]; [|set_solver].
      apply elem_of_union_r. by apply (Ha id).
    + intros Hin. apply elem_of_union_r. by apply (Ha id').
  - intros id1 id2 i j t1 t2 H1 H2 Htag.
    destruct (Hold _ _ _ H1) as [H1'|(-> & -> & ->)], (Hold _ _ _ H2) as [H2'|(-> & -> & ->)].
    + by apply (Hb id1 id2 i j t1 t2).
    + exfalso. apply Hnew. rewrite <- Htag. apply (Ha id1). by apply list_elem_of_lookup_2 in H1'.
    + exfalso. apply Hnew. rewrite Htag. apply (Ha id2). by apply list_elem_of_lookup_2 in H2'.
    + done.
Qed.

Lemma tags_unique_addAssoc overrides st id ref st' :
  tags_unique st -> addAssoc E overrides st id ref = Ok st' -> tags_unique st'.
Proof.
  intros Hinv. rewrite addAssoc_effective.
  destruct (effective E overrides ref) as [[t|]|e]; [| |done].
  - apply tags_unique_attach. by apply tags_unique_touch.
  - intros [= <-]. by apply tags_unique_touch.
Qed.

(** The state [parseOCINames] ends in, when it succeeds. *)
Lemma parseOCINames_tags_unique rng l names images :
  parseOCINames E rng l names = Ok images ->
  exists st, images = imgDescr st /\ tags_unique st.
Proof.
  intros Hparse.
  destruct (parseOCINames_resolved _ _ _ _ Hparse) as (overrides & assocs & st & _ & _ & Hf & ->).
  assert (Hinit : tags_unique (mkNames ∅ ∅)).
  { split.
    - intros id t. unfold refs_of. simpl. rewrite lookup_empty. simpl. by intros ?%elem_of_nil.
    - intros id1 id2 i j t1 t2. unfold refs_of. simpl. by rewrite lookup_empty. }
  exists st. split; [done|].
  eapply (foldR_invariant tags_unique); [|exact Hinit|exact Hf].
  intros s a s' _ Hs. by apply tags_unique_addAssoc.
Qed.

(** X6.  When [parseOCINames] succeeds, no two references of the descriptors it
    returns carry the same tag, within an image or across images: each file
    under [refs/] a save session writes for a tag stands for one reference. *)
Theorem parseOCINames_unique_tags
    (rng : gmap string string -> list (string * string)) (l : tarexporter)
    (names : list string) (images : gmap ID imageDescriptor) :
  parseOCINames E rng l names = Ok images ->
  forall id1 d1 id2 d2 i j t1 t2,
    images !! id1 = Some d1 -> images !! id2 = Some d2 ->
    refs d1 !! i = Some t1 -> refs d2 !! j = Some t2 ->
    nt_tag t1 = nt_tag t2 -> id1 = id2 /\ i = j.
Proof.
  intros Hparse. destruct (parseOCINames_tags_unique _ _ _ _ Hparse) as (st & -> & _ & Hfinal).
  intros id1 d1 id2 d2 i j t1 t2 H1 H2 Hi Hj. apply (Hfinal id1 id2 i j t1 t2).
  - unfold refs_of. by rewrite H1.
  - unfold refs_of. by rewrite H2.
Qed.

(** *** A name given twice *)

Lemma names_le_refl s : names_le s s.
Proof. intros id d Hd. by exists d. Qed.

Lemma names_le_trans s t u : names_le s t -> names_le t u -> names_le s u.
Proof.
  intros Hst Htu id d Hd. destruct (Hst id d Hd) as (d1 & Hd1 & Hsub1).
  destruct (Htu id d1 Hd1) as (d2 & Hd2 & Hsub2). exists d2. split; [done|]. set_solver.
Qed.

Lemma names_le_touch st id : names_le st (touch st id).
Proof.
  unfold touch. destruct (imgDescr st !! id) eqn:Hid; [apply names_le_refl|].
  intros id' d Hd. exists d. split; [|done]. simpl.
  rewrite lookup_insert_ne; [done|]. intros ->. congruence.
Qed.

Lemma touch_Some st id : is_Some (imgDescr (touch st id) !! id).
Proof.
  unfold touch. destruct (imgDescr st !! id) eqn:Hid; [by rewrite Hid|].
  simpl. rewrite lookup_insert_eq. eauto.
Qed.

Lemma touch_id st id : is_Some (imgDescr st !! id) -> touch st id = st.
Proof. unfold touch. by intros [d ->]. Qed.

Lemma names_le_attach st id t st' : attach st id t = Ok st' -> names_le st st'.
Proof.
  unfold attach. destruct (existsb _ _); [intros [= <-]; apply names_le_refl|].
  case_bool_decide; [done|]. intros [= <-]. intros id' d Hd. simpl.
  destruct (decide (id' = id)) as [->|Hne].
  - rewrite lookup_insert_eq. eexists. split; [done|]. simpl. unfold refs_of. rewrite Hd. simpl.
    set_solver.
  - rewrite lookup_insert_ne by done. by exists d.
Qed.

(** A reference attached to an image is found attached from then on. *)
Lemma attach_present st id t st' :
  is_Some (imgDescr st !! id) -> attach st id t = Ok st' ->
  exists d, imgDescr st' !! id = Some d
    /\ existsb (fun t' => String.eqb (tagged_String t) (tagged_String t')) (refs d) = true.
Proof.
  intros [d Hd]. unfold attach, refs_of. rewrite Hd. simpl.
  destruct (existsb _ (refs d)) eqn:Hex.
  - intros [= <-]. by exists d.
  - case_bool_decide; [done|]. intros [= <-]. simpl. rewrite lookup_insert_eq.
    eexists. split; [done|]. simpl. rewrite existsb_app. simpl.
    by rewrite String.eqb_refl, orb_true_r.
Qed.

Lemma existsb_subseteq {A} (f : A -> bool) (xs ys : list A) :
  xs ⊆ ys -> existsb f xs = true -> existsb f ys = true.
Proof.
  intros Hsub. rewrite !existsb_exists. intros (x & Hin & Hx). exists x. split; [|done].
  apply list_elem_of_In, Hsub. by apply list_elem_of_In.
Qed.

Lemma names_le_addAssoc overrides st id ref st' :
  addAssoc E overrides st id ref = Ok st' -> names_le st st'.
Proof.
  rewrite addAssoc_effective. destruct (effective E overrides ref) as [[t|]|e]; [| |done].
  - intros Hatt. eapply names_le_trans; [apply names_le_touch|]. by apply names_le_attach in Hatt.
  - intros [= <-]. apply names_le_touch.
Qed.

(** An association that went through goes through again in every later
    state, and changes nothing there. *)
Lemma addAssoc_again overrides st id ref st' t :
  addAssoc E overrides st id ref = Ok st' -> names_le st' t ->
  addAssoc E overrides t id ref = Ok t.
Proof.
  rewrite !addAssoc_effective.
  destruct (effective E overrides ref) as [[tagged|]|e]; [| |done].
  - intros Hatt Hle.
    destruct (attach_present _ _ _ _ (touch_Some st id) Hatt) as (d & Hd & Hex).
    destruct (Hle id d Hd) as (d' & Hd' & Hsub).
    rewrite touch_id by eauto. unfold attach, refs_of. rewrite Hd'. simpl.
    by rewrite (existsb_subseteq _ _ _ Hsub Hex).
  - intros [= <-] Hle. destruct (touch_Some st id) as [d Hd].
    destruct (Hle id d Hd) as (d' & Hd' & _). rewrite touch_id by eauto. done.
Qed.

Lemma names_le_loop overrides assocs :
  forall st st',
  foldR (fun st a => addAssoc E overrides st a.1 a.2) assocs st = Ok st' -> names_le st st'.
Proof.
  induction assocs as [|a assocs IH]; intros st st'; simpl; [intros [= <-]; apply names_le_refl|].
  destruct (addAssoc E overrides st a.1 a.2) as [st1|] eqn:Ha; simpl; [|done].
  intros Hrest. eapply names_le_trans; [by apply names_le_addAssoc in Ha|by apply IH].
Qed.

Lemma addAssoc_loop_again overrides assocs :
  forall st st' t,
  foldR (fun st a => addAssoc E overrides st a.1 a.2) assocs st = Ok st' -> names_le st' t ->
  foldR (fun st a => addAssoc E overrides st a.1 a.2) assocs t = Ok t.
Proof.
  induction assocs as [|a assocs IH]; intros st st' t; simpl; [done|].
  destruct (addAssoc E overrides st a.1 a.2) as [st1|] eqn:Ha; simpl; [|done].
  intros Hrest Hle.
  rewrite (addAssoc_again overrides st a.1 a.2 st1 t Ha).
  - simpl. by apply (IH st1 st' t).
  - eapply names_le_trans; [by apply names_le_loop in Hrest|done].
Qed.

Lemma names_le_step l overrides st name st' :
  parseOCINames_step E l overrides st name = Ok st' -> names_le st st'.
Proof.
  intros Hstep. destruct (token_assocs E l name) as [assocs|e] eqn:Ht.
  - rewrite (parseOCINames_step_assocs E l overrides st name assocs Ht) in Hstep.
    by apply names_le_loop in Hstep.
  - by rewrite (parseOCINames_step_unresolved l overrides st name e Ht) in Hstep.
Qed.

Lemma names_le_steps l overrides names :
  forall st st',
  foldR (parseOCINames_step E l overrides) names st = Ok st' -> names_le st st'.
Proof.
  induction names as [|name names IH]; intros st st'; simpl;
    [intros [= <-]; apply names_le_refl|].
  destruct (parseOCINames_step E l overrides st name) as [st1|] eqn:Hs; simpl; [|done].
  intros Hrest. eapply names_le_trans; [by apply names_le_step in Hs|by apply IH].
Qed.

Lemma parseOCINames_step_again l overrides st name st' t :
  parseOCINames_step E l overrides st name = Ok st' -> names_le st' t ->
  parseOCINames_step E l overrides t name = Ok t.
Proof.
  intros Hstep Hle. destruct (token_assocs E l name) as [assocs|e] eqn:Ht.
  - rewrite (parseOCINames_step_assocs E l overrides st name assocs Ht) in Hstep.
    rewrite (parseOCINames_step_assocs E l overrides t name assocs Ht).
    by apply (addAssoc_loop_again overrides assocs st st' t).
  - by rewrite (parseOCINames_step_unresolved l overrides st name e Ht) in Hstep.
Qed.

(** X7.  A name that comes a second time on the command line changes nothing:
    the resolution gives what it gives without the repetition, the same
    descriptors or the same error. *)
Theorem parseOCINames_repeated_name
    (rng : gmap string string -> list (string * string)) (l : tarexporter)
    (before between after : list string) (name : string) :
  parseOCINames E rng l (before ++ name :: between ++ name :: after)
  = parseOCINames E rng l (before ++ name :: between ++ after).
Proof.
  unfold parseOCINames. destruct (getRefs E rng l) as [overrides|]; simpl; [|done].
  f_equal. rewrite !foldR_app.
  destruct (foldR _ before _) as [s0|]; simpl; [|done].
  destruct (parseOCINames_step E l overrides s0 name) as [s1|] eqn:Hname; simpl; [|done].
  rewrite !foldR_app.
  destruct (foldR _ between s1) as [s2|] eqn:Hbetween; simpl; [|done].
  by rewrite (parseOCINames_step_again l overrides s0 name s1 s2 Hname
                (names_le_steps l overrides between s1 s2 Hbetween)).
Qed.

(** *** Names that do not resolve *)

(** X8.  A name whose lookups fail (an ID that is not in the image store, a
    reference the reference store does not hold, a name with no reference
    that no image ID starts with) makes [parseOCINames] fail, wherever it
    stands among the names; when it stands alone and the overrides pass
    [getRefs], the error is the one of the lookup. *)
Theorem parseOCINames_unresolved_name
    (rng : gmap string string -> list (string * string)) (l : tarexporter)
    (names : list string) (name : string) (e : Error) :
  name ∈ names ->
  token_assocs E l name = Err e ->
  is_ok (parseOCINames E rng l names) = false
  /\ (is_ok (getRefs E rng l) = true -> parseOCINames E rng l [name] = Err e).
Proof.
  intros Hin Hname. unfold parseOCINames.
  destruct (getRefs E rng l) as [overrides|]; simpl; [|done]. split.
  - pose proof (foldR_fails (parseOCINames_step E l overrides) names name (mkNames ∅ ∅) Hin)
      as Hfail.
    destruct (foldR _ names _); simpl in *; [|done]. apply Hfail.
    intros t. by rewrite (parseOCINames_step_unresolved l overrides t name e Hname).
  - intros _. by rewrite (parseOCINames_step_unresolved l overrides _ name e Hname).
Qed.

(** *** The descriptors of a resolution that succeeds *)

(** The loop over the associations, when the references they stand for are
    free of clashes: it ends well, each image met has a descriptor, and the
    descriptors hold the references seen before and these. *)
Lemma addAssoc_loop_exact overrides assocs :
  forall effs st seen,
  effective_refs E overrides assocs = Ok effs ->
  Forall (fun p => colon_free (nt_tag p.2) = true) (effs ++ seen) ->
  names_inv st seen -> clash_free (effs ++ seen) ->
  exists st',
    foldR (fun st a => addAssoc E overrides st a.1 a.2) assocs st = Ok st'
    /\ names_inv st' (effs ++ seen)
    /\ (forall id, is_Some (imgDescr st' !! id) <-> is_Some (imgDescr st !! id) \/ id ∈ assocs.*1).
Proof.
  induction assocs as [|[id ref] assocs IH]; intros effs st seen Heffs Hwf Hinv Hfree.
  - simpl in *. injection Heffs as <-. exists st. split; [done|]. split; [done|].
    intros id. set_solver.
  - cbn [foldR effective_refs] in *. simpl fst. simpl snd. rewrite addAssoc_effective.
    assert (Hdom : forall st1, names_le (touch st id) st1 ->
              forall st' : names_state,
              (forall id', is_Some (imgDescr st' !! id')
                           <-> is_Some (imgDescr st1 !! id') \/ id' ∈ assocs.*1) ->
              (forall id', is_Some (imgDescr st1 !! id') ->
                           is_Some (imgDescr (touch st id) !! id') \/ id' = id) ->
              forall id', is_Some (imgDescr st' !! id')
                          <-> is_Some (imgDescr st !! id') \/ id' ∈ ((id, ref) :: assocs).*1).
    { intros st1 Hle st' Hst' Hback id'. rewrite Hst'. simpl. rewrite elem_of_cons. split.
      - intros [H1|Hin]; [|by auto]. destruct (Hback id' H1) as [Ht| ->]; [|by auto].
        unfold touch in Ht. destruct (imgDescr st !! id) eqn:Hid; [by auto|]. simpl in Ht.
        destruct (decide (id' = id)) as [->|Hne]; [by auto|].
        rewrite lookup_insert_ne in Ht by done. by auto.
      - intros [H1|[->|Hin]]; [| |by auto].
        + left. destruct H1 as [d Hd]. destruct (names_le_touch st id id' d Hd) as (d1 & Hd1 & _).
          destruct (Hle id' d1 Hd1) as (d2 & Hd2 & _). eauto.
        + left. destruct (touch_Some st id) as [d1 Hd1].
          destruct (Hle id d1 Hd1) as (d2 & Hd2 & _). eauto. }
    destruct (effective E overrides ref) as [[t|]|e]; simpl in Heffs; [| |done].
    + destruct (effective_refs E overrides assocs) as [effs'|] eqn:Hrest; [|done].
      simpl in Heffs. injection Heffs as <-.
      apply names_inv_touch with (id := id) in Hinv.
      assert (Hwt : colon_free (nt_tag t) = true).
      { rewrite Forall_forall in Hwf. apply (Hwf (id, t)). set_solver. }
      assert (Hws : Forall (fun p => colon_free (nt_tag p.2) = true) seen).
      { rewrite Forall_forall in Hwf |- *. intros p Hp. apply Hwf. set_solver. }
      assert (Hfree0 : clash_free seen).
      { intros p q Hp Hq. apply Hfree; set_solver. }
      pose proof (attach_spec (touch st id) seen id t Hinv Hfree0 Hwt Hws) as Hatt.
      destruct (attach (touch st id) id t) as [st1|e] eqn:Hattach; simpl.
      * destruct Hatt as [_ Hinv1].
        assert (Hwf1 : Forall (fun p => colon_free (nt_tag p.2) = true)
                         (effs' ++ (id, t) :: seen)).
        { rewrite Forall_forall in Hwf |- *. intros p Hp. apply Hwf. set_solver. }
        assert (Hfree1 : clash_free (effs' ++ (id, t) :: seen)).
        { apply (clash_free_same (((id, t) :: effs') ++ seen)); [set_solver|done]. }
        destruct (IH effs' st1 ((id, t) :: seen) eq_refl Hwf1 Hinv1 Hfree1)
          as (st' & Hloop & Hinv' & Hdom').
        exists st'. split; [done|]. split.
        -- apply (names_inv_same st' (effs' ++ (id, t) :: seen)); [set_solver|done].
        -- apply (Hdom st1); [by apply names_le_attach in Hattach|done|].
           intros id' [d Hd]. unfold attach in Hattach.
           destruct (existsb _ _); [injection Hattach as <-; eauto|].
           case_bool_decide; [done|]. injection Hattach as <-. simpl in Hd.
           destruct (decide (id' = id)) as [->|Hne]; [by right|].
           rewrite lookup_insert_ne in Hd by done. eauto.
      * exfalso. destruct Hatt as (q & Hq & [Htag Hne] & _).
        apply Hne. apply Hfree; set_solver.
    + destruct (effective_refs E overrides assocs) as [effs'|] eqn:Hrest; [|done].
      simpl in Heffs. injection Heffs as <-.
      apply names_inv_touch with (id := id) in Hinv.
      destruct (IH effs' (touch st id) seen eq_refl Hwf Hinv Hfree) as (st' & Hloop & Hinv' & Hdom').
      exists st'. split; [done|]. split; [done|].
      apply (Hdom (touch st id)); [apply names_le_refl|done|by left].
Qed.

(** X9.  The converse of the rejection of a shared tag, and what is returned.
    Let the overrides pass [getRefs], every name resolve, and let [effs] be
    the references the names stand for once the overrides are applied (tags
    hold no colon).  If no two of them clash, [parseOCINames] succeeds; the
    map it returns has a descriptor exactly for the images the names stand
    for, and the descriptor of an image holds exactly the references of
    [effs] for that image. *)
Theorem parseOCINames_resolves
    (rng : gmap string string -> list (string * string)) (l : tarexporter)
    (names : list string) (overrides : gmap string string)
    (assocs : list (ID * option Named)) (effs : list (ID * NamedTagged)) :
  getRefs E rng l = Ok overrides ->
  names_assocs E l names = Ok assocs ->
  effective_refs E overrides assocs = Ok effs ->
  Forall (fun p => colon_free (nt_tag p.2) = true) effs ->
  clash_free effs ->
  exists images,
    parseOCINames E rng l names = Ok images
    /\ (forall id, is_Some (images !! id) <-> id ∈ assocs.*1)
    /\ (forall id t, t ∈ refs (default (mkDescr []) (images !! id)) <-> (id, t) ∈ effs).
Proof.
  intros Hget Hassocs Heffs Hwf Hfree.
  unfold parseOCINames. rewrite Hget. simpl.
  rewrite (parseOCINames_loop_assocs E l overrides names _ assocs Hassocs).
  assert (Hinit : names_inv (mkNames ∅ ∅) []).
  { split.
    - intros t. simpl. split; [set_solver|]. intros (p & Hp & _). by apply elem_of_nil in Hp.
    - intros id t. unfold refs_of. simpl. rewrite lookup_empty. simpl. set_solver. }
  rewrite <- (app_nil_r effs) in Hwf, Hfree.
  destruct (addAssoc_loop_exact overrides assocs effs _ [] Heffs Hwf Hinit Hfree)
    as (st' & Hloop & [_ Hrefs] & Hdom).
  rewrite Hloop. simpl. exists (imgDescr st'). split; [done|]. split.
  - intros id. rewrite Hdom. simpl. rewrite lookup_empty. split; [|by right].
    intros [[? [=]]|?]; done.
  - intros id t. rewrite <- (app_nil_r effs). apply Hrefs.
Qed.

End Resolve_result.

(** ** The OCI save session: the directory it stages *)

(** What [saveImage] leaves alone until it hands over a manifest: the files
    under [refs/], the marker, the manifest cache and the references written
    so far. *)
Definition same_refs (s s' : ociSaveSession) : Prop :=
  dir_refs (tempDir s') = dir_refs (tempDir s)
  /\ dir_layout (tempDir s') = dir_layout (tempDir s)
  /\ savedImages s' = savedImages s
  /\ manifest_dests (calls s') = manifest_dests (calls s).

(** The files under [refs/] are the references manifests were handed over
    for, and the marker is there as soon as there is one. *)
Definition refs_written (s : ociSaveSession) : Prop :=
  (forall name, is_Some (dir_refs (tempDir s) !! name) <-> name ∈ manifest_dests (calls s))
  /\ dir_layout (tempDir s)
     = match manifest_dests (calls s) with [] => None | _ => Some oci_layout_marker end.

Section Save_archive.
Context (E : Env) (l : tarexporter).

(** The descriptor [PutManifest] writes under [refs/] for a manifest. *)
Definition manifest_descriptor (mjson : bytes) : Descriptor :=
  mkDescriptor MediaTypeImageManifest (digestFromBytes E mjson) (size_of mjson).

(** The staged directory is consistent: a blob lies under the digest of its
    content; the blobs the layer cache and the cached manifests name are
    staged; and every file under [refs/] is the descriptor of a cached
    manifest. *)
Record archive_ok (s : ociSaveSession) : Prop := {
  arc_addressed : forall d c, dir_blobs (tempDir s) !! d = Some c -> digestFromBytes E c = d;
  arc_cache : forall dd info, diffIDsCache s !! dd = Some info ->
    is_Some (dir_blobs (tempDir s) !! li_digest info);
  arc_manifests : forall id mjson, savedImages s !! id = Some mjson ->
    exists m, mjson = marshalManifest E m
      /\ is_Some (dir_blobs (tempDir s) !! digestFromBytes E mjson)
      /\ forall d, d ∈ Config m :: Layers m -> is_Some (dir_blobs (tempDir s) !! desc_Digest d);
  arc_refs : forall name content, dir_refs (tempDir s) !! name = Some content ->
    exists id mjson, savedImages s !! id = Some mjson
      /\ content = marshalDescriptor E (manifest_descriptor mjson)
}.

Lemma same_refs_refl s : same_refs s s.
Proof. by repeat split. Qed.

Lemma same_refs_trans s1 s2 s3 : same_refs s1 s2 -> same_refs s2 s3 -> same_refs s1 s3.
Proof. intros (?&?&?&?) (?&?&?&?). repeat split; congruence. Qed.

Lemma same_refs_PutBlob dest c s : same_refs s (PutBlob E dest c s).2.
Proof.
  repeat split; simpl. rewrite manifest_dests_app. simpl. apply app_nil_r.
Qed.

Lemma same_refs_written s s' : same_refs s s' -> refs_written s -> refs_written s'.
Proof. intros (Hr & Hl & _ & Hd) [H1 H2]. split; [by rewrite Hr, Hd|by rewrite Hl, Hd]. Qed.

Lemma saveLayer_same_refs dest diffIDs i ms : same_refs ms.2 (saveLayer E l dest diffIDs i ms).2.2.
Proof.
  pose proof (saveLayer_step E l dest diffIDs i ms) as Hstep.
  destruct (l_ls l !! CreateChainID E (take (S i) diffIDs)) as [ly|].
  - destruct (diffIDsCache ms.2 !! layer_DiffID ly) as [info|]; rewrite Hstep; simpl.
    + apply same_refs_refl.
    + repeat split; simpl. rewrite manifest_dests_app. simpl. apply app_nil_r.
  - destruct Hstep as [e ->]. apply same_refs_refl.
Qed.

Lemma saveLayers_same_refs dest diffIDs idxs ms :
  same_refs ms.2 (foldS (saveLayer E l dest diffIDs) idxs ms).2.2.
Proof.
  apply (foldS_invariant (fun ms' => same_refs ms.2 ms'.2)); [|apply same_refs_refl].
  intros i ms' _ Hms'. eapply same_refs_trans; [exact Hms'|apply saveLayer_same_refs].
Qed.

(** [saveImage], seen from [refs/]: when it fails nothing is written there;
    when it succeeds the file of the destination holds the descriptor of the
    manifest cached for the image, and the marker is in place. *)
Lemma saveImage_refs id dest s :
  let out := saveImage E l id dest s in
  match out.1 with
  | Err _ => same_refs s out.2
  | Ok _ =>
      exists mjson,
        savedImages out.2 !! id = Some mjson
        /\ dir_refs (tempDir out.2)
           = <[dest := marshalDescriptor E (manifest_descriptor mjson)]> (dir_refs (tempDir s))
        /\ dir_blobs (tempDir out.2) !! digestFromBytes E mjson = Some mjson
        /\ dir_layout (tempDir out.2) = Some oci_layout_marker
        /\ manifest_dests (calls out.2) = manifest_dests (calls s) ++ [dest]
  end.
Proof.
  intros out. subst out. unfold saveImage.
  destruct (savedImages s !! id) as [m|] eqn:Hsaved.
  - simpl. exists m. split; [done|]. split; [done|]. split; [by rewrite lookup_insert_eq|].
    split; [done|]. by rewrite manifest_dests_app.
  - destruct (is_Get E (l_is l) id) as [img|e]; [|apply same_refs_refl].
    cbv zeta. destruct (List.length (DiffIDs (img_RootFS img)) =? 0); [apply same_refs_refl|].
    pose proof (saveLayers_same_refs dest (DiffIDs (img_RootFS img))
                  (seq 0 (List.length (DiffIDs (img_RootFS img))))
                  (manifest_of_config (PutBlob E dest (RawJSON img) s).1.1
                     (PutBlob E dest (RawJSON img) s).1.2,
                   (PutBlob E dest (RawJSON img) s).2)) as Hfr.
    destruct (foldS _ _ _) as [[[]|e] ms]; simpl in Hfr |- *.
    + destruct Hfr as (Hr & Hl & Hs & Hd). simpl in *.
      exists (marshalManifest E ms.1). split; [by rewrite lookup_insert_eq|].
      split; [by rewrite Hr|]. split; [by rewrite lookup_insert_eq|]. split; [done|].
      rewrite manifest_dests_app, Hd, manifest_dests_app. simpl. by rewrite app_nil_r.
    + eapply same_refs_trans; [apply (same_refs_PutBlob dest (RawJSON img) s)|exact Hfr].
Qed.

Lemma refs_written_saveImage id dest s :
  refs_written s -> refs_written (saveImage E l id dest s).2.
Proof.
  intros Hw. pose proof (saveImage_refs id dest s) as H. cbv zeta in H.
  destruct (saveImage E l id dest s) as [[[]|e] s']; simpl in *.
  - destruct H as (mjson & _ & Hr & _ & Hl & Hd). destruct Hw as [H1 H2]. split.
    + intros name. rewrite Hr, Hd, elem_of_app, list_elem_of_singleton, <- H1.
      destruct (decide (name = dest)) as [->|Hne].
      * rewrite lookup_insert_eq. split; [by right|eauto].
      * rewrite lookup_insert_ne by done. split; [by left|]. by intros [?|?].
    + rewrite Hl, Hd. by destruct (manifest_dests (calls s)).
  - by apply (same_refs_written s).
Qed.

Lemma refs_written_save_ref id n s :
  refs_written s -> refs_written (save_ref E l id n s).2.
Proof.
  intros Hw. unfold save_ref. destruct (oci_NewReference n); [|done].
  by apply refs_written_saveImage.
Qed.

Lemma save_entry_refs_invariant (P : ociSaveSession -> Prop) :
  (forall id dest s, P s -> P (saveImage E l id dest s).2) ->
  forall entry s, P s -> P (save_entry E l entry s).2.
Proof.
  intros Hstep [id info] s Hs. unfold save_entry.
  assert (Href : forall n t, P t -> P (save_ref E l id n t).2).
  { intros n t Ht. unfold save_ref. destruct (oci_NewReference n); [|done]. by apply Hstep. }
  pose proof (foldS_invariant P (fun i => save_ref E l id (nt_tag i)) (refs info)
                (fun i t _ Ht => Href (nt_tag i) t Ht) s Hs) as H.
  destruct (foldS _ (refs info) s) as [[[]|e] s1]; simpl in *; [|done].
  destruct (List.length (refs info) =? 0); [|done].
  destruct (digest_Hex id) as [hex|e]; [|done]. by apply Href.
Qed.

Lemma save_invariant (P : ociSaveSession -> Prop) rng images :
  (forall id dest s, P s -> P (saveImage E l id dest s).2) ->
  P (mkSession ∅ ∅ emptyDir []) -> P (save E rng l images).2.
Proof.
  intros Hstep Hinit. unfold save.
  pose proof (foldS_invariant P (save_entry E l) (rng images)
                (fun entry s _ Hs => save_entry_refs_invariant P Hstep entry s Hs) _ Hinit) as H.
  by destruct (foldS _ (rng images) _) as [[[]|e] s1].
Qed.

(** X10.  The files under [refs/] of the archive a save session writes are the
    tags of the references of its images, and for an image with no reference
    the hex of its ID; the marker [oci-layout] is there unless no image was
    given, in which case the archive is empty. *)
Theorem save_writes_refs
    (rng : gmap ID imageDescriptor -> list (ID * imageDescriptor))
    (images : gmap ID imageDescriptor) (dir : OciDir) (s : ociSaveSession) :
  RangeOrder rng ->
  save E rng l images = (Ok dir, s) ->
  (forall name,
     is_Some (dir_refs dir !! name) <->
     exists id info, images !! id = Some info
       /\ (name ∈ nt_tag <$> refs info \/ (refs info = [] /\ digest_Hex id = Ok name)))
  /\ (images <> ∅ -> dir_layout dir = Some oci_layout_marker)
  /\ (images = ∅ -> dir = emptyDir).
Proof.
  intros Hrng Hsave.
  assert (Hw : refs_written (save E rng l images).2).
  { apply save_invariant; [intros; by apply refs_written_saveImage|]. split; [|done].
    intros name. simpl. rewrite lookup_empty. split; [by intros [? [=]]|by intros ?%elem_of_nil]. }
  destruct (save_ok E l rng images) as (Hok & _ & Hd).
  rewrite Hsave in Hw, Hok, Hd. simpl in Hw, Hok, Hd. specialize (Hd eq_refl).
  assert (Hdir : dir = tempDir s).
  { unfold save in Hsave. destruct (foldS _ _ _) as [[[]|e] s1]; [|done]. by injection Hsave as <- <-. }
  destruct Hw as [Hrefs Hlayout]. rewrite <- Hdir in Hrefs, Hlayout.
  assert (Hexp : forall id info, images !! id = Some info -> entry_exportable E l (id, info) = true).
  { intros id info Hid. symmetry in Hok. rewrite forallb_forall in Hok. apply Hok.
    apply list_elem_of_In. rewrite (Hrng images). by apply elem_of_map_to_list. }
  assert (Hdests : forall name, name ∈ manifest_dests (calls s) <->
            exists id info, images !! id = Some info
              /\ (name ∈ nt_tag <$> refs info \/ (refs info = [] /\ digest_Hex id = Ok name))).
  { intros name. rewrite Hd, list_elem_of_bind. split.
    - intros ([id info] & Hname & Hin). rewrite (Hrng images) in Hin.
      apply elem_of_map_to_list in Hin. exists id, info. split; [done|].
      unfold entry_dests_or_nil, entry_dests in Hname. simpl in Hname.
      destruct (refs info) as [|r rs] eqn:Hr; simpl in Hname.
      + right. split; [done|]. destruct (digest_Hex id) as [hex|]; simpl in Hname.
        * apply list_elem_of_singleton in Hname. by subst.
        * by apply elem_of_nil in Hname.
      + by left.
    - intros (id & info & Hid & Hname). exists (id, info). split.
      + unfold entry_dests_or_nil, entry_dests. simpl.
        destruct Hname as [Hname|[Hnil Hhex]].
        * destruct (refs info) as [|r rs]; [by apply elem_of_nil in Hname|done].
        * rewrite Hnil, Hhex. simpl. by apply list_elem_of_singleton.
      + rewrite (Hrng images). by apply elem_of_map_to_list. }
  split; [|split].
  - intros name. by rewrite Hrefs.
  - intros Hne. rewrite Hlayout.
    destruct (manifest_dests (calls s)) as [|n ns] eqn:Hmd; [|done]. exfalso.
    apply map_choose in Hne as (id & info & Hid).
    specialize (Hexp id info Hid). unfold entry_exportable, entry_dests in Hexp. simpl in Hexp.
    assert (Hex : exists name, name ∈ @nil string).
    { destruct (refs info) as [|r rs] eqn:Hr; simpl in Hexp.
      - destruct (digest_Hex id) as [hex|] eqn:Hhex; [|done]. exists hex.
        apply Hdests. exists id, info. split; [done|]. by right.
      - exists (nt_tag r). apply Hdests. exists id, info. split; [done|]. left. rewrite Hr.
        simpl. by left. }
    destruct Hex as [name Hname]. by apply elem_of_nil in Hname.
  - intros ->. rewrite Hdir. unfold save in Hsave.
    assert (Hnil : rng (∅ : gmap ID imageDescriptor) = []).
    { apply Permutation_nil_r. rewrite (Hrng ∅). by rewrite map_to_list_empty. }
    rewrite Hnil in Hsave. simpl in Hsave. by injection Hsave as _ <-.
Qed.

(** *** The archive is closed under its descriptors *)

Lemma blobs_grow_PutBlob dest c s d :
  is_Some (dir_blobs (tempDir s) !! d) -> is_Some (dir_blobs (tempDir (PutBlob E dest c s).2) !! d).
Proof.
  simpl. intros Hd. destruct (decide (digestFromBytes E c = d)) as [->|Hne].
  - rewrite lookup_insert_eq. eauto.
  - by rewrite lookup_insert_ne.
Qed.

Lemma blobs_grow_PutManifest dest m s d :
  is_Some (dir_blobs (tempDir s) !! d) -> is_Some (dir_blobs (tempDir (PutManifest E dest m s)) !! d).
Proof.
  simpl. intros Hd. destruct (decide (digestFromBytes E m = d)) as [->|Hne].
  - rewrite lookup_insert_eq. eauto.
  - by rewrite lookup_insert_ne.
Qed.

Lemma archive_ok_PutBlob dest c s : archive_ok s -> archive_ok (PutBlob E dest c s).2.
Proof.
  intros [H1 H2 H3 H4]. split.
  - intros d c'. simpl. destruct (decide (digestFromBytes E c = d)) as [<-|Hne].
    + rewrite lookup_insert_eq. by intros [= <-].
    + rewrite lookup_insert_ne by done. apply H1.
  - intros dd info Hdd. apply blobs_grow_PutBlob. by apply (H2 dd).
  - intros id mjson Hm. destruct (H3 id mjson Hm) as (m & -> & Hb & Hds).
    exists m. split; [done|]. split; [by apply blobs_grow_PutBlob|].
    intros d Hd. apply blobs_grow_PutBlob. by apply Hds.
  - exact H4.
Qed.

(** The layer loop keeps the directory consistent, and every descriptor of
    the manifest under construction names a staged blob. *)
Lemma saveLayer_archive dest diffIDs i ms :
  archive_ok ms.2 ->
  (forall d, d ∈ Config ms.1 :: Layers ms.1 -> is_Some (dir_blobs (tempDir ms.2) !! desc_Digest d)) ->
  let out := saveLayer E l dest diffIDs i ms in
  archive_ok out.2.2
  /\ (forall d, d ∈ Config out.2.1 :: Layers out.2.1 ->
        is_Some (dir_blobs (tempDir out.2.2) !! desc_Digest d)).
Proof.
  intros Hok Hm out. subst out.
  pose proof (saveLayer_step E l dest diffIDs i ms) as Hstep.
  destruct (l_ls l !! CreateChainID E (take (S i) diffIDs)) as [ly|].
  - destruct (diffIDsCache ms.2 !! layer_DiffID ly) as [info|] eqn:Hcache; rewrite Hstep; simpl.
    + split; [done|]. intros d Hd. rewrite app_comm_cons in Hd.
      apply elem_of_app in Hd as [Hd|Hd]; [by apply Hm|].
      apply list_elem_of_singleton in Hd as ->. simpl. by apply (arc_cache _ Hok _ _ Hcache).
    + pose proof (archive_ok_PutBlob dest (gzip E (layer_tar ly)) ms.2 Hok) as [H1 H2 H3 H4].
      split.
      * split; simpl; [exact H1| |exact H3|exact H4].
        intros dd info. destruct (decide (layer_DiffID ly = dd)) as [<-|Hne].
        -- rewrite lookup_insert_eq. intros [= <-]. simpl. rewrite lookup_insert_eq. eauto.
        -- rewrite lookup_insert_ne by done. apply H2.
      * intros d Hd. rewrite app_comm_cons in Hd.
        apply elem_of_app in Hd as [Hd|Hd].
        -- apply (blobs_grow_PutBlob dest (gzip E (layer_tar ly)) ms.2). by apply Hm.
        -- apply list_elem_of_singleton in Hd as ->. simpl. rewrite lookup_insert_eq. eauto.
  - destruct Hstep as [e ->]. done.
Qed.

Lemma saveLayers_archive dest diffIDs idxs ms :
  archive_ok ms.2 ->
  (forall d, d ∈ Config ms.1 :: Layers ms.1 -> is_Some (dir_blobs (tempDir ms.2) !! desc_Digest d)) ->
  let out := foldS (saveLayer E l dest diffIDs) idxs ms in
  archive_ok out.2.2
  /\ (forall d, d ∈ Config out.2.1 :: Layers out.2.1 ->
        is_Some (dir_blobs (tempDir out.2.2) !! desc_Digest d)).
Proof.
  intros Hok Hm.
  apply (foldS_invariant
           (fun ms' => archive_ok ms'.2
                       /\ forall d, d ∈ Config ms'.1 :: Layers ms'.1 ->
                            is_Some (dir_blobs (tempDir ms'.2) !! desc_Digest d)));
    [|by split].
  intros i ms' _ [Hok' Hm']. by apply saveLayer_archive.
Qed.

Lemma archive_ok_PutManifest id dest mjson s :
  archive_ok s -> savedImages s !! id = Some mjson -> archive_ok (PutManifest E dest mjson s).
Proof.
  intros [H1 H2 H3 H4] Hsaved. split.
  - intros d c. simpl. destruct (decide (digestFromBytes E mjson = d)) as [<-|Hne].
    + rewrite lookup_insert_eq. by intros [= <-].
    + rewrite lookup_insert_ne by done. apply H1.
  - intros dd info Hdd. apply blobs_grow_PutManifest. by apply (H2 dd).
  - intros id' mjson' Hm. destruct (H3 id' mjson' Hm) as (m & -> & Hb & Hds).
    exists m. split; [done|]. split; [by apply blobs_grow_PutManifest|].
    intros d Hd. apply blobs_grow_PutManifest. by apply Hds.
  - intros name content. simpl. destruct (decide (dest = name)) as [<-|Hne].
    + rewrite lookup_insert_eq. intros [= <-]. by exists id, mjson.
    + rewrite lookup_insert_ne by done. apply H4.
Qed.

Lemma archive_ok_saveImage id dest s :
  archive_ok s -> archive_ok (saveImage E l id dest s).2.
Proof.
  intros Hok. unfold saveImage.
  destruct (savedImages s !! id) as [m|] eqn:Hsaved; [by apply (archive_ok_PutManifest id)|].
  destruct (is_Get E (l_is l) id) as [img|e]; [|done].
  cbv zeta. destruct (List.length (DiffIDs (img_RootFS img)) =? 0); [done|].
  pose proof (archive_ok_PutBlob dest (RawJSON img) s Hok) as Hok1.
  pose proof (saveLayers_archive dest (DiffIDs (img_RootFS img))
                (seq 0 (List.length (DiffIDs (img_RootFS img))))
                (manifest_of_config (PutBlob E dest (RawJSON img) s).1.1
                   (PutBlob E dest (RawJSON img) s).1.2,
                 (PutBlob E dest (RawJSON img) s).2) Hok1) as Hloop.
  cbv zeta in Hloop.
  pose proof (saveLayers_same_refs dest (DiffIDs (img_RootFS img))
                (seq 0 (List.length (DiffIDs (img_RootFS img))))
                (manifest_of_config (PutBlob E dest (RawJSON img) s).1.1
                   (PutBlob E dest (RawJSON img) s).1.2,
                 (PutBlob E dest (RawJSON img) s).2)) as (_ & _ & Hsv & _).
  destruct (foldS _ _ _) as [[[]|e] [m s1]]; simpl in Hloop, Hsv |- *.
  - destruct Hloop as [[H1 H2 H3 H4] Hm].
    { intros d Hd. apply list_elem_of_singleton in Hd as ->. simpl. rewrite lookup_insert_eq. eauto. }
    split; simpl.
    + intros d c. destruct (decide (digestFromBytes E (marshalManifest E m) = d)) as [<-|Hne].
      * rewrite lookup_insert_eq. by intros [= <-].
      * rewrite lookup_insert_ne by done. apply H1.
    + intros dd info Hdd. apply (blobs_grow_PutManifest dest (marshalManifest E m) s1).
      by apply (H2 dd).
    + intros id' mjson'. destruct (decide (id = id')) as [<-|Hne].
      * rewrite lookup_insert_eq. intros [= <-]. exists m. split; [done|].
        split; [by rewrite lookup_insert_eq; eauto|].
        intros d Hd. apply (blobs_grow_PutManifest dest (marshalManifest E m) s1). by apply Hm.
      * rewrite lookup_insert_ne by done. intros Hm'.
        destruct (H3 id' mjson' Hm') as (m' & -> & Hb & Hds).
        exists m'. split; [done|].
        split; [by apply (blobs_grow_PutManifest dest (marshalManifest E m) s1)|].
        intros d Hd. apply (blobs_grow_PutManifest dest (marshalManifest E m) s1). by apply Hds.
    + intros name content. destruct (decide (dest = name)) as [<-|Hne].
      * rewrite lookup_insert_eq. intros [= <-]. exists id, (marshalManifest E m).
        split; [by rewrite lookup_insert_eq|done].
      * rewrite lookup_insert_ne by done. intros Hc.
        destruct (H4 name content Hc) as (id' & mjson' & Hm' & ->).
        exists id', mjson'. split; [|done]. rewrite lookup_insert_ne; [done|].
        intros <-. simpl in Hsv. rewrite Hsv in Hm'. congruence.
  - apply Hloop. intros d Hd. apply list_elem_of_singleton in Hd as ->. simpl.
    rewrite lookup_insert_eq. eauto.
Qed.

(** X11.  The archive a save session writes is closed: every file under [refs/]
    is the descriptor, of the manifest media type, of a manifest whose blob is
    in the archive, and the blob of the configuration and of every layer that
    manifest lists is in the archive too; every blob lies under the digest of
    its content. *)
Theorem save_archive_closed
    (rng : gmap ID imageDescriptor -> list (ID * imageDescriptor))
    (images : gmap ID imageDescriptor) (dir : OciDir) (s : ociSaveSession) :
  save E rng l images = (Ok dir, s) ->
  (forall name content, dir_refs dir !! name = Some content ->
     exists m,
       content = marshalDescriptor E
                   (mkDescriptor MediaTypeImageManifest
                      (digestFromBytes E (marshalManifest E m))
                      (size_of (marshalManifest E m)))
       /\ is_Some (dir_blobs dir !! digestFromBytes E (marshalManifest E m))
       /\ forall d, d ∈ Config m :: Layers m -> is_Some (dir_blobs dir !! desc_Digest d))
  /\ (forall d c, dir_blobs dir !! d = Some c -> digestFromBytes E c = d).
Proof.
  intros Hsave.
  assert (Hok : archive_ok (save E rng l images).2).
  { apply save_invariant; [intros; by apply archive_ok_saveImage|]. split; simpl.
    - intros d c. by rewrite lookup_empty.
    - intros dd info. by rewrite lookup_empty.
    - intros id mjson. by rewrite lookup_empty.
    - intros name content. by rewrite lookup_empty. }
  assert (Hdir : dir = tempDir s).
  { unfold save in Hsave. destruct (foldS _ _ _) as [[[]|e] s1]; [|done]. by injection Hsave as <- <-. }
  rewrite Hsave in Hok. simpl in Hok. destruct Hok as [H1 _ H3 H4]. rewrite <- Hdir in *.
  split; [|exact H1].
  intros name content Hc. destruct (H4 name content Hc) as (id & mjson & Hm & ->).
  destruct (H3 id mjson Hm) as (m & -> & Hb & Hds). by exists m.
Qed.

(** *** The manifest of an image *)

Lemma saveLayers_manifest dest diffIDs idxs :
  forall ms,
  let out := foldS (saveLayer E l dest diffIDs) idxs ms in
  SchemaVersion out.2.1 = SchemaVersion ms.1
  /\ MediaType out.2.1 = MediaType ms.1
  /\ Config out.2.1 = Config ms.1
  /\ exists ds, Layers out.2.1 = Layers ms.1 ++ ds
       /\ Forall (fun d => desc_MediaType d = MediaTypeImageLayer) ds
       /\ (is_ok out.1 = true -> List.length ds = List.length idxs).
Proof.
  induction idxs as [|i idxs IH]; intros ms out; subst out.
  - simpl. repeat split. exists []. by rewrite app_nil_r.
  - cbn [foldS]. pose proof (saveLayer_step E l dest diffIDs i ms) as Hstep.
    assert (Hnext : forall d s1, desc_MediaType d = MediaTypeImageLayer ->
              let out := foldS (saveLayer E l dest diffIDs) idxs (append_layer ms.1 d, s1) in
              SchemaVersion out.2.1 = SchemaVersion ms.1
              /\ MediaType out.2.1 = MediaType ms.1
              /\ Config out.2.1 = Config ms.1
              /\ exists ds, Layers out.2.1 = Layers ms.1 ++ ds
                   /\ Forall (fun d => desc_MediaType d = MediaTypeImageLayer) ds
                   /\ (is_ok out.1 = true -> List.length ds = S (List.length idxs))).
    { intros d s1 Hd. destruct (IH (append_layer ms.1 d, s1)) as (H1 & H2 & H3 & ds & H4 & H5 & H6).
      cbv zeta. split; [done|]. split; [done|]. split; [done|].
      exists (d :: ds). split; [by rewrite H4; simpl; rewrite <- app_assoc|].
      split; [by constructor|]. intros Hok. simpl. by rewrite H6. }
    destruct (l_ls l !! CreateChainID E (take (S i) diffIDs)) as [ly|].
    + destruct (diffIDsCache ms.2 !! layer_DiffID ly) as [info|]; rewrite Hstep; by apply Hnext.
    + destruct Hstep as [e ->]. simpl. repeat split. exists []. rewrite app_nil_r. by repeat split.
Qed.

(** X12.  The manifest [saveImage] builds for an image it meets for the first
    time: schema version 2 and the manifest media type; the descriptor of the
    configuration, which is the digest and the size of the image's JSON; one
    descriptor of the layer media type per diff ID.  Its JSON is cached for the
    image and staged as a blob, and the file of the destination under [refs/]
    holds its descriptor. *)
Theorem saveImage_builds_manifest (id : ID) (dest : string) (s s' : ociSaveSession) (img : Image) :
  savedImages s !! id = None ->
  is_Get E (l_is l) id = Ok img ->
  saveImage E l id dest s = (Ok tt, s') ->
  exists m,
    savedImages s' !! id = Some (marshalManifest E m)
    /\ SchemaVersion m = 2%Z
    /\ MediaType m = MediaTypeImageManifest
    /\ Config m = mkDescriptor MediaTypeImageConfig (digestFromBytes E (RawJSON img))
                    (size_of (RawJSON img))
    /\ List.length (Layers m) = List.length (DiffIDs (img_RootFS img))
    /\ Forall (fun d => desc_MediaType d = MediaTypeImageLayer) (Layers m)
    /\ dir_blobs (tempDir s') !! digestFromBytes E (marshalManifest E m)
       = Some (marshalManifest E m)
    /\ dir_refs (tempDir s') !! dest
       = Some (marshalDescriptor E
                 (mkDescriptor MediaTypeImageManifest
                    (digestFromBytes E (marshalManifest E m))
                    (size_of (marshalManifest E m)))).
Proof.
  intros Hsaved Hget. unfold saveImage. rewrite Hsaved, Hget. cbv zeta.
  destruct (List.length (DiffIDs (img_RootFS img)) =? 0); [done|].
  pose proof (saveLayers_manifest dest (DiffIDs (img_RootFS img))
                (seq 0 (List.length (DiffIDs (img_RootFS img))))
                (manifest_of_config (PutBlob E dest (RawJSON img) s).1.1
                   (PutBlob E dest (RawJSON img) s).1.2,
                 (PutBlob E dest (RawJSON img) s).2)) as H.
  cbv zeta in H. destruct (foldS _ _ _) as [[[]|e] [m s1]]; [|done].
  simpl in H. destruct H as (H1 & H2 & H3 & ds & H4 & H5 & H6).
  intros [= <-]. exists m. simpl. split; [by rewrite lookup_insert_eq|].
  split; [done|]. split; [done|]. split; [done|].
  split; [by rewrite H4, (H6 eq_refl), length_seq|]. split; [by rewrite H4|].
  split; by rewrite lookup_insert_eq.
Qed.

(** An image that is not cached goes through exactly when it can be
    exported. *)
Lemma saveImage_uncached_ok id dest s :
  savedImages s !! id = None ->
  is_ok (saveImage E l id dest s).1 = image_exportable E l id.
Proof.
  intros Hsaved. unfold saveImage, image_exportable. rewrite Hsaved.
  destruct (is_Get E (l_is l) id) as [img|e]; [|done].
  cbv zeta. destruct (List.length (DiffIDs (img_RootFS img)) =? 0); [done|].
  simpl negb. simpl andb.
  pose proof (saveLayers_ok E l dest (DiffIDs (img_RootFS img))
                (seq 0 (List.length (DiffIDs (img_RootFS img))))
                (manifest_of_config (PutBlob E dest (RawJSON img) s).1.1
                   (PutBlob E dest (RawJSON img) s).1.2,
                 (PutBlob E dest (RawJSON img) s).2)) as (Hok & _ & _).
  cbv zeta in Hok. by destruct (foldS _ _ _) as [[[]|e] ms].
Qed.

(** X13.  An image that was not saved before in the session and cannot be
    exported (it is not in the image store, or has no layer, or lacks a layer
    in the layer store) makes [saveImage] fail before it comes to
    [PutManifest]: whatever blobs it has staged by then, no file under
    [refs/] is written or changed, the marker is as it was, and no manifest is
    cached.  The error is left open: the calls that stage a blob, which are
    taken to go through here, come before the lookup that fails and could
    only make [saveImage] return earlier. *)
Theorem saveImage_failure_leaves_no_ref (id : ID) (dest : string) (s : ociSaveSession) :
  savedImages s !! id = None ->
  image_exportable E l id = false ->
  let out := saveImage E l id dest s in
  is_ok out.1 = false
  /\ dir_refs (tempDir out.2) = dir_refs (tempDir s)
  /\ dir_layout (tempDir out.2) = dir_layout (tempDir s)
  /\ savedImages out.2 = savedImages s
  /\ manifest_dests (calls out.2) = manifest_dests (calls s).
Proof.
  intros Hsaved Hexp out. subst out.
  pose proof (saveImage_uncached_ok id dest s Hsaved) as Hok. rewrite Hexp in Hok.
  split; [exact Hok|].
  pose proof (saveImage_refs id dest s) as H. cbv zeta in H.
  destruct (saveImage E l id dest s) as [[[]|e] s']; [done|]. exact H.
Qed.

(** *** When a session succeeds *)

Lemma layers_available_spec diffIDs n :
  layers_available E l diffIDs (seq 0 n) = true <->
  forall i, i < n -> is_Some (l_ls l !! CreateChainID E (take (S i) diffIDs)).
Proof.
  unfold layers_available. rewrite forallb_forall. split.
  - intros Hall i Hi. specialize (Hall i). rewrite bool_decide_eq_true in Hall.
    apply Hall, in_seq. lia.
  - intros Hall i Hi. apply in_seq in Hi. apply bool_decide_eq_true, Hall. lia.
Qed.

Lemma image_exportable_spec id :
  image_exportable E l id = true <->
  exists img, is_Get E (l_is l) id = Ok img
    /\ DiffIDs (img_RootFS img) <> []
    /\ forall i, i < List.length (DiffIDs (img_RootFS img)) ->
         is_Some (l_ls l !! CreateChainID E (take (S i) (DiffIDs (img_RootFS img)))).
Proof.
  unfold image_exportable. destruct (is_Get E (l_is l) id) as [img|e].
  - cbv zeta. rewrite andb_true_iff, negb_true_iff, Nat.eqb_neq, layers_available_spec. split.
    + intros [Hlen Hall]. exists img. split; [done|]. split; [|done].
      by destruct (DiffIDs (img_RootFS img)).
    + intros (img' & [= <-] & Hne & Hall). split; [|done].
      by destruct (DiffIDs (img_RootFS img)).
  - split; [done|]. by intros (img & [=] & _).
Qed.

Lemma entry_exportable_spec id info :
  entry_exportable E l (id, info) = true <->
  image_exportable E l id = true
  /\ (forall t, t ∈ refs info -> ociRefRegexp_MatchString (nt_tag t) = true)
  /\ (refs info = [] ->
      exists hex, digest_Hex id = Ok hex /\ ociRefRegexp_MatchString hex = true).
Proof.
  unfold entry_exportable, entry_dests. simpl. destruct (refs info) as [|r rs] eqn:Hr; simpl.
  - destruct (digest_Hex id) as [hex|e]; simpl.
    + rewrite andb_true_r, andb_true_iff. split.
      * intros [Hm Hi]. split; [done|]. split; [by intros t ?%elem_of_nil|]. intros _. by exists hex.
      * intros (Hi & _ & Hhex). destruct (Hhex eq_refl) as (hex' & [= <-] & Hm). done.
    + split; [done|]. intros (_ & _ & Hhex). by destruct (Hhex eq_refl) as (hex' & [=] & _).
  - rewrite andb_true_iff, andb_true_iff, forallb_forall. split.
    + intros [[Hm Hi] Hall]. split; [done|]. split; [|done].
      intros t Ht. apply elem_of_cons in Ht as [->|Ht]; [done|].
      assert (Hin : In (nt_tag t) (nt_tag <$> rs)).
      { apply list_elem_of_In, list_elem_of_fmap. by exists t. }
      by apply Hall, andb_true_iff in Hin as [? _].
    + intros (Hi & Hall & _). split.
      * split; [|done]. apply Hall. by left.
      * intros n Hn. apply list_elem_of_In, list_elem_of_fmap in Hn as (t & -> & Ht).
        rewrite Hi, andb_true_r. apply Hall. by right.
Qed.

(** X14.  When a save session succeeds (staging a blob and reading a layer taken
    not to fail): exactly when every image to save is in the image store, has
    a layer, and has all its layers in the layer store; the tag of each of its
    references is in the class of [ociRefRegexp]; and an image with no
    reference has an ID with a hex part in that class. *)
Theorem save_succeeds_iff
    (rng : gmap ID imageDescriptor -> list (ID * imageDescriptor))
    (images : gmap ID imageDescriptor) :
  RangeOrder rng ->
  (is_ok (save E rng l images).1 = true <->
   forall id info, images !! id = Some info ->
     (exists img, is_Get E (l_is l) id = Ok img
        /\ DiffIDs (img_RootFS img) <> []
        /\ forall i, i < List.length (DiffIDs (img_RootFS img)) ->
             is_Some (l_ls l !! CreateChainID E (take (S i) (DiffIDs (img_RootFS img)))))
     /\ (forall t, t ∈ refs info -> ociRefRegexp_MatchString (nt_tag t) = true)
     /\ (refs info = [] ->
         exists hex, digest_Hex id = Ok hex /\ ociRefRegexp_MatchString hex = true)).
Proof.
  intros Hrng. destruct (save_ok E l rng images) as (-> & _ & _).
  rewrite forallb_forall. split.
  - intros Hall id info Hid. rewrite <- image_exportable_spec. apply entry_exportable_spec.
    apply Hall, list_elem_of_In. rewrite (Hrng images). by apply elem_of_map_to_list.
  - intros Hall [id info] Hin. apply list_elem_of_In in Hin. rewrite (Hrng images) in Hin.
    apply elem_of_map_to_list in Hin. apply entry_exportable_spec.
    rewrite image_exportable_spec. by apply Hall.
Qed.

Lemma list_bind_ext_in {A B} (f g : A -> list B) (xs : list A) :
  (forall x, x ∈ xs -> f x = g x) -> xs ≫= f = xs ≫= g.
Proof.
  induction xs as [|x xs IH]; intros Hfg; [done|].
  rewrite !bind_cons. f_equal; [apply Hfg; by left|].
  apply IH. intros y Hy. apply Hfg. by right.
Qed.

(** X15.  Resolution and save together.  The images [parseOCINames] returns,
    when each of them has a reference, are saved with one file under [refs/]
    per reference: the session hands over one manifest per reference, no two
    of them for the same name, so no file under [refs/] is written twice and
    there are as many files as references. *)
Theorem save_one_file_per_reference
    (rngN : gmap string string -> list (string * string))
    (rngS : gmap ID imageDescriptor -> list (ID * imageDescriptor))
    (names : list string) (images : gmap ID imageDescriptor)
    (dir : OciDir) (s : ociSaveSession) :
  parseOCINames E rngN l names = Ok images ->
  (forall id info, images !! id = Some info -> refs info <> []) ->
  RangeOrder rngS ->
  save E rngS l images = (Ok dir, s) ->
  NoDup (manifest_dests (calls s))
  /\ manifest_dests (calls s) = rngS images ≫= (fun entry => nt_tag <$> refs entry.2)
  /\ size (dir_refs dir) = List.length (manifest_dests (calls s)).
Proof.
  intros Hparse Hrefs Hrng Hsave.
  destruct (parseOCINames_tags_unique E _ _ _ _ Hparse) as (st & -> & _ & Huniq).
  destruct (save_ok E l rngS (imgDescr st)) as (_ & _ & Hd).
  rewrite Hsave in Hd. simpl in Hd. specialize (Hd eq_refl).
  assert (Hin : forall id info, (id, info) ∈ rngS (imgDescr st) -> imgDescr st !! id = Some info).
  { intros id info H. rewrite (Hrng _) in H. by apply elem_of_map_to_list in H. }
  assert (Hdests : manifest_dests (calls s)
                   = rngS (imgDescr st) ≫= (fun entry => nt_tag <$> refs entry.2)).
  { rewrite Hd. apply list_bind_ext_in. intros [id info] Hentry.
    unfold entry_dests_or_nil, entry_dests. simpl.
    specialize (Hrefs id info (Hin id info Hentry)). by destruct (refs info). }
  assert (Hnodup : NoDup (manifest_dests (calls s))).
  { rewrite Hdests. apply NoDup_bind.
    - intros [id1 d1] [id2 d2] y H1 H2 Hy1 Hy2. simpl in Hy1, Hy2.
      apply Hin in H1, H2.
      apply list_elem_of_fmap in Hy1 as (t1 & -> & Ht1), Hy2 as (t2 & Htag & Ht2).
      apply list_elem_of_lookup in Ht1 as [i Hi], Ht2 as [j Hj].
      destruct (Huniq id1 id2 i j t1 t2) as [-> _]; [| |done|].
      + unfold refs_of. by rewrite H1.
      + unfold refs_of. by rewrite H2.
      + congruence.
    - intros [id d] Hentry. simpl. apply Hin in Hentry. apply NoDup_alt.
      intros i j y Hi Hj. rewrite list_lookup_fmap in Hi, Hj.
      destruct (refs d !! i) as [t1|] eqn:H1; [|done].
      destruct (refs d !! j) as [t2|] eqn:H2; [|done].
      simpl in Hi, Hj. injection Hi as <-. injection Hj as Htag.
      apply (Huniq id id i j t1 t2); [| |done].
      + unfold refs_of. by rewrite Hentry.
      + unfold refs_of. by rewrite Hentry.
    - rewrite (Hrng _). apply NoDup_map_to_list. }
  split; [done|]. split; [done|].
  assert (Hw : refs_written (save E rngS l (imgDescr st)).2).
  { apply save_invariant; [intros; by apply refs_written_saveImage|]. split; [|done].
    intros name. simpl. rewrite lookup_empty. split; [by intros [? [=]]|by intros ?%elem_of_nil]. }
  rewrite Hsave in Hw. simpl in Hw. destruct Hw as [Hnames _].
  assert (Hdir : dir = tempDir s).
  { unfold save in Hsave. destruct (foldS _ _ _) as [[[]|e] s1]; [|done]. by injection Hsave as <- <-. }
  rewrite Hdir, <- (size_dom (dir_refs (tempDir s))).
  rewrite <- (size_list_to_set (C := gset string) _ Hnodup). f_equal.
  apply set_eq. intros name. by rewrite elem_of_dom, Hnames, elem_of_list_to_set.
Qed.

End Save_archive.

(** ** The OCI load session: what it reports, and what it leaves alone *)

Lemma string_app_nil_r (s : string) : s +:+ EmptyString = s.
Proof. induction s as [|c s IH]; [done|]. by rewrite append_cons, IH. Qed.

Lemma string_app_assoc (s1 s2 s3 : string) : (s1 +:+ s2) +:+ s3 = s1 +:+ (s2 +:+ s3).
Proof. induction s1 as [|c s1 IH]; [done|]. by rewrite !append_cons, IH. Qed.

(** The lines [loadOCI] accumulates in [imageIDsStr] for the images [ids]. *)
Fixpoint load_lines (ids : list ID) : string :=
  match ids with
  | [] => EmptyString
  | id :: rest => ("Loaded image ID: " +:+ id +:+ newline) +:+ load_lines rest
  end.

Section Load_report.
Context (E : Env).

(** The manifest [filepath.Walk] records for a file under [refs/]. *)
Definition ref_manifest (dir : OciDir) (name : string) : result Manifest :=
  content ← read_file (dir_refs dir) name;
  descriptor ← of_option (unmarshalDescriptor E content) "invalid descriptor";
  manifestPath ← blob_path (desc_Digest descriptor);
  content ← read_file (dir_blobs dir) manifestPath;
  of_option (unmarshalManifest E content) "invalid manifest".

Lemma walk_ref_manifest dir manifests name :
  walk_ref E dir manifests name
  = (man ← ref_manifest dir name; Ok (<[name := man]> manifests)).
Proof.
  unfold walk_ref, ref_manifest.
  destruct (read_file (dir_refs dir) name) as [content|]; simpl; [|done].
  destruct (of_option (unmarshalDescriptor E content) _) as [descriptor|]; simpl; [|done].
  destruct (blob_path (desc_Digest descriptor)) as [path|]; simpl; [|done].
  destruct (read_file (dir_blobs dir) path) as [content'|]; simpl; [|done].
  by destruct (of_option (unmarshalManifest E content') _).
Qed.

(** The walk records a manifest under the name of each file it visits, and
    under no other name. *)
Lemma walk_names dir names :
  forall acc manifests,
  foldR (walk_ref E dir) names acc = Ok manifests ->
  forall name, is_Some (manifests !! name) <-> is_Some (acc !! name) \/ name ∈ names.
Proof.
  induction names as [|n names IH]; intros acc manifests; simpl.
  - intros [= <-] name. set_solver.
  - rewrite walk_ref_manifest. destruct (ref_manifest dir n) as [man|]; simpl; [|done].
    intros Hrest name. rewrite (IH _ _ Hrest name), elem_of_cons.
    destruct (decide (name = n)) as [->|Hne].
    + rewrite lookup_insert_eq. split; [by intros _; right; left|]. intros _. left. eauto.
    + rewrite lookup_insert_ne by done. split; intros [?|?]; auto. by destruct H as [?|?]; auto.
Qed.

(** The walk fails when it meets a file it cannot read a manifest for. *)
Lemma walk_fails dir names name e :
  name ∈ names -> ref_manifest dir name = Err e ->
  forall acc, is_ok (foldR (walk_ref E dir) names acc) = false.
Proof.
  intros Hin Hbad acc. apply (foldR_fails _ _ name); [done|].
  intros t. by rewrite walk_ref_manifest, Hbad.
Qed.

Lemma walk_order_names dir name : name ∈ walk_order dir <-> is_Some (dir_refs dir !! name).
Proof.
  unfold walk_order. rewrite merge_sort_Permutation, list_elem_of_fmap. split.
  - intros ([k v] & -> & Hin). apply elem_of_map_to_list in Hin. simpl. eauto.
  - intros [v Hv]. exists (name, v). split; [done|]. by apply elem_of_map_to_list.
Qed.

(** A manifest that loads: what it adds to the state. *)
Lemma loadManifest_success dir ref m st st' :
  loadManifest E dir (ref, m) st = (Ok tt, st') ->
  exists config img hyd,
    manifest_config E dir m = Ok (config, img)
    /\ ld_is st' = <[digestFromBytes E config := config]> (ld_is st)
    /\ ld_out st' = ld_out st
    /\ ld_events st'
       = ld_events st ++ [(digestFromBytes E config, digestFromBytes E config, "load")]
    /\ imageIDsStr st' = imageIDsStr st +:+ load_lines [digestFromBytes E config]
    /\ imageRefCount st' = 0
    /\ ld_deferred st' = ld_deferred st ++ hyd
    /\ Forall2 (fun d ly => d = layer_DiffID ly) (DiffIDs (img_RootFS img)) hyd.
Proof.
  unfold loadManifest.
  destruct (manifest_config E dir m) as [[config img]|e0] eqn:Hcfg; [|done].
  destruct (negb _); [done|].
  pose proof (loadLayers_spec E dir m (DiffIDs (img_RootFS img)) 0
                (mkRootFS (rootfs_Type (img_RootFS img)) []) st) as Hspec.
  cbv zeta in Hspec. destruct Hspec as (Hfr & hyd & Hdef & Hok & _).
  destruct (loadLayers E dir m 0 _ _ st) as [[[]|e1] st1]; simpl in *; [|done].
  unfold is_Create. destruct (NewFromJSON E config); [|done].
  intros [= <-]. simpl. destruct Hfr as (His & _ & Hout & Hev & _ & Hstr).
  exists config, img, hyd. rewrite His, Hout, Hev, Hstr, string_app_nil_r.
  repeat split; try done. by apply Hok.
Qed.

(** A manifest that fails: what it leaves alone. *)
Lemma loadManifest_failure_frame dir entry st e st' :
  loadManifest E dir entry st = (Err e, st') -> same_but_layers st st'.
Proof.
  destruct entry as [ref m]. unfold loadManifest.
  destruct (manifest_config E dir m) as [[config img]|e0];
    [|intros [= <- <-]; apply same_but_layers_refl].
  destruct (negb _); [intros [= <- <-]; apply same_but_layers_refl|].
  pose proof (loadLayers_spec E dir m (DiffIDs (img_RootFS img)) 0
                (mkRootFS (rootfs_Type (img_RootFS img)) []) st) as [Hfr _].
  cbv zeta in Hfr.
  destruct (loadLayers E dir m 0 _ _ st) as [[[]|e1] st1]; simpl in Hfr.
  - destruct (is_Create E (ld_is st1) config) as [[imgID|e2] istore]; [done|].
    by intros [= <- <-].
  - by intros [= <- <-].
Qed.

(** The diff IDs of the image a manifest names. *)
Definition manifest_diffIDs (dir : OciDir) (m : Manifest) : list DiffID :=
  match manifest_config E dir m with
  | Ok (_, img) => DiffIDs (img_RootFS img)
  | Err _ => []
  end.

(** The loop over the manifests, when it ends well. *)
Lemma loadManifests_success dir entries :
  forall st st',
  foldS (loadManifest E dir) entries st = (Ok tt, st') ->
  exists ids hyd,
    Forall2 (fun entry id => exists config img,
               manifest_config E dir entry.2 = Ok (config, img)
               /\ id = digestFromBytes E config) entries ids
    /\ ld_out st' = ld_out st
    /\ ld_events st' = ld_events st ++ ((fun id => (id, id, "load")) <$> ids)
    /\ imageIDsStr st' = imageIDsStr st +:+ load_lines ids
    /\ (entries <> [] -> imageRefCount st' = 0)
    /\ (entries = [] -> st' = st)
    /\ (forall id, id ∈ ids -> is_Some (ld_is st' !! id))
    /\ (forall id, is_Some (ld_is st !! id) -> is_Some (ld_is st' !! id))
    /\ ld_deferred st' = ld_deferred st ++ hyd
    /\ Forall2 (fun d ly => d = layer_DiffID ly)
         (entries ≫= (fun entry => manifest_diffIDs dir entry.2)) hyd.
Proof.
  induction entries as [|[ref m] entries IH]; intros st st'.
  - simpl. intros [= <-]. exists [], []. rewrite string_app_nil_r, !app_nil_r.
    repeat split; try done. by intros id ?%elem_of_nil.
  - cbn [foldS]. destruct (loadManifest E dir (ref, m) st) as [[[]|e] st1] eqn:Hm; [|done].
    intros Hrest.
    destruct (loadManifest_success _ _ _ _ _ Hm)
      as (config & img & hyd1 & Hcfg & His & Hout & Hev & Hstr & Hcnt & Hdef & Hhyd).
    destruct (IH st1 st' Hrest)
      as (ids & hyd2 & Hids & Hout' & Hev' & Hstr' & Hcnt' & Hnil' & Hin' & Hkeep' & Hdef' & Hhyd').
    exists (digestFromBytes E config :: ids), (hyd1 ++ hyd2).
    split; [constructor; [by exists config, img|done]|].
    split; [congruence|].
    split; [by rewrite Hev', Hev; simpl; rewrite <- app_assoc|].
    split; [by rewrite Hstr', Hstr; simpl; rewrite !string_app_assoc|].
    split; [intros _; destruct entries as [|e' es]; [by rewrite (Hnil' eq_refl)|by apply Hcnt']|].
    split; [done|]. split; [|split; [|split]].
    + intros id Hid. apply elem_of_cons in Hid as [->|Hid]; [|by apply Hin'].
      apply Hkeep'. rewrite His, lookup_insert_eq. eauto.
    + intros id Hid. apply Hkeep'. rewrite His.
      destruct (decide (digestFromBytes E config = id)) as [->|Hne].
      * rewrite lookup_insert_eq. eauto.
      * by rewrite lookup_insert_ne.
    + by rewrite Hdef', Hdef, <- app_assoc.
    + simpl. apply Forall2_app; [|done]. unfold manifest_diffIDs. by rewrite Hcfg.
Qed.

(** X16.  What a load that succeeds reports.  [loadOCI] reads one manifest per
    file under [refs/], and for each of them, in the order the runtime
    enumerates them, it creates the image of the configuration the manifest
    names, appends [Loaded image ID: <id>] to its output and logs a [load]
    event for the ID, which is the digest of the configuration: one line and
    one event per file under [refs/], whatever the names of the files, and so
    as many lines for an image as it has references in the archive. *)
Theorem loadOCI_reports_each_ref
    (rng : gmap string Manifest -> list (string * Manifest)) (dir : OciDir)
    (st st' : loadState) :
  RangeOrder rng ->
  loadOCI E rng dir st = (Ok tt, st') ->
  exists manifests ids,
    foldR (walk_ref E dir) (walk_order dir) ∅ = Ok manifests
    /\ (forall name, is_Some (manifests !! name) <-> is_Some (dir_refs dir !! name))
    /\ Forall2 (fun entry id => exists config img,
                  manifest_config E dir entry.2 = Ok (config, img)
                  /\ id = digestFromBytes E config) (rng manifests) ids
    /\ List.length ids = size (dir_refs dir)
    /\ ld_out st' = ld_out st +:+ load_lines ids
    /\ ld_events st' = ld_events st ++ ((fun id => (id, id, "load")) <$> ids)
    /\ (forall id, id ∈ ids -> is_Some (ld_is st' !! id)).
Proof.
  intros Hrng. unfold loadOCI.
  destruct (foldR (walk_ref E dir) (walk_order dir) ∅) as [manifests|] eqn:Hwalk; [|done].
  set (st0 := mkLoad _ _ _ _ _ _ _ _).
  destruct (foldS (loadManifest E dir) (rng manifests) st0) as [[[]|e] st1] eqn:Hloop; [|done].
  destruct (loadManifests_success _ _ _ _ Hloop)
    as (ids & hyd & Hids & Hout & Hev & Hstr & Hcnt & Hnil & Hin & _ & _ & _).
  assert (Hzero : imageRefCount st1 = 0).
  { destruct (rng manifests) as [|e' es]; [by rewrite (Hnil eq_refl)|by apply Hcnt]. }
  rewrite Hzero. simpl. intros [= <-]. simpl.
  assert (Hnames : forall name, is_Some (manifests !! name) <-> is_Some (dir_refs dir !! name)).
  { intros name. rewrite (walk_names _ _ _ _ Hwalk name), walk_order_names, lookup_empty.
    split; [intros [[? [=]]|?]; done|by right]. }
  exists manifests, ids. split; [done|]. split; [done|]. split; [done|].
  split; [|split; [by rewrite Hout, Hstr|split; [done|done]]].
  rewrite <- (Forall2_length _ _ _ Hids), (Hrng manifests), length_map_to_list.
  rewrite <- (size_dom manifests), <- (size_dom (dir_refs dir)). f_equal.
  apply set_eq. intros name. by rewrite !elem_of_dom.
Qed.

(** X17.  For every layer of every image a load that succeeds creates, a layer
    with the DiffID the configuration declares was obtained, from the layer
    store or from the blob of the manifest, and its release was deferred: the
    releases deferred during the load match, one to one and in order, the diff
    IDs of the images of the manifests. *)
Theorem loadOCI_checks_every_layer
    (rng : gmap string Manifest -> list (string * Manifest)) (dir : OciDir)
    (st st' : loadState) :
  loadOCI E rng dir st = (Ok tt, st') ->
  exists manifests hyd,
    foldR (walk_ref E dir) (walk_order dir) ∅ = Ok manifests
    /\ ld_deferred st' = ld_deferred st ++ hyd
    /\ Forall2 (fun d ly => d = layer_DiffID ly)
         (rng manifests ≫= (fun entry => manifest_diffIDs dir entry.2)) hyd.
Proof.
  unfold loadOCI.
  destruct (foldR (walk_ref E dir) (walk_order dir) ∅) as [manifests|] eqn:Hwalk; [|done].
  set (st0 := mkLoad _ _ _ _ _ _ _ _).
  destruct (foldS (loadManifest E dir) (rng manifests) st0) as [[[]|e] st1] eqn:Hloop; [|done].
  destruct (loadManifests_success _ _ _ _ Hloop)
    as (ids & hyd & _ & _ & _ & _ & _ & _ & _ & _ & Hdef & Hhyd).
  intros Hst'. exists manifests, hyd. split; [done|]. split; [|done].
  destruct (imageRefCount st1 =? 0); by injection Hst' as <-.
Qed.

(** The loop over the manifests never writes to the output stream. *)
Lemma loadManifests_out dir entries st :
  ld_out (foldS (loadManifest E dir) entries st).2 = ld_out st.
Proof.
  apply (foldS_invariant (fun s => ld_out s = ld_out st)); [|done].
  intros entry s _ Hs. destruct (loadManifest E dir entry s) as [[[]|e] s'] eqn:Hm; simpl.
  - destruct entry as [ref m].
    destruct (loadManifest_success _ _ _ _ _ Hm) as (_ & _ & _ & _ & _ & Hout & _). congruence.
  - apply loadManifest_failure_frame in Hm as (_ & _ & Hout & _). congruence.
Qed.

(** X18.  A load that fails writes nothing to the output stream, also when images
    were created before the manifest that failed; and when the failure is met
    while the files under [refs/] are read, nothing at all has changed. *)
Theorem loadOCI_failure_prints_nothing
    (rng : gmap string Manifest -> list (string * Manifest)) (dir : OciDir)
    (st st' : loadState) (e : Error) :
  loadOCI E rng dir st = (Err e, st') ->
  ld_out st' = ld_out st
  /\ (is_ok (foldR (walk_ref E dir) (walk_order dir) ∅) = false -> st' = st).
Proof.
  unfold loadOCI.
  destruct (foldR (walk_ref E dir) (walk_order dir) ∅) as [manifests|] eqn:Hwalk;
    [|by intros [= <- <-]].
  set (st0 := mkLoad _ _ _ _ _ _ _ _).
  pose proof (loadManifests_out dir (rng manifests) st0) as Hout.
  destruct (foldS (loadManifest E dir) (rng manifests) st0) as [[[]|e1] st1]; simpl in Hout.
  - by destruct (imageRefCount st1 =? 0).
  - intros [= <- <-]. by split.
Qed.

(** X19.  One file under [refs/] that cannot be read to a manifest (it is no
    descriptor, or names a blob that is missing or is no manifest) makes the
    whole load fail before anything is loaded: no store is touched, whatever
    the other files hold. *)
Theorem loadOCI_unreadable_ref
    (rng : gmap string Manifest -> list (string * Manifest)) (dir : OciDir)
    (st : loadState) (name : string) (e : Error) :
  is_Some (dir_refs dir !! name) ->
  walk_ref E dir ∅ name = Err e ->
  exists e', loadOCI E rng dir st = (Err e', st).
Proof.
  intros Hname Hbad. rewrite walk_ref_manifest in Hbad.
  destruct (ref_manifest dir name) as [man|e0] eqn:Href; [done|].
  apply walk_order_names in Hname.
  pose proof (walk_fails dir (walk_order dir) name e0 Hname Href ∅) as Hfail.
  unfold loadOCI. destruct (foldR (walk_ref E dir) (walk_order dir) ∅) as [|e']; [done|].
  by exists e'.
Qed.

(** X20.  [loadOCI] does not look at the [oci-layout] marker: an archive loads the
    same with the marker, without it, or with any other content in it. *)
Theorem loadOCI_ignores_layout_marker
    (rng : gmap string Manifest -> list (string * Manifest))
    (layout layout' : option bytes) (refs : gmap string bytes) (blobs : gmap Digest bytes)
    (st : loadState) :
  loadOCI E rng (mkDir layout refs blobs) st = loadOCI E rng (mkDir layout' refs blobs) st.
Proof.
  assert (Hwalk : forall names acc,
            foldR (walk_ref E (mkDir layout refs blobs)) names acc
            = foldR (walk_ref E (mkDir layout' refs blobs)) names acc).
  { induction names as [|n names IH]; intros acc; [done|]. simpl.
    change (walk_ref E (mkDir layout refs blobs) acc n)
      with (walk_ref E (mkDir layout' refs blobs) acc n).
    destruct (walk_ref E (mkDir layout' refs blobs) acc n); simpl; [apply IH|done]. }
  assert (Hlayers : forall m diffIDs i rootFS s,
            loadLayers E (mkDir layout refs blobs) m i diffIDs rootFS s
            = loadLayers E (mkDir layout' refs blobs) m i diffIDs rootFS s).
  { induction diffIDs as [|d diffIDs IH]; intros i rootFS s; [done|]. simpl.
    destruct (Layers m !! i) as [desc|]; [|done].
    destruct (blob_path (desc_Digest desc)) as [path|]; [|done].
    change (hydrate E (mkDir layout refs blobs) s path rootFS d)
      with (hydrate E (mkDir layout' refs blobs) s path rootFS d).
    destruct (hydrate E (mkDir layout' refs blobs) s path rootFS d) as [[ly|] s1]; [|done].
    case_bool_decide; [apply IH|done]. }
  assert (Hmanifest : forall entry s,
            loadManifest E (mkDir layout refs blobs) entry s
            = loadManifest E (mkDir layout' refs blobs) entry s).
  { intros [ref m] s. unfold loadManifest.
    change (manifest_config E (mkDir layout refs blobs) m)
      with (manifest_config E (mkDir layout' refs blobs) m).
    destruct (manifest_config E (mkDir layout' refs blobs) m) as [[config img]|]; [|done].
    destruct (negb _); [done|]. by rewrite Hlayers. }
  assert (Hloop : forall entries s,
            foldS (loadManifest E (mkDir layout refs blobs)) entries s
            = foldS (loadManifest E (mkDir layout' refs blobs)) entries s).
  { induction entries as [|entry entries IH]; intros s; [done|]. simpl. rewrite Hmanifest.
    destruct (loadManifest E (mkDir layout' refs blobs) entry s) as [[[]|] s1]; [apply IH|done]. }
  unfold loadOCI. change (walk_order (mkDir layout refs blobs))
    with (walk_order (mkDir layout' refs blobs)).
  rewrite Hwalk. destruct (foldR _ _ ∅) as [manifests|]; [|done]. by rewrite Hloop.
Qed.

(** *** The stores only grow *)

Lemma ls_Register_grows ls tar parent : ls ⊆ (ls_Register E ls tar parent).2.
Proof.
  unfold ls_Register. destruct (_ && _); [done|]. cbv zeta.
  destruct (ls !! createChainIDFromParent E parent [digestFromBytes E tar]) eqn:Hchain; [done|].
  simpl. by apply insert_subseteq.
Qed.

Lemma hydrate_grows dir st layerPath rootFS diffID :
  ld_ls st ⊆ ld_ls (hydrate E dir st layerPath rootFS diffID).2.
Proof.
  unfold hydrate. destruct (ls_Get _ _); [done|].
  unfold loadLayer. destruct (read_file _ _) as [rawTar|]; [|done].
  destruct (decompress E rawTar) as [tar|]; [|done].
  pose proof (ls_Register_grows (ld_ls st) tar (rootfs_ChainID E rootFS)) as H.
  by destruct (ls_Register E (ld_ls st) tar (rootfs_ChainID E rootFS)).
Qed.

Lemma loadLayers_grows dir m diffIDs :
  forall i rootFS st, ld_ls st ⊆ ld_ls (loadLayers E dir m i diffIDs rootFS st).2.
Proof.
  induction diffIDs as [|d diffIDs IH]; intros i rootFS st; [done|]. simpl.
  destruct (Layers m !! i) as [desc|]; [|done].
  destruct (blob_path (desc_Digest desc)) as [path|]; [|done].
  pose proof (hydrate_grows dir st path rootFS d) as Hh.
  destruct (hydrate E dir st path rootFS d) as [[ly|] s1]; simpl in Hh; [|done].
  case_bool_decide; [|done]. etrans; [exact Hh|]. apply (IH _ _ (defer_release s1 ly)).
Qed.

(** What a manifest does to the stores: the layer store grows, and an image
    of the image store afterwards was there before or is the configuration
    blob the manifest names, stored under its digest. *)
Lemma loadManifest_stores dir entry st :
  let st' := (loadManifest E dir entry st).2 in
  ld_ls st ⊆ ld_ls st'
  /\ (forall id, is_Some (ld_is st !! id) -> is_Some (ld_is st' !! id))
  /\ (forall id raw, ld_is st' !! id = Some raw ->
        ld_is st !! id = Some raw
        \/ (id = digestFromBytes E raw
            /\ (exists path, dir_blobs dir !! path = Some raw)
            /\ is_Some (parseConfig E raw))).
Proof.
  destruct entry as [ref m]. unfold loadManifest.
  destruct (manifest_config E dir m) as [[config img]|e0] eqn:Hcfg; [|by auto].
  destruct (negb _); [by auto|].
  pose proof (loadLayers_spec E dir m (DiffIDs (img_RootFS img)) 0
                (mkRootFS (rootfs_Type (img_RootFS img)) []) st) as [Hfr _].
  pose proof (loadLayers_grows dir m (DiffIDs (img_RootFS img)) 0
                (mkRootFS (rootfs_Type (img_RootFS img)) []) st) as Hgrow.
  cbv zeta in Hfr.
  destruct (loadLayers E dir m 0 _ _ st) as [[[]|e1] st1]; simpl in Hfr, Hgrow |- *.
  - destruct Hfr as (His & _).
    unfold is_Create. destruct (NewFromJSON E config) as [img'|] eqn:Hnew; simpl.
    + split; [done|]. rewrite His. split.
      * intros id Hid. destruct (decide (digestFromBytes E config = id)) as [->|Hne].
        -- rewrite lookup_insert_eq. eauto.
        -- by rewrite lookup_insert_ne.
      * intros id raw. destruct (decide (digestFromBytes E config = id)) as [<-|Hne].
        -- rewrite lookup_insert_eq. intros [= <-]. right. split; [done|].
           unfold manifest_config in Hcfg.
           destruct (blob_path _) as [path|]; simpl in Hcfg; [|done].
           unfold read_file in Hcfg. destruct (dir_blobs dir !! path) as [c|] eqn:Hc;
             simpl in Hcfg; [|done].
           unfold NewFromJSON in Hcfg, Hnew.
           destruct (parseConfig E c) as [rootfs|] eqn:Hp; simpl in Hcfg; [|done].
           injection Hcfg as <- _. split; [by exists path|]. rewrite Hp. eauto.
        -- rewrite lookup_insert_ne by done. by left.
    + rewrite His. by auto.
  - destruct Hfr as (His & _). rewrite His. by auto.
Qed.

(** X21.  Whatever the outcome of a load, the stores only grow: every layer of the
    layer store is still there, unchanged, and so is the ID of every image;
    and an image the load created is a configuration blob of the archive,
    stored under the digest of that blob. *)
Theorem loadOCI_stores_grow
    (rng : gmap string Manifest -> list (string * Manifest)) (dir : OciDir) (st : loadState) :
  let st' := (loadOCI E rng dir st).2 in
  ld_ls st ⊆ ld_ls st'
  /\ (forall id, is_Some (ld_is st !! id) -> is_Some (ld_is st' !! id))
  /\ (forall id raw, ld_is st' !! id = Some raw ->
        ld_is st !! id = Some raw
        \/ (id = digestFromBytes E raw
            /\ (exists path, dir_blobs dir !! path = Some raw)
            /\ is_Some (parseConfig E raw))).
Proof.
  unfold loadOCI.
  destruct (foldR (walk_ref E dir) (walk_order dir) ∅) as [manifests|]; [|by auto].
  set (st0 := mkLoad _ _ _ _ _ _ _ _).
  pose proof (foldS_invariant
    (fun s => ld_ls st ⊆ ld_ls s
              /\ (forall id, is_Some (ld_is st !! id) -> is_Some (ld_is s !! id))
              /\ (forall id raw, ld_is s !! id = Some raw ->
                    ld_is st !! id = Some raw
                    \/ (id = digestFromBytes E raw
                        /\ (exists path, dir_blobs dir !! path = Some raw)
                        /\ is_Some (parseConfig E raw))))
    (loadManifest E dir) (rng manifests)) as Hinv.
  assert (Hfinal := Hinv).
  specialize (Hfinal (fun entry s _ Hs =>
    let '(conj H1 (conj H2 H3)) := Hs in
    let '(conj G1 (conj G2 G3)) := loadManifest_stores dir entry s in
    conj (transitivity H1 G1)
      (conj (fun id Hid => G2 id (H2 id Hid))
         (fun id raw Hraw =>
            match G3 id raw Hraw with
            | or_introl Hold => H3 id raw Hold
            | or_intror Hnew => or_intror Hnew
            end))) st0 (conj (reflexivity _) (conj (fun id H => H) (fun id raw H => or_introl H)))).
  destruct (foldS (loadManifest E dir) (rng manifests) st0) as [[[]|e] st1]; simpl in *; [|done].
  by destruct (imageRefCount st1 =? 0).
Qed.

(** *** Layers the store already holds *)

Lemma loadLayers_reuse dir m todo :
  forall pre i rootFS st,
  DiffIDs rootFS = pre ->
  (forall k d, todo !! k = Some d ->
     is_Some (ld_ls st !! CreateChainID E (take (S (List.length pre + k)) (pre ++ todo)))) ->
  ld_ls (loadLayers E dir m i todo rootFS st).2 = ld_ls st.
Proof.
  induction todo as [|d todo IH]; intros pre i rootFS st Hroot Hall; [done|]. simpl.
  destruct (Layers m !! i) as [desc|]; [|done].
  destruct (blob_path (desc_Digest desc)) as [path|]; [|done].
  unfold hydrate, ls_Get.
  assert (Hchain : rootfs_ChainID E (rootfs_Append rootFS d)
                   = CreateChainID E (take (S (List.length pre + 0)) (pre ++ d :: todo))).
  { unfold rootfs_ChainID, rootfs_Append. simpl. by rewrite Hroot, Nat.add_0_r, take_S_prefix. }
  rewrite Hchain. destruct (Hall 0 d eq_refl) as [ly ->].
  case_bool_decide; [|done].
  rewrite (IH (pre ++ [d]) (S i) (rootfs_Append rootFS d) (defer_release st ly)); [done| |].
  - simpl. by rewrite Hroot.
  - intros k d' Hk. simpl. rewrite length_app, <- app_assoc. simpl.
    replace (List.length pre + 1 + k) with (List.length pre + S k) by lia.
    by apply (Hall (S k) d').
Qed.

(** X22.  A layer the store already holds is not loaded again.  When the layer
    store holds a layer for every chain of every image of the archive, a load
    leaves the layer store exactly as it is, whether it succeeds or fails and
    whatever the layer blobs of the archive hold: they are not read. *)
Theorem loadOCI_reuses_layers
    (rng : gmap string Manifest -> list (string * Manifest)) (dir : OciDir) (st : loadState) :
  (forall manifests entry k d,
     foldR (walk_ref E dir) (walk_order dir) ∅ = Ok manifests ->
     entry ∈ rng manifests ->
     manifest_diffIDs dir entry.2 !! k = Some d ->
     is_Some (ld_ls st !! CreateChainID E (take (S k) (manifest_diffIDs dir entry.2)))) ->
  ld_ls (loadOCI E rng dir st).2 = ld_ls st.
Proof.
  intros Hall. unfold loadOCI.
  destruct (foldR (walk_ref E dir) (walk_order dir) ∅) as [manifests|] eqn:Hwalk; [|done].
  set (st0 := mkLoad _ _ _ _ _ _ _ _).
  pose proof (foldS_invariant (fun s => ld_ls s = ld_ls st) (loadManifest E dir)
                (rng manifests)) as Hinv.
  assert (Hstep : forall entry s, entry ∈ rng manifests -> ld_ls s = ld_ls st ->
            ld_ls (loadManifest E dir entry s).2 = ld_ls st).
  { intros [ref m] s Hentry Hs. unfold loadManifest.
    specialize (Hall manifests (ref, m)). unfold manifest_diffIDs in Hall. simpl in Hall.
    destruct (manifest_config E dir m) as [[config img]|e0]; [|done].
    destruct (negb _); [done|].
    pose proof (loadLayers_reuse dir m (DiffIDs (img_RootFS img)) [] 0
                  (mkRootFS (rootfs_Type (img_RootFS img)) []) s eq_refl) as Hsame.
    simpl in Hsame. rewrite <- Hs in Hall.
    specialize (Hsame (fun k d Hk => Hall k d eq_refl Hentry Hk)).
    destruct (loadLayers E dir m 0 _ _ s) as [[[]|e1] s1]; simpl in Hsame |- *; [|congruence].
    destruct (is_Create E (ld_is s1) config) as [[imgID|e2] istore]; simpl; congruence. }
  specialize (Hinv Hstep st0 eq_refl).
  destruct (foldS (loadManifest E dir) (rng manifests) st0) as [[[]|e] st1]; simpl in *; [|done].
  by destruct (imageRefCount st1 =? 0).
Qed.

(** A load that succeeds returns no error and the state it ends in. *)
Lemma loadOCI_result rng dir st :
  is_ok (loadOCI E rng dir st).1 = true ->
  loadOCI E rng dir st = (Ok tt, (loadOCI E rng dir st).2).
Proof. by destruct (loadOCI E rng dir st) as [[[]|e] st']. Qed.

End Load_report.

(** ** The OCI save session: the staged directory does not depend on the order *)

Section Save_content.
Context (E : Env) (l : tarexporter) (images : gmap ID imageDescriptor).

(** The descriptor of a layer, computed from its tar. *)
Definition layer_descriptor (ly : Layer) : Descriptor :=
  mkDescriptor MediaTypeImageLayer (digestFromBytes E (gzip E (layer_tar ly)))
    (size_of (gzip E (layer_tar ly))).

(** The layer of the first [i+1] diff IDs, as the layer store has it. *)
Definition layer_at (diffIDs : list DiffID) (i : nat) : option Layer :=
  l_ls l !! CreateChainID E (take (S i) diffIDs).

(** The manifest of an image, computed from the stores alone. *)
Definition manifest_for (img : Image) : Manifest :=
  let diffIDs := DiffIDs (img_RootFS img) in
  mkManifest 2 MediaTypeImageManifest
    (mkDescriptor MediaTypeImageConfig (digestFromBytes E (RawJSON img)) (size_of (RawJSON img)))
    (omap (fun i => layer_descriptor <$> layer_at diffIDs i) (seq 0 (List.length diffIDs))).

(** The image [id] is to be saved under the name [dest]. *)
Definition saved_under (id : ID) (dest : string) : Prop :=
  exists info, images !! id = Some info /\ dest ∈ entry_dests_or_nil (id, info).

(** The blobs a session over [images] may stage: the configuration, the
    manifest and the compressed layers of an image of [images]. *)
Definition image_blob (c : bytes) : Prop :=
  exists id img,
    is_Some (images !! id) /\ is_Get E (l_is l) id = Ok img
    /\ (c = RawJSON img
        \/ c = marshalManifest E (manifest_for img)
        \/ exists i ly, i < List.length (DiffIDs (img_RootFS img))
             /\ layer_at (DiffIDs (img_RootFS img)) i = Some ly
             /\ c = gzip E (layer_tar ly)).

(** The blob [c] is staged, under its digest. *)
Definition present (s : ociSaveSession) (c : bytes) : Prop :=
  dir_blobs (tempDir s) !! digestFromBytes E c = Some c.

Record content_ok (s : ociSaveSession) : Prop := {
  co_blobs : forall d c, dir_blobs (tempDir s) !! d = Some c ->
    d = digestFromBytes E c /\ image_blob c;
  co_cache : forall dd info, diffIDsCache s !! dd = Some info ->
    exists chain ly, l_ls l !! chain = Some ly /\ layer_DiffID ly = dd
      /\ info = mkLayerInfo (digestFromBytes E (gzip E (layer_tar ly)))
                  (size_of (gzip E (layer_tar ly)))
      /\ present s (gzip E (layer_tar ly));
  co_saved : forall id mjson, savedImages s !! id = Some mjson ->
    exists img, is_Get E (l_is l) id = Ok img
      /\ mjson = marshalManifest E (manifest_for img)
      /\ present s (RawJSON img) /\ present s mjson
      /\ forall i ly, i < List.length (DiffIDs (img_RootFS img)) ->
           layer_at (DiffIDs (img_RootFS img)) i = Some ly -> present s (gzip E (layer_tar ly));
  co_refs : forall name content, dir_refs (tempDir s) !! name = Some content ->
    exists id mjson, saved_under id name /\ savedImages s !! id = Some mjson
      /\ content = marshalDescriptor E (manifest_descriptor E mjson)
}.

Section Content_addressed.
Hypothesis digest_inj : Inj (=) (=) (digestFromBytes E).
Hypothesis ls_addressed : forall chain ly,
  l_ls l !! chain = Some ly -> layer_DiffID ly = digestFromBytes E (layer_tar ly).

Lemma present_PutBlob dest c' s c : present s c -> present (PutBlob E dest c' s).2 c.
Proof.
  unfold present. simpl. intros Hc.
  destruct (decide (digestFromBytes E c' = digestFromBytes E c)) as [Heq|Hne].
  - rewrite Heq, lookup_insert_eq. f_equal. by apply digest_inj.
  - by rewrite lookup_insert_ne.
Qed.

Lemma present_PutManifest dest m s c : present s c -> present (PutManifest E dest m s) c.
Proof.
  unfold present. simpl. intros Hc.
  destruct (decide (digestFromBytes E m = digestFromBytes E c)) as [Heq|Hne].
  - rewrite Heq, lookup_insert_eq. f_equal. by apply digest_inj.
  - by rewrite lookup_insert_ne.
Qed.

Lemma content_ok_PutBlob dest c s :
  content_ok s -> image_blob c -> content_ok (PutBlob E dest c s).2.
Proof.
  intros [H1 H2 H3 H4] Hc. split.
  - intros d c'. simpl. destruct (decide (digestFromBytes E c = d)) as [<-|Hne].
    + rewrite lookup_insert_eq. by intros [= <-].
    + rewrite lookup_insert_ne by done. apply H1.
  - intros dd info Hdd. destruct (H2 dd info Hdd) as (chain & ly & Hly & Hd & Hi & Hp).
    exists chain, ly. split; [done|]. split; [done|]. split; [done|]. by apply present_PutBlob.
  - intros id mjson Hm. destruct (H3 id mjson Hm) as (img & Hget & Hmj & Hp1 & Hp2 & Hp3).
    exists img. split; [done|]. split; [done|].
    split; [by apply present_PutBlob|]. split; [by apply present_PutBlob|].
    intros i ly Hi Hly. apply present_PutBlob. by apply (Hp3 i).
  - exact H4.
Qed.

(** One turn of the layer loop for the image [id]: the descriptor appended
    is the one computed from the layer, and its blob is staged. *)
Lemma saveLayer_content id img dest i ms :
  is_Some (images !! id) -> is_Get E (l_is l) id = Ok img ->
  i < List.length (DiffIDs (img_RootFS img)) ->
  content_ok ms.2 ->
  let out := saveLayer E l dest (DiffIDs (img_RootFS img)) i ms in
  content_ok out.2.2
  /\ (forall c, present ms.2 c -> present out.2.2 c)
  /\ (is_ok out.1 = true ->
      exists ly, layer_at (DiffIDs (img_RootFS img)) i = Some ly
        /\ Layers out.2.1 = Layers ms.1 ++ [layer_descriptor ly]
        /\ present out.2.2 (gzip E (layer_tar ly))).
Proof.
  intros Hid Hget Hi Hok out. subst out.
  pose proof (saveLayer_step E l dest (DiffIDs (img_RootFS img)) i ms) as Hstep.
  unfold layer_at.
  destruct (l_ls l !! CreateChainID E (take (S i) (DiffIDs (img_RootFS img)))) as [ly|] eqn:Hly.
  - destruct (diffIDsCache ms.2 !! layer_DiffID ly) as [info|] eqn:Hcache; rewrite Hstep; simpl.
    + split; [done|]. split; [done|]. intros _. exists ly. split; [done|].
      destruct (co_cache _ Hok _ _ Hcache) as (chain & ly' & Hly' & Hd & -> & Hp).
      assert (Htar : layer_tar ly' = layer_tar ly).
      { apply digest_inj. rewrite <- (ls_addressed _ _ Hly'), <- (ls_addressed _ _ Hly). done. }
      rewrite Htar in Hp |- *. by split.
    + assert (Hblob : image_blob (gzip E (layer_tar ly))).
      { exists id, img. split; [done|]. split; [done|]. right. right. by exists i, ly. }
      pose proof (content_ok_PutBlob dest (gzip E (layer_tar ly)) ms.2 Hok Hblob) as [H1 H2 H3 H4].
      assert (Hnew : present (PutBlob E dest (gzip E (layer_tar ly)) ms.2).2 (gzip E (layer_tar ly))).
      { unfold present. simpl. by rewrite lookup_insert_eq. }
      split; [|split].
      * split; [exact H1| |exact H3|exact H4].
        intros dd info. simpl. destruct (decide (layer_DiffID ly = dd)) as [<-|Hne].
        -- rewrite lookup_insert_eq. intros [= <-].
           exists (CreateChainID E (take (S i) (DiffIDs (img_RootFS img)))), ly. by repeat split.
        -- rewrite lookup_insert_ne by done. apply H2.
      * intros c Hc. by apply (present_PutBlob dest (gzip E (layer_tar ly)) ms.2).
      * intros _. exists ly. by repeat split.
  - destruct Hstep as [e ->]. simpl. split; [done|]. split; [done|]. done.
Qed.

Lemma saveLayers_content id img dest idxs :
  is_Some (images !! id) -> is_Get E (l_is l) id = Ok img ->
  (forall i, i ∈ idxs -> i < List.length (DiffIDs (img_RootFS img))) ->
  forall ms, content_ok ms.2 ->
  let out := foldS (saveLayer E l dest (DiffIDs (img_RootFS img))) idxs ms in
  content_ok out.2.2
  /\ (forall c, present ms.2 c -> present out.2.2 c)
  /\ (is_ok out.1 = true ->
      Layers out.2.1
      = Layers ms.1
        ++ omap (fun i => layer_descriptor <$> layer_at (DiffIDs (img_RootFS img)) i) idxs
      /\ forall i ly, i ∈ idxs -> layer_at (DiffIDs (img_RootFS img)) i = Some ly ->
           present out.2.2 (gzip E (layer_tar ly))).
Proof.
  intros Hid Hget. induction idxs as [|i idxs IH]; intros Hidxs ms Hok out; subst out.
  - simpl. split; [done|]. split; [done|]. intros _. rewrite app_nil_r. split; [done|].
    by intros i ly ?%elem_of_nil.
  - cbn [foldS].
    pose proof (saveLayer_content id img dest i ms Hid Hget (Hidxs i (list_elem_of_here _ _)) Hok)
      as (Hok1 & Hp1 & Hdone1). cbv zeta in Hok1, Hp1, Hdone1.
    destruct (saveLayer E l dest (DiffIDs (img_RootFS img)) i ms) as [[[]|e] ms1];
      simpl in Hok1, Hp1, Hdone1 |- *; [|by split].
    destruct (Hdone1 eq_refl) as (ly & Hly & Hlayers & Hpresent).
    destruct (IH (fun j Hj => Hidxs j (list_elem_of_further _ _ _ Hj)) ms1 Hok1)
      as (Hok2 & Hp2 & Hdone2).
    split; [done|]. split; [by auto|]. intros Hsucc.
    destruct (Hdone2 Hsucc) as [Hlayers2 Hpresent2]. split.
    + rewrite Hlayers2, Hlayers, Hly. simpl. by rewrite <- app_assoc.
    + intros j lyj Hj Hlyj. apply elem_of_cons in Hj as [->|Hj]; [|by apply (Hpresent2 j)].
      rewrite Hly in Hlyj. injection Hlyj as <-. by apply Hp2.
Qed.

(** [saveImage] for an image of [images], under a name it is to be saved
    under, keeps the staged directory within what the images determine. *)
Lemma content_ok_saveImage id dest s :
  saved_under id dest -> content_ok s -> content_ok (saveImage E l id dest s).2.
Proof.
  intros Hunder Hok. assert (Hid : is_Some (images !! id)).
  { destruct Hunder as (info & Hinfo & _). eauto. }
  unfold saveImage. destruct (savedImages s !! id) as [mj|] eqn:Hsaved.
  - simpl. destruct Hok as [H1 H2 H3 H4].
    destruct (H3 id mj Hsaved) as (img & Hget & Hmj & Hp1 & Hp2 & Hp3).
    split; simpl.
    + intros d c. destruct (decide (digestFromBytes E mj = d)) as [<-|Hne].
      * rewrite lookup_insert_eq. intros [= <-]. split; [done|].
        exists id, img. split; [done|]. split; [done|]. right. by left.
      * rewrite lookup_insert_ne by done. apply H1.
    + intros dd info Hdd. destruct (H2 dd info Hdd) as (chain & ly & Hly & Hd & Hi & Hp).
      exists chain, ly. split; [done|]. split; [done|]. split; [done|].
      by apply (present_PutManifest dest mj s).
    + intros id' mj' Hm'. destruct (H3 id' mj' Hm') as (img' & Hget' & Hmj' & Hq1 & Hq2 & Hq3).
      exists img'. split; [done|]. split; [done|].
      split; [by apply (present_PutManifest dest mj s)|].
      split; [by apply (present_PutManifest dest mj s)|].
      intros i ly Hi Hly. apply (present_PutManifest dest mj s). by apply (Hq3 i).
    + intros name content. destruct (decide (dest = name)) as [<-|Hne].
      * rewrite lookup_insert_eq. intros [= <-]. by exists id, mj.
      * rewrite lookup_insert_ne by done. apply H4.
  - destruct (is_Get E (l_is l) id) as [img|e] eqn:Hget; [|done].
    cbv zeta. destruct (List.length (DiffIDs (img_RootFS img)) =? 0); [done|].
    assert (Hcfg : image_blob (RawJSON img)).
    { exists id, img. split; [done|]. split; [done|]. by left. }
    pose proof (content_ok_PutBlob dest (RawJSON img) s Hok Hcfg) as Hok1.
    assert (Hpcfg : present (PutBlob E dest (RawJSON img) s).2 (RawJSON img)).
    { unfold present. simpl. by rewrite lookup_insert_eq. }
    pose proof (saveLayers_content id img dest (seq 0 (List.length (DiffIDs (img_RootFS img))))
                  Hid Hget (fun i Hi => proj2 (proj1 (elem_of_seq _ _ _) Hi))
                  (manifest_of_config (PutBlob E dest (RawJSON img) s).1.1
                     (PutBlob E dest (RawJSON img) s).1.2,
                   (PutBlob E dest (RawJSON img) s).2) Hok1) as (Hok2 & Hp2 & Hdone).
    cbv zeta in Hok2, Hp2, Hdone.
    pose proof (saveLayers_manifest E l dest (DiffIDs (img_RootFS img))
                  (seq 0 (List.length (DiffIDs (img_RootFS img))))
                  (manifest_of_config (PutBlob E dest (RawJSON img) s).1.1
                     (PutBlob E dest (RawJSON img) s).1.2,
                   (PutBlob E dest (RawJSON img) s).2)) as (Hv & Hmt & Hc & _).
    pose proof (saveLayers_same_refs E l dest (DiffIDs (img_RootFS img))
                  (seq 0 (List.length (DiffIDs (img_RootFS img))))
                  (manifest_of_config (PutBlob E dest (RawJSON img) s).1.1
                     (PutBlob E dest (RawJSON img) s).1.2,
                   (PutBlob E dest (RawJSON img) s).2)) as (_ & _ & Hsv & _).
    destruct (foldS _ _ _) as [[[]|e] [m s1]]; simpl in Hok2, Hp2, Hdone, Hv, Hmt, Hc, Hsv |- *;
      [|done].
    destruct (Hdone eq_refl) as [Hlayers Hpresent].
    assert (Hm : m = manifest_for img).
    { destruct m as [v mt c ls]. simpl in *. unfold manifest_for. cbv zeta. by subst. }
    subst m. destruct Hok2 as [H1 H2 H3 H4].
    set (mj := marshalManifest E (manifest_for img)).
    split; simpl.
    + intros d c. destruct (decide (digestFromBytes E mj = d)) as [<-|Hne].
      * rewrite lookup_insert_eq. intros [= <-]. split; [done|].
        exists id, img. split; [done|]. split; [done|]. right. by left.
      * rewrite lookup_insert_ne by done. apply H1.
    + intros dd info Hdd. destruct (H2 dd info Hdd) as (chain & ly & Hly & Hd & Hi & Hp).
      exists chain, ly. split; [done|]. split; [done|]. split; [done|].
      by apply (present_PutManifest dest mj s1).
    + intros id' mj'. destruct (decide (id = id')) as [<-|Hne].
      * rewrite lookup_insert_eq. intros [= <-]. exists img. split; [done|]. split; [done|].
        split; [apply (present_PutManifest dest mj s1); by apply Hp2|].
        split; [unfold present; simpl; by rewrite lookup_insert_eq|].
        intros i ly Hi Hly. apply (present_PutManifest dest mj s1).
        apply (Hpresent i ly); [|done]. apply elem_of_seq. lia.
      * rewrite lookup_insert_ne by done. intros Hm'.
        destruct (H3 id' mj' Hm') as (img' & Hget' & Hmj' & Hq1 & Hq2 & Hq3).
        exists img'. split; [done|]. split; [done|].
        split; [by apply (present_PutManifest dest mj s1)|].
        split; [by apply (present_PutManifest dest mj s1)|].
        intros i ly Hi Hly. apply (present_PutManifest dest mj s1). by apply (Hq3 i).
    + intros name content. destruct (decide (dest = name)) as [<-|Hne].
      * rewrite lookup_insert_eq. intros [= <-]. exists id, mj.
        split; [done|]. split; [by rewrite lookup_insert_eq|done].
      * rewrite lookup_insert_ne by done. intros Hc'.
        destruct (H4 name content Hc') as (id' & mj' & Hu' & Hm' & ->).
        exists id', mj'. split; [done|]. split; [|done]. rewrite lookup_insert_ne; [done|].
        intros <-. rewrite Hsv in Hm'. simpl in Hm'. congruence.
Qed.

Lemma content_ok_save_entry id info s :
  images !! id = Some info -> content_ok s -> content_ok (save_entry E l (id, info) s).2.
Proof.
  intros Hinfo Hok. unfold save_entry.
  assert (Href : forall n t, n ∈ entry_dests_or_nil (id, info) -> content_ok t ->
            content_ok (save_ref E l id n t).2).
  { intros n t Hn Ht. unfold save_ref. destruct (oci_NewReference n) as [dest|] eqn:Hdest; [|done].
    unfold oci_NewReference in Hdest. destruct (ociRefRegexp_MatchString n); [|done].
    injection Hdest as <-. apply content_ok_saveImage; [|done]. by exists info. }
  assert (Hdests : forall n,
            (n ∈ nt_tag <$> refs info \/ (refs info = [] /\ digest_Hex id = Ok n)) ->
            n ∈ entry_dests_or_nil (id, info)).
  { intros n. unfold entry_dests_or_nil, entry_dests. simpl. intros [Hn|[Hnil Hhex]].
    - destruct (refs info) as [|r rs]; [by apply elem_of_nil in Hn|done].
    - rewrite Hnil, Hhex. simpl. by apply list_elem_of_singleton. }
  pose proof (foldS_invariant content_ok (fun i => save_ref E l id (nt_tag i)) (refs info)) as Hloop.
  specialize (Hloop (fun i t Hi Ht =>
    Href (nt_tag i) t (Hdests _ (or_introl (list_elem_of_fmap_2 nt_tag _ _ Hi))) Ht) s Hok).
  destruct (foldS _ (refs info) s) as [[[]|e] s1]; simpl in Hloop |- *; [|done].
  destruct (refs info) as [|r rs] eqn:Hr; simpl; [|done].
  destruct (digest_Hex id) as [hex|e] eqn:Hhex; [|done].
  apply Href; [|done]. apply Hdests. by right.
Qed.

Lemma content_ok_save rng :
  RangeOrder rng -> content_ok (save E rng l images).2.
Proof.
  intros Hrng. unfold save.
  assert (Hinit : content_ok (mkSession ∅ ∅ emptyDir [])).
  { split; simpl.
    - intros d c. by rewrite lookup_empty.
    - intros dd info. by rewrite lookup_empty.
    - intros id mjson. by rewrite lookup_empty.
    - intros name content. by rewrite lookup_empty. }
  pose proof (foldS_invariant content_ok (save_entry E l) (rng images)) as Hloop.
  assert (Hstep : forall entry s, entry ∈ rng images -> content_ok s ->
            content_ok (save_entry E l entry s).2).
  { intros [id info] s Hentry Hs. apply content_ok_save_entry; [|done].
    rewrite (Hrng images) in Hentry. by apply elem_of_map_to_list in Hentry. }
  specialize (Hloop Hstep _ Hinit).
  by destruct (foldS (save_entry E l) (rng images) _) as [[[]|e] s1].
Qed.

(** The files under [refs/] of a session that succeeded: the names the
    images are to be saved under. *)
Lemma save_refs_names rng dir s :
  RangeOrder rng -> save E rng l images = (Ok dir, s) ->
  dir = tempDir s
  /\ forall name, is_Some (dir_refs dir !! name) <-> exists id, saved_under id name.
Proof.
  intros Hrng Hsave.
  assert (Hdir : dir = tempDir s).
  { unfold save in Hsave. destruct (foldS _ _ _) as [[[]|e] s1]; [|done]. by injection Hsave as <- <-. }
  split; [done|].
  assert (Hw : refs_written (save E rng l images).2).
  { apply save_invariant; [intros; by apply refs_written_saveImage|]. split; [|done].
    intros name. simpl. rewrite lookup_empty. split; [by intros [? [=]]|by intros ?%elem_of_nil]. }
  destruct (save_ok E l rng images) as (_ & _ & Hd).
  rewrite Hsave in Hw, Hd. simpl in Hw, Hd. specialize (Hd eq_refl).
  destruct Hw as [Hrefs _]. intros name. rewrite Hdir, Hrefs, Hd, list_elem_of_bind. split.
  - intros ([id info] & Hname & Hin). rewrite (Hrng images) in Hin.
    apply elem_of_map_to_list in Hin. exists id, info. by split.
  - intros (id & info & Hinfo & Hname). exists (id, info). split; [done|].
    rewrite (Hrng images). by apply elem_of_map_to_list.
Qed.

(** In a session that succeeded every image has its manifest cached, when
    no two images are to be saved under one name. *)
Lemma save_all_saved rng dir s :
  RangeOrder rng -> save E rng l images = (Ok dir, s) ->
  (forall id1 id2 name, saved_under id1 name -> saved_under id2 name -> id1 = id2) ->
  forall id, is_Some (images !! id) -> is_Some (savedImages s !! id).
Proof.
  intros Hrng Hsave Huniq id [info Hinfo].
  destruct (save_refs_names rng dir s Hrng Hsave) as [Hdir Hnames].
  pose proof (content_ok_save rng Hrng) as Hok. rewrite Hsave in Hok. simpl in Hok.
  destruct (save_ok E l rng images) as (Hall & _ & _). rewrite Hsave in Hall. simpl in Hall.
  symmetry in Hall. rewrite forallb_forall in Hall.
  assert (Hexp : entry_exportable E l (id, info) = true).
  { apply Hall, list_elem_of_In. rewrite (Hrng images). by apply elem_of_map_to_list. }
  assert (Hname : exists name, name ∈ entry_dests_or_nil (id, info)).
  { unfold entry_exportable in Hexp. unfold entry_dests_or_nil.
    destruct (entry_dests (id, info)) as [names|] eqn:Hd; [|done].
    unfold entry_dests in Hd. simpl in Hd. destruct (refs info) as [|r rs]; simpl in Hd.
    - destruct (digest_Hex id) as [hex|]; simpl in Hd; [|done]. injection Hd as <-.
      exists hex. by apply list_elem_of_singleton.
    - injection Hd as <-. exists (nt_tag r). by left. }
  destruct Hname as [name Hname].
  assert (Hunder : saved_under id name) by (by exists info).
  destruct (proj2 (Hnames name) (ex_intro _ id Hunder)) as [content Hcontent].
  rewrite Hdir in Hcontent.
  destruct (co_refs _ Hok name content Hcontent) as (id' & mj & Hunder' & Hm & _).
  rewrite (Huniq id id' name Hunder Hunder'). eauto.
Qed.

End Content_addressed.
End Save_content.

Section Save_content_order.
Context (E : Env) (l : tarexporter).

(** X23.  With content-addressed layers (collision-free digests, a DiffID
    the digest of the layer's tar), and no two images saved under one name,
    the directory a save session stages does not depend on the order in which
    the runtime enumerates the images: two runs that succeed stage the same
    files under [refs/] and the same blobs, with the same contents.  (Only
    the order in which they are written differs.) *)
Theorem save_directory_any_order
    (rng1 rng2 : gmap ID imageDescriptor -> list (ID * imageDescriptor))
    (images : gmap ID imageDescriptor) (dir1 dir2 : OciDir) (s1 s2 : ociSaveSession) :
  Inj (=) (=) (digestFromBytes E) ->
  (forall chain ly, l_ls l !! chain = Some ly ->
     layer_DiffID ly = digestFromBytes E (layer_tar ly)) ->
  (forall id1 info1 id2 info2 name,
     images !! id1 = Some info1 -> images !! id2 = Some info2 ->
     name ∈ entry_dests_or_nil (id1, info1) -> name ∈ entry_dests_or_nil (id2, info2) ->
     id1 = id2) ->
  RangeOrder rng1 -> RangeOrder rng2 ->
  save E rng1 l images = (Ok dir1, s1) ->
  save E rng2 l images = (Ok dir2, s2) ->
  dir1 = dir2.
Proof.
  intros Hinj Haddr Huniq0 Hrng1 Hrng2 Hsave1 Hsave2.
  assert (Huniq : forall id1 id2 name,
            saved_under images id1 name -> saved_under images id2 name -> id1 = id2).
  { intros id1 id2 name (info1 & H1 & Hn1) (info2 & H2 & Hn2).
    by apply (Huniq0 id1 info1 id2 info2 name). }
  assert (Hside : forall (rngA rngB : gmap ID imageDescriptor -> list (ID * imageDescriptor))
                    dirA dirB sA sB,
    RangeOrder rngA -> RangeOrder rngB ->
    save E rngA l images = (Ok dirA, sA) -> save E rngB l images = (Ok dirB, sB) ->
    (forall name content, dir_refs dirA !! name = Some content ->
                          dir_refs dirB !! name = Some content)
    /\ (forall d c, dir_blobs dirA !! d = Some c -> dir_blobs dirB !! d = Some c)).
  { intros rngA rngB dirA dirB sA sB HA HB HsA HsB.
    destruct (save_refs_names E l images rngA dirA sA HA HsA) as [HdirA HnamesA].
    destruct (save_refs_names E l images rngB dirB sB HB HsB) as [HdirB HnamesB].
    pose proof (content_ok_save E l images Hinj Haddr rngA HA) as HokA.
    pose proof (content_ok_save E l images Hinj Haddr rngB HB) as HokB.
    rewrite HsA in HokA. rewrite HsB in HokB. simpl in HokA, HokB.
    pose proof (save_all_saved E l images Hinj Haddr rngB dirB sB HB HsB Huniq) as HallB.
    split.
    - intros name content Hc.
      assert (HsomeB : is_Some (dir_refs dirB !! name)).
      { apply HnamesB, HnamesA. eauto. }
      destruct HsomeB as [content' Hc']. rewrite Hc'. f_equal.
      rewrite HdirA in Hc. rewrite HdirB in Hc'.
      destruct (co_refs _ _ _ _ HokA name content Hc) as (idA & mjA & HuA & HmA & ->).
      destruct (co_refs _ _ _ _ HokB name content' Hc') as (idB & mjB & HuB & HmB & ->).
      assert (idA = idB) as <- by (by apply (Huniq idA idB name)).
      destruct (co_saved _ _ _ _ HokA idA mjA HmA) as (imgA & HgA & -> & _).
      destruct (co_saved _ _ _ _ HokB idA mjB HmB) as (imgB & HgB & -> & _).
      congruence.
    - intros d c Hc. rewrite HdirA in Hc. rewrite HdirB.
      destruct (co_blobs _ _ _ _ HokA d c Hc) as (-> & id & img & Hid & Hget & Hkind).
      destruct (HallB id Hid) as [mj Hmj].
      destruct (co_saved _ _ _ _ HokB id mj Hmj) as (img' & Hget' & -> & Hp1 & Hp2 & Hp3).
      assert (img' = img) as -> by congruence.
      destruct Hkind as [->|[->|(i & ly & Hi & Hly & ->)]]; [done|done|].
      by apply (Hp3 i ly). }
  destruct (Hside rng1 rng2 dir1 dir2 s1 s2 Hrng1 Hrng2 Hsave1 Hsave2) as [Hr12 Hb12].
  destruct (Hside rng2 rng1 dir2 dir1 s2 s1 Hrng2 Hrng1 Hsave2 Hsave1) as [Hr21 Hb21].
  assert (Hrefs : dir_refs dir1 = dir_refs dir2).
  { apply map_eq. intros name. destruct (dir_refs dir1 !! name) as [c|] eqn:H1.
    - by rewrite (Hr12 name c H1).
    - destruct (dir_refs dir2 !! name) as [c|] eqn:H2; [|done].
      by rewrite (Hr21 name c H2) in H1. }
  assert (Hblobs : dir_blobs dir1 = dir_blobs dir2).
  { apply map_eq. intros d. destruct (dir_blobs dir1 !! d) as [c|] eqn:H1.
    - by rewrite (Hb12 d c H1).
    - destruct (dir_blobs dir2 !! d) as [c|] eqn:H2; [|done].
      by rewrite (Hb21 d c H2) in H1. }
  assert (Hlayout : dir_layout dir1 = dir_layout dir2).
  { assert (Hw : forall (rng : gmap ID imageDescriptor -> list (ID * imageDescriptor)) dir s,
              save E rng l images = (Ok dir, s) ->
              dir_layout dir
              = match rng images ≫= entry_dests_or_nil with
                | [] => None
                | _ => Some oci_layout_marker
                end).
    { intros rng dir s Hsave.
      assert (Hw : refs_written (save E rng l images).2).
      { apply save_invariant; [intros; by apply refs_written_saveImage|]. split; [|done].
        intros name. simpl. rewrite lookup_empty.
        split; [by intros [? [=]]|by intros ?%elem_of_nil]. }
      destruct (save_ok E l rng images) as (_ & _ & Hd).
      rewrite Hsave in Hw, Hd. simpl in Hw, Hd. rewrite <- (Hd eq_refl).
      destruct Hw as [_ <-]. unfold save in Hsave.
      destruct (foldS _ _ _) as [[[]|e] s0]; [|done]. by injection Hsave as <- <-. }
    rewrite (Hw rng1 dir1 s1 Hsave1), (Hw rng2 dir2 s2 Hsave2).
    assert (Hperm : rng1 images ≫= entry_dests_or_nil ≡ₚ rng2 images ≫= entry_dests_or_nil).
    { apply bind_Permutation. by rewrite (Hrng1 images), (Hrng2 images). }
    destruct (rng1 images ≫= entry_dests_or_nil) as [|n1 ns1].
    - apply Permutation_nil_l in Hperm. by rewrite <- Hperm.
    - destruct (rng2 images ≫= entry_dests_or_nil) as [|n2 ns2]; [|done].
      by apply Permutation_nil_r in Hperm. }
  destruct dir1, dir2. simpl in *. congruence.
Qed.

(** The layers of the manifest computed from the stores, when every layer
    of the image is in the layer store: one descriptor per diff ID, in
    order. *)
Lemma manifest_for_layers (img : Image) :
  (forall i, i < List.length (DiffIDs (img_RootFS img)) ->
     is_Some (layer_at E l (DiffIDs (img_RootFS img)) i)) ->
  Forall2 (fun i d => exists ly, layer_at E l (DiffIDs (img_RootFS img)) i = Some ly
                                 /\ d = layer_descriptor E ly)
    (seq 0 (List.length (DiffIDs (img_RootFS img)))) (Layers (manifest_for E l img)).
Proof.
  unfold manifest_for. cbv zeta. simpl Layers.
  generalize (DiffIDs (img_RootFS img)) as diffIDs. intros diffIDs Hall.
  assert (Hidx : forall idxs, (forall i, i ∈ idxs -> i < List.length diffIDs) ->
            Forall2 (fun i d => exists ly, layer_at E l diffIDs i = Some ly
                                           /\ d = layer_descriptor E ly)
              idxs (omap (fun i => layer_descriptor E <$> layer_at E l diffIDs i) idxs)).
  { induction idxs as [|i idxs IH]; intros Hidxs; [constructor|]. simpl.
    destruct (Hall i (Hidxs i (list_elem_of_here _ _))) as [ly Hly]. rewrite Hly. simpl.
    constructor; [by exists ly|]. apply IH. intros j Hj. apply Hidxs. by right. }
  apply Hidx. intros i Hi. apply elem_of_seq in Hi. lia.
Qed.

(** X24.  What a save session that succeeds has staged, with
    content-addressed layers.  Every file under [refs/] belongs to an image
    of the session that is to be saved under that name, and holds the
    descriptor of the manifest of that image as the stores determine it: the
    descriptor of the image's configuration JSON, and one layer descriptor per
    diff ID, in order, each the digest and size of the gzip of the tar of the
    layer the store holds for that prefix of the diff IDs.  The manifest, the
    configuration and each of these compressed layers are staged as blobs
    under their digests. *)
Theorem save_archive_exact
    (rng : gmap ID imageDescriptor -> list (ID * imageDescriptor))
    (images : gmap ID imageDescriptor) (dir : OciDir) (s : ociSaveSession) :
  Inj (=) (=) (digestFromBytes E) ->
  (forall chain ly, l_ls l !! chain = Some ly ->
     layer_DiffID ly = digestFromBytes E (layer_tar ly)) ->
  RangeOrder rng ->
  save E rng l images = (Ok dir, s) ->
  forall name content, dir_refs dir !! name = Some content ->
  exists id info img,
    images !! id = Some info
    /\ (name ∈ nt_tag <$> refs info \/ (refs info = [] /\ digest_Hex id = Ok name))
    /\ is_Get E (l_is l) id = Ok img
    /\ content = marshalDescriptor E
                   (mkDescriptor MediaTypeImageManifest
                      (digestFromBytes E (marshalManifest E (manifest_for E l img)))
                      (size_of (marshalManifest E (manifest_for E l img))))
    /\ Forall2 (fun i d => exists ly, layer_at E l (DiffIDs (img_RootFS img)) i = Some ly
                                      /\ d = layer_descriptor E ly)
         (seq 0 (List.length (DiffIDs (img_RootFS img)))) (Layers (manifest_for E l img))
    /\ dir_blobs dir !! digestFromBytes E (marshalManifest E (manifest_for E l img))
       = Some (marshalManifest E (manifest_for E l img))
    /\ dir_blobs dir !! digestFromBytes E (RawJSON img) = Some (RawJSON img)
    /\ forall i ly, i < List.length (DiffIDs (img_RootFS img)) ->
         layer_at E l (DiffIDs (img_RootFS img)) i = Some ly ->
         dir_blobs dir !! digestFromBytes E (gzip E (layer_tar ly)) = Some (gzip E (layer_tar ly)).
Proof.
  intros Hinj Haddr Hrng Hsave name content Hcontent.
  destruct (save_refs_names E l images rng dir s Hrng Hsave) as [Hdir _].
  pose proof (content_ok_save E l images Hinj Haddr rng Hrng) as Hok.
  rewrite Hsave in Hok. simpl in Hok. rewrite Hdir in Hcontent |- *.
  destruct (co_refs _ _ _ _ Hok name content Hcontent) as (id & mj & (info & Hinfo & Hname) & Hm & ->).
  destruct (co_saved _ _ _ _ Hok id mj Hm) as (img & Hget & -> & Hp1 & Hp2 & Hp3).
  exists id, info, img. split; [done|]. split.
  { unfold entry_dests_or_nil, entry_dests in Hname. simpl in Hname.
    destruct (refs info) as [|r rs] eqn:Hr; simpl in Hname; [|by left].
    right. split; [done|]. destruct (digest_Hex id) as [hex|]; simpl in Hname.
    - apply list_elem_of_singleton in Hname. by subst.
    - by apply elem_of_nil in Hname. }
  split; [done|]. split; [done|]. split; [|by repeat split].
  apply manifest_for_layers.
  destruct (save_ok E l rng images) as (Hall & _ & _). rewrite Hsave in Hall. simpl in Hall.
  symmetry in Hall. rewrite forallb_forall in Hall.
  assert (Hexp : entry_exportable E l (id, info) = true).
  { apply Hall, list_elem_of_In. rewrite (Hrng images). by apply elem_of_map_to_list. }
  apply entry_exportable_spec in Hexp as [Himg _].
  apply image_exportable_spec in Himg as (img' & Hget' & _ & Hlayers).
  assert (img' = img) as -> by congruence. exact Hlayers.
Qed.

End Save_content_order.

(** ** Name resolution: an override names the file of its reference *)

Section Override_applied.
Context (E : Env).

(** X25.  [getRefs] and [parseOCINames] together.  Let [image=r] be an
    override whose name is no digest reference, the only override given for
    its reference, with [r] a tag.  A name that resolves to that reference of
    an image resolves to it under the tag [r]: the descriptor of the image
    holds the reference with its tag replaced by [r], so that the image is
    saved under [refs/r].  It plays no role whether the override or the name
    spell out the default tag. *)
Theorem parseOCINames_applies_override
    (rng : gmap string string -> list (string * string)) (l : tarexporter)
    (overrides : gmap string string) (image r name : string)
    (id : ID) (ref : Named) (t : NamedTagged) :
  RangeOrder rng ->
  getRefs E rng l = Ok overrides ->
  l_refs l !! image = Some r ->
  entry_key E image = Some (tagged_String t) ->
  (forall image' r', l_refs l !! image' = Some r' ->
     entry_key E image' = Some (tagged_String t) -> r' = r) ->
  validTag E r = true ->
  names_assocs E l [name] = Ok [(id, Some ref)] ->
  is_canonical (Ok ref) = false ->
  tagged_or_default E ref = Ok t ->
  overrides !! tagged_String t = Some r
  /\ parseOCINames E rng l [name] = Ok {[ id := mkDescr [mkTagged (nt_name t) r] ]}.
Proof.
  intros Hrng Hget Himage Hkey Honly Hvalid Hassocs Hcan Htag.
  assert (Hov : overrides !! tagged_String t = Some r).
  { unfold getRefs in Hget. destruct (getRefs_loop_inv E _ _ _ Hget) as (_ & Hlast & _).
    assert (Hin : (image, r) ∈ rng (l_refs l)).
    { rewrite (Hrng (l_refs l)). by apply elem_of_map_to_list. }
    destruct (last_entry_with_key E _ _ _ _ Hin Hkey)
      as (pre & image' & r' & post & Hsplit & Hkey' & Hpost).
    rewrite (Hlast pre image' r' post _ Hsplit Hkey' Hpost). f_equal.
    apply (Honly image'); [|done]. apply elem_of_map_to_list.
    rewrite <- (Hrng (l_refs l)), Hsplit. set_solver. }
  split; [done|].
  assert (Heff : effective E overrides (Some ref) = Ok (Some (mkTagged (nt_name t) r))).
  { unfold effective. destruct ref as [n|t0|n d]; [| |done].
    - rewrite Htag, Hov. unfold WithTag. by rewrite Hvalid.
    - rewrite Htag, Hov. unfold WithTag. by rewrite Hvalid. }
  assert (Hloop : foldR (parseOCINames_step E l overrides) [name] (mkNames ∅ ∅)
                  = Ok (mkNames {[ id := mkDescr [mkTagged (nt_name t) r] ]} ({[r]} ∪ ∅))).
  { rewrite (parseOCINames_loop_assocs E l overrides [name] _ _ Hassocs). cbn [foldR]. simpl fst.
    simpl snd. rewrite addAssoc_effective, Heff.
    unfold touch, attach, refs_of. simpl. rewrite lookup_empty. simpl.
    rewrite lookup_insert_eq. simpl.
    rewrite bool_decide_eq_false_2 by set_solver. simpl.
    by rewrite insert_insert_eq, insert_empty. }
  unfold parseOCINames. rewrite Hget. cbn -[foldR]. by rewrite Hloop.
Qed.

End Override_applied.

(** * The further properties on the fixture *)

Import Fixture.

Lemma pair_eta_fst {A B} (p : A * B) (a : A) : p.1 = a -> p = (a, p.2).
Proof. destruct p. simpl. by intros ->. Qed.


(** The overrides [busybox=stable] and [busybox:latest=edge] both stand for
    [busybox:latest]. *)
Definition ov_twice : gmap string string :=
  {[ "busybox" := "stable"; "busybox:latest" := "edge" ]}.

(** The override of the fixture that is fine ends up in the map, and it is in
    the class. *)
Lemma getRefs_returns_checked_overrides_example :
  RangeOrder (@rng_fwd string _ _ string)
  /\ getRefs env rng_fwd (exporter ov_valid)
     = Ok {[ "frombusybox0:latest" := "frombusybox0-latest" ]}
  /\ ociRefRegexp_MatchString "frombusybox0-latest" = true.
Proof.
  pose proof getRefs_accepts_valid_override as Hget.
  split; [apply rng_fwd_order|]. split; [exact Hget|].
  exact (proj1 (getRefs_returns_checked_overrides env rng_fwd (exporter ov_valid) _
                  rng_fwd_order Hget "frombusybox0:latest" "frombusybox0-latest"
                  (lookup_singleton_eq _ _))).
Defined.

(** Under the two enumerations of [ov_twice] the reference [busybox:latest]
    gets the one override or the other. *)
Lemma getRefs_last_override_wins_example :
  RangeOrder (@rng_fwd string _ _ string)
  /\ RangeOrder (@rng_rev string _ _ string)
  /\ getRefs env rng_fwd (exporter ov_twice) = Ok {[ "busybox:latest" := "stable" ]}
  /\ getRefs env rng_rev (exporter ov_twice) = Ok {[ "busybox:latest" := "edge" ]}
  /\ ({[ "busybox:latest" := "stable" ]} : gmap string string) !! "busybox:latest"
     = Some "stable"
  /\ ({[ "busybox:latest" := "edge" ]} : gmap string string) !! "busybox:latest" = Some "edge".
Proof.
  assert (Hfwd : getRefs env rng_fwd (exporter ov_twice) = Ok {[ "busybox:latest" := "stable" ]})
    by (vm_compute; reflexivity).
  assert (Hrev : getRefs env rng_rev (exporter ov_twice) = Ok {[ "busybox:latest" := "edge" ]})
    by (vm_compute; reflexivity).
  split; [apply rng_fwd_order|]. split; [apply rng_rev_order|].
  split; [exact Hfwd|]. split; [exact Hrev|]. split.
  - apply (getRefs_last_override_wins env rng_fwd (exporter ov_twice) _
             [("busybox:latest", "edge")] [] "busybox" "stable" "busybox:latest" Hfwd).
    + vm_compute. reflexivity.
    + vm_compute. reflexivity.
    + constructor.
  - apply (getRefs_last_override_wins env rng_rev (exporter ov_twice) _
             [("busybox", "stable")] [] "busybox:latest" "edge" "busybox:latest" Hrev).
    + vm_compute. reflexivity.
    + vm_compute. reflexivity.
    + constructor.
Defined.

(** The overrides [busybox=stable] and [busybox:latest=stable] stand for one
    reference and agree on its tag; [frombusybox0=frombusybox0-latest] stands
    for another. *)
Definition ov_agree : gmap string string :=
  {[ "busybox" := "stable"; "busybox:latest" := "stable";
     "frombusybox0" := "frombusybox0-latest" ]}.

Lemma ov_agree_keys : forall image1 ref1 image2 ref2 key,
  l_refs (exporter ov_agree) !! image1 = Some ref1 ->
  l_refs (exporter ov_agree) !! image2 = Some ref2 ->
  entry_key env image1 = Some key -> entry_key env image2 = Some key -> ref1 = ref2.
Proof.
  assert (H : map_Forall (fun image1 ref1 =>
                map_Forall (fun image2 ref2 =>
                  entry_key env image1 = None
                  \/ entry_key env image1 <> entry_key env image2
                  \/ ref1 = ref2) ov_agree) ov_agree).
  { apply (bool_decide_unpack _). vm_compute. exact I. }
  intros image1 ref1 image2 ref2 key H1 H2 Hk1 Hk2.
  destruct (H image1 ref1 H1 image2 ref2 H2) as [Hnone|[Hne|Heq]]; [congruence|congruence|done].
Qed.

(** The two enumerations of [ov_agree] meet the two entries that stand for
    [busybox:latest] in opposite orders, and [getRefs] returns the same map
    under both. *)
Lemma getRefs_any_order_example :
  RangeOrder (@rng_fwd string _ _ string)
  /\ RangeOrder (@rng_rev string _ _ string)
  /\ (rng_fwd ov_agree).*1 = ["frombusybox0"; "busybox:latest"; "busybox"]
  /\ (rng_rev ov_agree).*1 = ["busybox"; "busybox:latest"; "frombusybox0"]
  /\ entry_key env "busybox" = Some "busybox:latest"
  /\ entry_key env "busybox:latest" = Some "busybox:latest"
  /\ is_ok (getRefs env rng_fwd (exporter ov_agree))
     = is_ok (getRefs env rng_rev (exporter ov_agree))
  /\ getRefs env rng_fwd (exporter ov_agree)
     = Ok {[ "busybox:latest" := "stable"; "frombusybox0:latest" := "frombusybox0-latest" ]}
  /\ getRefs env rng_rev (exporter ov_agree)
     = Ok {[ "busybox:latest" := "stable"; "frombusybox0:latest" := "frombusybox0-latest" ]}.
Proof.
  assert (Hfwd : getRefs env rng_fwd (exporter ov_agree)
                 = Ok {[ "busybox:latest" := "stable";
                         "frombusybox0:latest" := "frombusybox0-latest" ]})
    by (vm_compute; reflexivity).
  split; [apply rng_fwd_order|]. split; [apply rng_rev_order|].
  split; [vm_compute; reflexivity|]. split; [vm_compute; reflexivity|].
  split; [vm_compute; reflexivity|]. split; [vm_compute; reflexivity|].
  destruct (getRefs_any_order env rng_fwd rng_rev (exporter ov_agree)
              rng_fwd_order rng_rev_order ov_agree_keys) as [Hsame Heq].
  split; [exact Hsame|]. split; [exact Hfwd|]. apply Heq. exact Hfwd.
Defined.


(** ** Name resolution *)

(** [busybox:latest] and [frombusybox0], the latter moved to a tag of its own
    by the override of the fixture. *)
Definition resolved_two : gmap ID imageDescriptor :=
  match parseOCINames env rng_fwd (exporter ov_valid) ["busybox:latest"; "frombusybox0"] with
  | Ok images => images
  | Err _ => ∅
  end.

Lemma parseOCINames_resolved_two :
  parseOCINames env rng_fwd (exporter ov_valid) ["busybox:latest"; "frombusybox0"]
  = Ok resolved_two.
Proof.
  unfold resolved_two.
  assert (Hok : is_ok (parseOCINames env rng_fwd (exporter ov_valid)
                         ["busybox:latest"; "frombusybox0"]) = true) by (vm_compute; reflexivity).
  by destruct (parseOCINames env rng_fwd (exporter ov_valid) ["busybox:latest"; "frombusybox0"]).
Qed.

(** The two references resolved carry two tags. *)
Lemma parseOCINames_unique_tags_example :
  parseOCINames env rng_fwd (exporter ov_valid) ["busybox:latest"; "frombusybox0"]
    = Ok resolved_two
  /\ map_to_list resolved_two
     = [(id_frombusybox0, mkDescr [mkTagged "frombusybox0" "frombusybox0-latest"]);
        (id_busybox, mkDescr [ref_busybox])]
  /\ (forall id1 d1 id2 d2 i j t1 t2,
        resolved_two !! id1 = Some d1 -> resolved_two !! id2 = Some d2 ->
        refs d1 !! i = Some t1 -> refs d2 !! j = Some t2 ->
        nt_tag t1 = nt_tag t2 -> id1 = id2 /\ i = j).
Proof.
  split; [exact parseOCINames_resolved_two|]. split; [vm_compute; reflexivity|].
  exact (parseOCINames_unique_tags env rng_fwd (exporter ov_valid)
           ["busybox:latest"; "frombusybox0"] resolved_two parseOCINames_resolved_two).
Defined.

(** The name of the integration test that stands for no image. *)
Lemma parseOCINames_unresolved_name_example :
  token_assocs env (exporter ∅) "notexists" = Err (ErrExternal "No such image: notexists")
  /\ is_ok (parseOCINames env rng_fwd (exporter ∅) ["busybox:latest"; "notexists"]) = false
  /\ parseOCINames env rng_fwd (exporter ∅) ["notexists"]
     = Err (ErrExternal "No such image: notexists").
Proof.
  assert (Hname : token_assocs env (exporter ∅) "notexists"
                  = Err (ErrExternal "No such image: notexists")) by (vm_compute; reflexivity).
  split; [exact Hname|].
  destruct (parseOCINames_unresolved_name env rng_fwd (exporter ∅)
              ["busybox:latest"; "notexists"] "notexists" _
              (list_elem_of_further _ _ _ (list_elem_of_here _ _)) Hname) as [Hfail Halone].
  split; [exact Hfail|]. apply Halone. vm_compute. reflexivity.
Defined.

(** The references [busybox:latest] and [frombusybox0] stand for, with the
    override: they do not clash, and they are what is returned. *)
Lemma parseOCINames_resolves_example :
  getRefs env rng_fwd (exporter ov_valid)
    = Ok {[ "frombusybox0:latest" := "frombusybox0-latest" ]}
  /\ names_assocs env (exporter ov_valid) ["busybox:latest"; "frombusybox0"]
     = Ok [(id_busybox, Some (Tagged ref_busybox));
           (id_frombusybox0, Some (Tagged ref_frombusybox0))]
  /\ effective_refs env {[ "frombusybox0:latest" := "frombusybox0-latest" ]}
       [(id_busybox, Some (Tagged ref_busybox));
        (id_frombusybox0, Some (Tagged ref_frombusybox0))]
     = Ok [(id_busybox, ref_busybox);
           (id_frombusybox0, mkTagged "frombusybox0" "frombusybox0-latest")]
  /\ exists images,
       parseOCINames env rng_fwd (exporter ov_valid) ["busybox:latest"; "frombusybox0"]
         = Ok images
       /\ (forall id, is_Some (images !! id) <-> id ∈ [id_busybox; id_frombusybox0])
       /\ (forall id t,
             t ∈ refs (default (mkDescr []) (images !! id)) <->
             (id, t) ∈ [(id_busybox, ref_busybox);
                        (id_frombusybox0, mkTagged "frombusybox0" "frombusybox0-latest")]).
Proof.
  pose proof getRefs_accepts_valid_override as Hget.
  assert (Hassocs : names_assocs env (exporter ov_valid) ["busybox:latest"; "frombusybox0"]
                    = Ok [(id_busybox, Some (Tagged ref_busybox));
                          (id_frombusybox0, Some (Tagged ref_frombusybox0))])
    by (vm_compute; reflexivity).
  assert (Heffs : effective_refs env {[ "frombusybox0:latest" := "frombusybox0-latest" ]}
                    [(id_busybox, Some (Tagged ref_busybox));
                     (id_frombusybox0, Some (Tagged ref_frombusybox0))]
                  = Ok [(id_busybox, ref_busybox);
                        (id_frombusybox0, mkTagged "frombusybox0" "frombusybox0-latest")])
    by (vm_compute; reflexivity).
  split; [exact Hget|]. split; [exact Hassocs|]. split; [exact Heffs|].
  apply (parseOCINames_resolves env rng_fwd (exporter ov_valid)
           ["busybox:latest"; "frombusybox0"] _ _ _ Hget Hassocs Heffs).
  - repeat (apply Forall_cons; split; [reflexivity|]). apply Forall_nil_2.
  - intros p q Hp Hq Htag.
    apply elem_of_cons in Hp as [->|Hp]; [|apply list_elem_of_singleton in Hp as ->];
      (apply elem_of_cons in Hq as [->|Hq]; [|apply list_elem_of_singleton in Hq as ->]);
      first [reflexivity | discriminate Htag].
Defined.

(** ** The save session *)

(** The archive of [shared_images]: [busybox] under two tags and
    [frombusybox0]. *)
Definition saved_shared : OciDir := tempDir (save env rng_fwd (exporter ∅) shared_images).2.

Lemma save_shared_images :
  save env rng_fwd (exporter ∅) shared_images
  = (Ok saved_shared, (save env rng_fwd (exporter ∅) shared_images).2).
Proof. apply save_result. vm_compute. reflexivity. Qed.

(** Its files under [refs/] are the three tags, and the marker is there. *)
Lemma save_writes_refs_example :
  RangeOrder (@rng_fwd ID _ _ imageDescriptor)
  /\ (map_to_list (dir_refs saved_shared)).*1 = ["12.04"; "fb0"; "latest"]
  /\ is_Some (dir_refs saved_shared !! "fb0")
  /\ dir_layout saved_shared = Some oci_layout_marker.
Proof.
  split; [apply rng_fwd_order|]. split; [vm_compute; reflexivity|].
  destruct (save_writes_refs env (exporter ∅) rng_fwd shared_images saved_shared _
              rng_fwd_order save_shared_images) as (Hrefs & Hlayout & _).
  split.
  - apply Hrefs. exists id_frombusybox0, (mkDescr [ref_frombusybox0_fb0]). split.
    + vm_compute. reflexivity.
    + left. simpl. apply list_elem_of_here.
  - apply Hlayout. unfold shared_images. apply insert_non_empty.
Defined.

(** The file [refs/latest] of the archive of [busybox] names a manifest whose
    blobs are all in the archive. *)
Lemma save_archive_closed_example :
  exists content,
    dir_refs saved_busybox !! "latest" = Some content
    /\ exists m,
         content = marshalDescriptor env
                     (mkDescriptor MediaTypeImageManifest
                        (digestFromBytes env (marshalManifest env m))
                        (size_of (marshalManifest env m)))
         /\ is_Some (dir_blobs saved_busybox !! digestFromBytes env (marshalManifest env m))
         /\ forall d, d ∈ Config m :: Layers m ->
                      is_Some (dir_blobs saved_busybox !! desc_Digest d).
Proof.
  assert (Hsave : save env rng_fwd (exporter ∅) {[ id_busybox := mkDescr [ref_busybox] ]}
                  = (Ok saved_busybox,
                     (save env rng_fwd (exporter ∅) {[ id_busybox := mkDescr [ref_busybox] ]}).2)).
  { apply save_result. vm_compute. reflexivity. }
  assert (Hsome : is_Some (dir_refs saved_busybox !! "latest")).
  { apply (bool_decide_unpack _). vm_compute. exact I. }
  destruct Hsome as [content Hcontent]. exists content. split; [exact Hcontent|].
  exact (proj1 (save_archive_closed env (exporter ∅) rng_fwd _ saved_busybox _ Hsave)
           "latest" content Hcontent).
Defined.

(** The manifest of [busybox], saved first in a session: one layer. *)
Lemma saveImage_builds_manifest_example :
  is_Get env (l_is (exporter ∅)) id_busybox
    = Ok (mkImage (mkRootFS "layers" [diffA]) cfg_busybox)
  /\ is_ok (saveImage env (exporter ∅) id_busybox "latest" (mkSession ∅ ∅ emptyDir [])).1 = true
  /\ exists m,
       savedImages (saveImage env (exporter ∅) id_busybox "latest"
                      (mkSession ∅ ∅ emptyDir [])).2 !! id_busybox
         = Some (marshalManifest env m)
       /\ Config m = mkDescriptor MediaTypeImageConfig id_busybox (size_of cfg_busybox)
       /\ List.length (Layers m) = 1.
Proof.
  assert (Hget : is_Get env (l_is (exporter ∅)) id_busybox
                 = Ok (mkImage (mkRootFS "layers" [diffA]) cfg_busybox))
    by (vm_compute; reflexivity).
  assert (Hok : (saveImage env (exporter ∅) id_busybox "latest" (mkSession ∅ ∅ emptyDir [])).1
                = Ok tt) by (vm_compute; reflexivity).
  split; [exact Hget|]. split; [by rewrite Hok|].
  destruct (saveImage_builds_manifest env (exporter ∅) id_busybox "latest"
              (mkSession ∅ ∅ emptyDir []) _ _ (lookup_empty _) Hget (pair_eta_fst _ _ Hok))
    as (m & Hsaved & _ & _ & Hconfig & Hlen & _).
  exists m. split; [exact Hsaved|]. split; [exact Hconfig|exact Hlen].
Defined.

(** The stores of the fixture with an empty layer store. *)
Definition exporter_without_layers : tarexporter :=
  {| l_is := fx_is; l_ls := ∅; l_rs := fx_rs; l_refs := ∅ |}.

(** [busybox] cannot be saved without its layer: its configuration is
    staged, and nothing is written under [refs/]. *)
Lemma saveImage_failure_leaves_no_ref_example :
  image_exportable env exporter_without_layers id_busybox = false
  /\ is_ok (saveImage env exporter_without_layers id_busybox "latest"
              (mkSession ∅ ∅ emptyDir [])).1 = false
  /\ blob_contents (calls (saveImage env exporter_without_layers id_busybox "latest"
                             (mkSession ∅ ∅ emptyDir [])).2) = [cfg_busybox]
  /\ dir_refs (tempDir (saveImage env exporter_without_layers id_busybox "latest"
                          (mkSession ∅ ∅ emptyDir [])).2) = ∅
  /\ savedImages (saveImage env exporter_without_layers id_busybox "latest"
                    (mkSession ∅ ∅ emptyDir [])).2 = ∅.
Proof.
  assert (Hexp : image_exportable env exporter_without_layers id_busybox = false)
    by (vm_compute; reflexivity).
  split; [exact Hexp|].
  destruct (saveImage_failure_leaves_no_ref env exporter_without_layers id_busybox "latest"
              (mkSession ∅ ∅ emptyDir []) (lookup_empty _) Hexp)
    as (Hfail & Hrefs & _ & Hsaved & _).
  split; [exact Hfail|]. split; [vm_compute; reflexivity|].
  split; [exact Hrefs|exact Hsaved].
Defined.

(** The session over [shared_images] succeeds, so [busybox] is in the image
    store with a layer, and its layer is in the layer store. *)
Lemma save_succeeds_iff_example :
  RangeOrder (@rng_fwd ID _ _ imageDescriptor)
  /\ is_ok (save env rng_fwd (exporter ∅) shared_images).1 = true
  /\ exists img,
       is_Get env (l_is (exporter ∅)) id_busybox = Ok img
       /\ DiffIDs (img_RootFS img) <> []
       /\ forall i, i < List.length (DiffIDs (img_RootFS img)) ->
            is_Some (l_ls (exporter ∅)
                       !! CreateChainID env (take (S i) (DiffIDs (img_RootFS img)))).
Proof.
  assert (Hok : is_ok (save env rng_fwd (exporter ∅) shared_images).1 = true)
    by (vm_compute; reflexivity).
  split; [apply rng_fwd_order|]. split; [exact Hok|].
  assert (Hin : shared_images !! id_busybox = Some (mkDescr [ref_busybox; ref_busybox_1204]))
    by apply lookup_insert_eq.
  exact (proj1 (proj1 (save_succeeds_iff env (exporter ∅) rng_fwd shared_images rng_fwd_order)
                  Hok id_busybox _ Hin)).
Defined.

(** The two references resolved above are saved under two files. *)
Lemma save_one_file_per_reference_example :
  parseOCINames env rng_fwd (exporter ov_valid) ["busybox:latest"; "frombusybox0"]
    = Ok resolved_two
  /\ RangeOrder (@rng_fwd ID _ _ imageDescriptor)
  /\ is_ok (save env rng_fwd (exporter ov_valid) resolved_two).1 = true
  /\ manifest_dests (calls (save env rng_fwd (exporter ov_valid) resolved_two).2)
     = ["frombusybox0-latest"; "latest"]
  /\ NoDup (manifest_dests (calls (save env rng_fwd (exporter ov_valid) resolved_two).2))
  /\ size (dir_refs (tempDir (save env rng_fwd (exporter ov_valid) resolved_two).2))
     = List.length (manifest_dests (calls (save env rng_fwd (exporter ov_valid) resolved_two).2)).
Proof.
  assert (Hok : is_ok (save env rng_fwd (exporter ov_valid) resolved_two).1 = true)
    by (vm_compute; reflexivity).
  assert (Hrefs : forall id info, resolved_two !! id = Some info -> refs info <> []).
  { change (map_Forall (fun (_ : string) info => refs info <> []) resolved_two).
    apply (bool_decide_unpack _). vm_compute. exact I. }
  split; [exact parseOCINames_resolved_two|]. split; [apply rng_fwd_order|].
  split; [exact Hok|]. split; [vm_compute; reflexivity|].
  destruct (save_one_file_per_reference env (exporter ov_valid) rng_fwd rng_fwd
              ["busybox:latest"; "frombusybox0"] resolved_two _ _
              parseOCINames_resolved_two Hrefs rng_fwd_order
              (save_result env (exporter ov_valid) rng_fwd resolved_two Hok))
    as (Hnodup & _ & Hsize).
  split; [exact Hnodup|exact Hsize].
Defined.

(** ** The load session *)

Lemma load_saved_shared :
  loadOCI env rng_fwd saved_shared (fresh_load ∅ ∅)
  = (Ok tt, (loadOCI env rng_fwd saved_shared (fresh_load ∅ ∅)).2).
Proof. apply loadOCI_result. vm_compute. reflexivity. Qed.

(** Loading the archive of [shared_images], three references for two
    images, writes three lines, two of them for [busybox]. *)
Lemma loadOCI_reports_each_ref_example :
  RangeOrder (@rng_fwd string _ _ Manifest)
  /\ size (dir_refs saved_shared) = 3
  /\ ld_out (loadOCI env rng_fwd saved_shared (fresh_load ∅ ∅)).2
     = load_lines [id_busybox; id_frombusybox0; id_busybox]
  /\ exists ids,
       List.length ids = size (dir_refs saved_shared)
       /\ ld_out (loadOCI env rng_fwd saved_shared (fresh_load ∅ ∅)).2
          = ld_out (fresh_load ∅ ∅) +:+ load_lines ids
       /\ ld_events (loadOCI env rng_fwd saved_shared (fresh_load ∅ ∅)).2
          = ld_events (fresh_load ∅ ∅) ++ ((fun id => (id, id, "load")) <$> ids).
Proof.
  split; [apply rng_fwd_order|]. split; [vm_compute; reflexivity|].
  split; [vm_compute; reflexivity|].
  destruct (loadOCI_reports_each_ref env rng_fwd saved_shared (fresh_load ∅ ∅) _
              rng_fwd_order load_saved_shared)
    as (manifests & ids & _ & _ & _ & Hlen & Hout & Hev & _).
  exists ids. split; [exact Hlen|]. split; [exact Hout|exact Hev].
Defined.

(** The same load defers the release of four layers: one for each
    reference of [busybox], two for [frombusybox0]. *)
Lemma loadOCI_checks_every_layer_example :
  layer_DiffID <$> ld_deferred (loadOCI env rng_fwd saved_shared (fresh_load ∅ ∅)).2
    = [diffA; diffA; diffB; diffA]
  /\ exists manifests hyd,
       foldR (walk_ref env saved_shared) (walk_order saved_shared) ∅ = Ok manifests
       /\ ld_deferred (loadOCI env rng_fwd saved_shared (fresh_load ∅ ∅)).2
          = ld_deferred (fresh_load ∅ ∅) ++ hyd
       /\ Forall2 (fun d ly => d = layer_DiffID ly)
            (rng_fwd manifests ≫= (fun entry => manifest_diffIDs env saved_shared entry.2)) hyd.
Proof.
  split; [vm_compute; reflexivity|].
  exact (loadOCI_checks_every_layer env rng_fwd saved_shared (fresh_load ∅ ∅) _
           load_saved_shared).
Defined.

(** The archive with the swapped layer fails to load, and nothing is
    written. *)
Lemma loadOCI_failure_prints_nothing_example :
  (loadOCI env rng_fwd bad_dir (fresh_load ∅ ∅)).1 = Err (ErrInvalidDiffID 0 diffA diffB)
  /\ ld_out (loadOCI env rng_fwd bad_dir (fresh_load ∅ ∅)).2 = EmptyString.
Proof.
  assert (Herr : (loadOCI env rng_fwd bad_dir (fresh_load ∅ ∅)).1
                 = Err (ErrInvalidDiffID 0 diffA diffB)) by (vm_compute; reflexivity).
  split; [exact Herr|].
  exact (proj1 (loadOCI_failure_prints_nothing env rng_fwd bad_dir (fresh_load ∅ ∅) _ _
                  (pair_eta_fst _ _ Herr))).
Defined.

(** The archive of [busybox] with one more file under [refs/] that holds no
    descriptor. *)
Definition garbled_dir : OciDir :=
  mkDir (dir_layout saved_busybox)
    (<["stable" := "not a descriptor"]> (dir_refs saved_busybox))
    (dir_blobs saved_busybox).

(** It does not load, though [refs/latest] is in order, and no store is
    touched. *)
Lemma loadOCI_unreadable_ref_example :
  walk_ref env garbled_dir ∅ "stable" = Err (ErrExternal "invalid descriptor")
  /\ is_ok (walk_ref env garbled_dir ∅ "latest") = true
  /\ exists e, loadOCI env rng_fwd garbled_dir (fresh_load ∅ ∅) = (Err e, fresh_load ∅ ∅).
Proof.
  assert (Hbad : walk_ref env garbled_dir ∅ "stable" = Err (ErrExternal "invalid descriptor"))
    by (vm_compute; reflexivity).
  split; [exact Hbad|]. split; [vm_compute; reflexivity|].
  apply (loadOCI_unreadable_ref env rng_fwd garbled_dir (fresh_load ∅ ∅) "stable"
           (ErrExternal "invalid descriptor")); [|exact Hbad].
  simpl. rewrite lookup_insert_eq. eauto.
Defined.

(** The manifest of [busybox] in its archive. *)
Definition busybox_manifest : Manifest :=
  mkManifest 2 MediaTypeImageManifest
    (mkDescriptor MediaTypeImageConfig id_busybox (size_of cfg_busybox))
    [mkDescriptor MediaTypeImageLayer (fx_digest (fx_gzip tarA)) (size_of (fx_gzip tarA))].

(** Loading the archive of [busybox] where its layer is already in the
    layer store leaves the layer store as it is. *)
Lemma loadOCI_reuses_layers_example :
  foldR (walk_ref env saved_busybox) (walk_order saved_busybox) ∅
    = Ok {[ "latest" := busybox_manifest ]}
  /\ manifest_diffIDs env saved_busybox busybox_manifest = [diffA]
  /\ is_Some (fx_ls !! CreateChainID env [diffA])
  /\ ld_ls (loadOCI env rng_fwd saved_busybox (fresh_load ∅ fx_ls)).2 = fx_ls.
Proof.
  assert (Hwalk : foldR (walk_ref env saved_busybox) (walk_order saved_busybox) ∅
                  = Ok {[ "latest" := busybox_manifest ]}) by (vm_compute; reflexivity).
  assert (Hdiffs : manifest_diffIDs env saved_busybox busybox_manifest = [diffA])
    by (vm_compute; reflexivity).
  assert (Hlayer : is_Some (fx_ls !! CreateChainID env [diffA])).
  { apply (bool_decide_unpack _). vm_compute. exact I. }
  split; [exact Hwalk|]. split; [exact Hdiffs|]. split; [exact Hlayer|].
  apply (loadOCI_reuses_layers env rng_fwd saved_busybox (fresh_load ∅ fx_ls)).
  intros manifests entry k d Hw Hentry Hk. rewrite Hwalk in Hw. injection Hw as <-.
  unfold rng_fwd in Hentry. rewrite map_to_list_singleton in Hentry.
  apply list_elem_of_singleton in Hentry as ->. simpl in Hk |- *. rewrite Hdiffs in Hk |- *.
  destruct k as [|k]; [exact Hlayer|]. by destruct k.
Defined.

(** The two enumerations of [shared_images] stage the same directory, and
    write its files under [refs/] in different orders. *)
Lemma save_directory_any_order_example :
  RangeOrder (@rng_fwd ID _ _ imageDescriptor)
  /\ RangeOrder (@rng_rev ID _ _ imageDescriptor)
  /\ is_ok (save env rng_fwd (exporter ∅) shared_images).1 = true
  /\ is_ok (save env rng_rev (exporter ∅) shared_images).1 = true
  /\ manifest_dests (calls (save env rng_fwd (exporter ∅) shared_images).2)
     = ["fb0"; "latest"; "12.04"]
  /\ manifest_dests (calls (save env rng_rev (exporter ∅) shared_images).2)
     = ["latest"; "12.04"; "fb0"]
  /\ tempDir (save env rng_fwd (exporter ∅) shared_images).2
     = tempDir (save env rng_rev (exporter ∅) shared_images).2.
Proof.
  assert (Hfwd : is_ok (save env rng_fwd (exporter ∅) shared_images).1 = true)
    by (vm_compute; reflexivity).
  assert (Hrev : is_ok (save env rng_rev (exporter ∅) shared_images).1 = true)
    by (vm_compute; reflexivity).
  split; [apply rng_fwd_order|]. split; [apply rng_rev_order|].
  split; [exact Hfwd|]. split; [exact Hrev|].
  split; [vm_compute; reflexivity|]. split; [vm_compute; reflexivity|].
  assert (Hentries : forall id info, shared_images !! id = Some info ->
            (id, info) = (id_frombusybox0, mkDescr [ref_frombusybox0_fb0])
            \/ (id, info) = (id_busybox, mkDescr [ref_busybox; ref_busybox_1204])).
  { intros id info Hinfo. apply elem_of_map_to_list in Hinfo.
    assert (Hlist : map_to_list shared_images
                    = [(id_frombusybox0, mkDescr [ref_frombusybox0_fb0]);
                       (id_busybox, mkDescr [ref_busybox; ref_busybox_1204])])
      by (vm_compute; reflexivity).
    rewrite Hlist in Hinfo. apply elem_of_cons in Hinfo as [->|Hinfo]; [by left|].
    apply list_elem_of_singleton in Hinfo as ->. by right. }
  assert (Huniq : forall id1 info1 id2 info2 name,
            shared_images !! id1 = Some info1 -> shared_images !! id2 = Some info2 ->
            name ∈ entry_dests_or_nil (id1, info1) -> name ∈ entry_dests_or_nil (id2, info2) ->
            id1 = id2).
  { intros id1 info1 id2 info2 name H1 H2 Hn1 Hn2.
    destruct (Hentries id1 info1 H1) as [[= -> ->]|[= -> ->]],
             (Hentries id2 info2 H2) as [[= -> ->]|[= -> ->]];
      try reflexivity; exfalso;
      unfold entry_dests_or_nil, entry_dests in Hn1, Hn2; simpl in Hn1, Hn2.
    - apply list_elem_of_singleton in Hn1 as ->.
      apply elem_of_cons in Hn2 as [Hn2|Hn2]; [discriminate Hn2|].
      apply list_elem_of_singleton in Hn2. discriminate Hn2.
    - apply list_elem_of_singleton in Hn2 as ->.
      apply elem_of_cons in Hn1 as [Hn1|Hn1]; [discriminate Hn1|].
      apply list_elem_of_singleton in Hn1. discriminate Hn1. }
  exact (save_directory_any_order env (exporter ∅) rng_fwd rng_rev shared_images _ _ _ _
           fx_digest_inj fx_ls_addressed Huniq rng_fwd_order rng_rev_order
           (save_result env (exporter ∅) rng_fwd shared_images Hfwd)
           (save_result env (exporter ∅) rng_rev shared_images Hrev)).
Defined.

(** The override of the fixture, given for [frombusybox0], renames the
    reference [frombusybox0:latest] the name [frombusybox0] resolves to. *)
Lemma parseOCINames_applies_override_example :
  RangeOrder (@rng_fwd string _ _ string)
  /\ l_refs (exporter ov_valid) !! "frombusybox0" = Some "frombusybox0-latest"
  /\ entry_key env "frombusybox0" = Some "frombusybox0:latest"
  /\ names_assocs env (exporter ov_valid) ["frombusybox0"]
     = Ok [(id_frombusybox0, Some (Tagged ref_frombusybox0))]
  /\ parseOCINames env rng_fwd (exporter ov_valid) ["frombusybox0"]
     = Ok {[ id_frombusybox0 := mkDescr [mkTagged "frombusybox0" "frombusybox0-latest"] ]}.
Proof.
  assert (Hlookup : l_refs (exporter ov_valid) !! "frombusybox0" = Some "frombusybox0-latest")
    by apply lookup_singleton_eq.
  assert (Hkey : entry_key env "frombusybox0" = Some (tagged_String ref_frombusybox0))
    by (vm_compute; reflexivity).
  assert (Hassocs : names_assocs env (exporter ov_valid) ["frombusybox0"]
                    = Ok [(id_frombusybox0, Some (Tagged ref_frombusybox0))])
    by (vm_compute; reflexivity).
  split; [apply rng_fwd_order|]. split; [exact Hlookup|]. split; [exact Hkey|].
  split; [exact Hassocs|].
  apply (parseOCINames_applies_override env rng_fwd (exporter ov_valid) _
           "frombusybox0" "frombusybox0-latest" "frombusybox0" id_frombusybox0
           (Tagged ref_frombusybox0) ref_frombusybox0 rng_fwd_order
           getRefs_accepts_valid_override Hlookup Hkey); [|reflexivity|exact Hassocs|reflexivity
           |reflexivity].
  intros image' r' Hi _. simpl in Hi. unfold ov_valid in Hi.
  by apply lookup_singleton_Some in Hi as [_ <-].
Defined.

(** The file [refs/latest] of the archive of [busybox] holds the descriptor
    of the manifest of [busybox], whose one layer is the gzip of layer A. *)
Lemma save_archive_exact_example :
  RangeOrder (@rng_fwd ID _ _ imageDescriptor)
  /\ manifest_for env (exporter ∅) (mkImage (mkRootFS "layers" [diffA]) cfg_busybox)
     = busybox_manifest
  /\ exists content,
       dir_refs saved_busybox !! "latest" = Some content
       /\ exists id info img,
            ({[ id_busybox := mkDescr [ref_busybox] ]} : gmap ID imageDescriptor) !! id = Some info
            /\ is_Get env (l_is (exporter ∅)) id = Ok img
            /\ content = marshalDescriptor env
                           (mkDescriptor MediaTypeImageManifest
                              (digestFromBytes env
                                 (marshalManifest env (manifest_for env (exporter ∅) img)))
                              (size_of (marshalManifest env (manifest_for env (exporter ∅) img))))
            /\ dir_blobs saved_busybox !! digestFromBytes env (RawJSON img) = Some (RawJSON img).
Proof.
  split; [apply rng_fwd_order|]. split; [vm_compute; reflexivity|].
  assert (Hsave : save env rng_fwd (exporter ∅) {[ id_busybox := mkDescr [ref_busybox] ]}
                  = (Ok saved_busybox,
                     (save env rng_fwd (exporter ∅) {[ id_busybox := mkDescr [ref_busybox] ]}).2)).
  { apply save_result. vm_compute. reflexivity. }
  assert (Hsome : is_Some (dir_refs saved_busybox !! "latest")).
  { apply (bool_decide_unpack _). vm_compute. exact I. }
  destruct Hsome as [content Hcontent]. exists content. split; [exact Hcontent|].
  destruct (save_archive_exact env (exporter ∅) rng_fwd _ saved_busybox _
              fx_digest_inj fx_ls_addressed rng_fwd_order Hsave "latest" content Hcontent)
    as (id & info & img & Hinfo & _ & Hget & Hc & _ & _ & Hcfg & _).
  exists id, info, img. split; [exact Hinfo|]. split; [exact Hget|]. split; [exact Hc|exact Hcfg].
Defined.
